(** * Authentication and circle access-control core of the hobby tracker

    A shallow embedding of the Go backend: the circle model
    ([internal/domain/models/circle.go]), the circle and user repositories
    ([internal/repository]), the token and password helpers ([pkg/auth]),
    the credential and OAuth services ([internal/service/auth]) and the
    OAuth entry points of the HTTP handlers ([internal/api/handlers]).

    Go strings are byte strings, so they are [string] (lists of [ascii]
    bytes) and [len] is [String.length].  Instants and durations are
    integer nanoseconds ([Z]).  Calls that reach the outside world (the
    database, the identity providers, the clock) take the part of the
    world they read as an argument and return the part they change. *)

From Stdlib Require Import ZArith List String Ascii Bool Lia Permutation.
Import ListNotations.

Open Scope string_scope.
Open Scope Z_scope.

(* ================================================================ *)
(** * Go runtime pieces used by the code *)

(** [s == ""] *)
Definition is_empty (s : string) : bool :=
  match s with
  | EmptyString => true
  | String _ _ => false
  end.

(** [len(s)]: the number of bytes. *)
Definition len (s : string) : Z := Z.of_nat (String.length s).

Definition byte_of_Z (z : Z) : ascii := ascii_of_N (Z.to_N (z mod 256)).
Definition Z_of_byte (c : ascii) : Z := Z.of_N (N_of_ascii c).

Definition str1 (z : Z) : string := String (byte_of_Z z) EmptyString.

(** [string(rune(r))]: the UTF-8 encoding of the code point, and the
    encoding of U+FFFD for a value that is not a valid code point
    (negative, a surrogate half, or above U+10FFFF). *)
Definition RuneError : Z := 65533.
Definition MaxRune : Z := 1114111.

Definition utf8_valid_rune (r : Z) : bool :=
  (0 <=? r) && (r <=? MaxRune) && negb ((55296 <=? r) && (r <=? 57343)).

Definition utf8_encode (r : Z) : string :=
  if r <=? 127 then str1 r
  else if r <=? 2047 then
    str1 (Z.lor 192 (Z.shiftr r 6)) ++ str1 (Z.lor 128 (Z.land r 63))
  else if r <=? 65535 then
    str1 (Z.lor 224 (Z.shiftr r 12))
      ++ str1 (Z.lor 128 (Z.land (Z.shiftr r 6) 63))
      ++ str1 (Z.lor 128 (Z.land r 63))
  else
    str1 (Z.lor 240 (Z.shiftr r 18))
      ++ str1 (Z.lor 128 (Z.land (Z.shiftr r 12) 63))
      ++ str1 (Z.lor 128 (Z.land (Z.shiftr r 6) 63))
      ++ str1 (Z.lor 128 (Z.land r 63)).

Definition string_of_rune (r : Z) : string :=
  if utf8_valid_rune r then utf8_encode r else utf8_encode RuneError.

(** Hexadecimal digits. *)
Definition hex_digit (upper : bool) (d : Z) : ascii :=
  if d <? 10 then byte_of_Z (48 + d)
  else byte_of_Z ((if upper then 55 else 87) + d).

Definition hex_byte (upper : bool) (c : ascii) : string :=
  let z := Z_of_byte c in
  String (hex_digit upper (z / 16)) (String (hex_digit upper (z mod 16)) EmptyString).

Fixpoint hex_string (upper : bool) (s : string) : string :=
  match s with
  | EmptyString => EmptyString
  | String c r => hex_byte upper c ++ hex_string upper r
  end.

(** [url.QueryEscape]: letters, digits and [-_.~] stay, a space becomes
    [+], every other byte becomes [%XX]. *)
Definition query_unreserved (c : ascii) : bool :=
  let z := Z_of_byte c in
  ((97 <=? z) && (z <=? 122)) || ((65 <=? z) && (z <=? 90))
  || ((48 <=? z) && (z <=? 57))
  || (z =? 45) || (z =? 95) || (z =? 46) || (z =? 126).

Fixpoint QueryEscape (s : string) : string :=
  match s with
  | EmptyString => EmptyString
  | String c r =>
      (if query_unreserved c then String c EmptyString
       else if Z_of_byte c =? 32 then "+"
       else "%" ++ hex_byte true c) ++ QueryEscape r
  end.

(** [strconv.Itoa] *)
Fixpoint pos_digits (fuel : nat) (n : Z) (acc : string) : string :=
  match fuel with
  | O => acc
  | S fuel' =>
      let acc' := String (byte_of_Z (48 + n mod 10)) acc in
      if n / 10 =? 0 then acc' else pos_digits fuel' (n / 10) acc'
  end.

Definition Itoa (n : Z) : string :=
  if n <? 0 then "-" ++ pos_digits (S (Z.to_nat (Z.log2 (- n)))) (- n) EmptyString
  else pos_digits (S (Z.to_nat (Z.log2 n))) n EmptyString.

(* ================================================================ *)
(** * Errors

    Package-level [errors.New] values are compared by identity
    ([err == repository.ErrUserNotFound]), so each is a constructor.
    [fmt.Errorf] with [%w] keeps the wrapped error; with [%v] it keeps
    only its text. *)

Inductive sentinel : Type :=
  | ErrNoDocuments          (* mongo.ErrNoDocuments *)
  | ErrUserNotFound
  | ErrEmailAlreadyExists
  | ErrInvalidCredentials
  | ErrInvalidEmail
  | ErrPasswordTooShort
  | ErrEmailRequired
  | ErrPasswordRequired
  | ErrNameRequired
  | ErrOAuthCodeRequired
  | ErrOAuthTokenExchange
  | ErrOAuthUserInfo.

Definition sentinel_text (s : sentinel) : string :=
  match s with
  | ErrNoDocuments => "mongo: no documents in result"
  | ErrUserNotFound => "user not found"
  | ErrEmailAlreadyExists => "email already exists"
  | ErrInvalidCredentials => "invalid credentials"
  | ErrInvalidEmail => "invalid email format"
  | ErrPasswordTooShort => "password must be at least 8 characters"
  | ErrEmailRequired => "email is required"
  | ErrPasswordRequired => "password is required"
  | ErrNameRequired => "name is required"
  | ErrOAuthCodeRequired => "authorization code is required"
  | ErrOAuthTokenExchange => "failed to exchange authorization code for token"
  | ErrOAuthUserInfo => "failed to fetch user information"
  end.

Definition sentinel_eqb (a b : sentinel) : bool :=
  match a, b with
  | ErrNoDocuments, ErrNoDocuments
  | ErrUserNotFound, ErrUserNotFound
  | ErrEmailAlreadyExists, ErrEmailAlreadyExists
  | ErrInvalidCredentials, ErrInvalidCredentials
  | ErrInvalidEmail, ErrInvalidEmail
  | ErrPasswordTooShort, ErrPasswordTooShort
  | ErrEmailRequired, ErrEmailRequired
  | ErrPasswordRequired, ErrPasswordRequired
  | ErrNameRequired, ErrNameRequired
  | ErrOAuthCodeRequired, ErrOAuthCodeRequired
  | ErrOAuthTokenExchange, ErrOAuthTokenExchange
  | ErrOAuthUserInfo, ErrOAuthUserInfo => true
  | _, _ => false
  end.

Inductive error : Type :=
  | Sentinel (s : sentinel)
      (* a package-level error value *)
  | ErrorString (msg : string)
      (* errors.New / fmt.Errorf without %w at the place of failure *)
  | DriverError (duplicate_key : bool) (msg : string)
      (* an error of the database driver; a write refused by a unique
         index is the duplicate-key kind *)
  | Wrap (prefix : string) (inner : error)
      (* fmt.Errorf(prefix + "%w", inner) *)
  | WrapTag (tag : sentinel) (detail : string).
      (* fmt.Errorf("%w: %v", tag, err): wraps [tag], quotes the text of [err] *)

Fixpoint Error (e : error) : string :=
  match e with
  | Sentinel s => sentinel_text s
  | ErrorString m => m
  | DriverError _ m => m
  | Wrap p inner => p ++ Error inner
  | WrapTag tag detail => sentinel_text tag ++ ": " ++ detail
  end.

(** [err == target] for a package-level target. *)
Definition err_is_sentinel (e : error) (s : sentinel) : bool :=
  match e with
  | Sentinel s' => sentinel_eqb s' s
  | _ => false
  end.

(** [errors.Is(err, target)]: [err] or an error it wraps is [target]. *)
Fixpoint errors_Is (e : error) (s : sentinel) : bool :=
  match e with
  | Sentinel s' => sentinel_eqb s' s
  | Wrap _ inner => errors_Is inner s
  | WrapTag tag _ => sentinel_eqb tag s
  | _ => false
  end.

(** A call that returns [(value, error)]. *)
Inductive result (A : Type) : Type :=
  | Ok (a : A)
  | Err (e : error).
Arguments Ok {A} a.
Arguments Err {A} e.

(* ================================================================ *)
(** * [internal/domain/models] *)

(** [primitive.ObjectID]: twelve raw bytes. *)
Definition ObjectID : Type := string.

Definition NilObjectID : ObjectID :=
  String.concat EmptyString (repeat (str1 0) 12).

Definition ObjectID_eqb (a b : ObjectID) : bool := String.eqb a b.

Definition IsZero (id : ObjectID) : bool := ObjectID_eqb id NilObjectID.

Definition Hex (id : ObjectID) : string := hex_string false id.

(** [AccessLevel] is a string type with four named constants. *)
Definition AccessLevel : Type := string.
Definition AccessLevelPrivate : AccessLevel := "private".
Definition AccessLevelView : AccessLevel := "view".
Definition AccessLevelEdit : AccessLevel := "edit".
Definition AccessLevelAdmin : AccessLevel := "admin".

Record CircleMember : Type := mkCircleMember {
  cm_UserID : ObjectID;
  cm_AccessLevel : AccessLevel;
  cm_InvitedAt : Z;
  cm_AcceptedAt : option Z
}.

Record Circle : Type := mkCircle {
  c_ID : ObjectID;
  c_Name : string;
  c_OwnerID : ObjectID;
  c_Members : list CircleMember;
  c_CreatedAt : Z;
  c_UpdatedAt : Z
}.

Record User : Type := mkUser {
  u_ID : ObjectID;
  u_Email : string;
  u_PasswordHash : string;
  u_Name : string;
  u_AvatarURL : string;
  u_OAuthProvider : string;      (* user id at the provider *)
  u_OAuthProviderName : string;  (* google, github *)
  u_CreatedAt : Z;
  u_UpdatedAt : Z
}.

(** [for _, member := range members { if member.UserID == userID ... }] *)
Fixpoint HasMember_loop (members : list CircleMember) (userID : ObjectID) : bool :=
  match members with
  | [] => false
  | member :: rest =>
      if ObjectID_eqb (cm_UserID member) userID then true
      else HasMember_loop rest userID
  end.

Definition HasMember (c : Circle) (userID : ObjectID) : bool :=
  HasMember_loop (c_Members c) userID.

Fixpoint GetMemberAccessLevel_loop (members : list CircleMember) (userID : ObjectID)
  : AccessLevel * bool :=
  match members with
  | [] => (EmptyString, false)
  | member :: rest =>
      if ObjectID_eqb (cm_UserID member) userID then (cm_AccessLevel member, true)
      else GetMemberAccessLevel_loop rest userID
  end.

Definition GetMemberAccessLevel (c : Circle) (userID : ObjectID) : AccessLevel * bool :=
  if ObjectID_eqb (c_OwnerID c) userID then (AccessLevelAdmin, true)
  else GetMemberAccessLevel_loop (c_Members c) userID.

(* ================================================================ *)
(** * The database and the other processes that use it

    The MongoDB deployment is part of the world.  Its state is the two
    collections the code touches.  The [users] collection carries the
    unique index [email_unique] created by [CreateIndexes]; every
    collection has the unique index on [_id].

    Other server processes share the database.  [w_env] lists what the
    world does just before each of our next driver calls: nothing, a
    user inserted by another process, or a failure of the call.

    A document is kept with the instants it was written with.  The
    database itself keeps a time to the millisecond; that loss is not
    part of this model, and nothing stated further down is about a
    time field read back from the database. *)

Inductive EnvEvent : Type :=
  | Quiet
  | Inserted (u : User)
  | Fault (msg : string).

Record World : Type := mkWorld {
  w_users : list User;
  w_circles : list Circle;
  w_oid_counter : Z;           (* counter behind primitive.NewObjectID *)
  w_env : list EnvEvent
}.

Definition set_users (w : World) (us : list User) : World :=
  mkWorld us (w_circles w) (w_oid_counter w) (w_env w).
Definition set_circles (w : World) (cs : list Circle) : World :=
  mkWorld (w_users w) cs (w_oid_counter w) (w_env w).

(** Big-endian bytes of a counter, as the tail of a fresh id. *)
Fixpoint be_bytes (n : nat) (z : Z) : string :=
  match n with
  | O => EmptyString
  | S n' => be_bytes n' (z / 256) ++ str1 z
  end.

(** [primitive.NewObjectID()]: a fresh id, different from the zero id. *)
Definition NewObjectID (w : World) : ObjectID * World :=
  (be_bytes 12 (w_oid_counter w + 1),
   mkWorld (w_users w) (w_circles w) (w_oid_counter w + 1) (w_env w)).

Definition user_conflicts (us : list User) (doc : User) : option string :=
  if existsb (fun u => ObjectID_eqb (u_ID u) (u_ID doc)) us
  then Some "E11000 duplicate key error collection: users index: _id_"
  else if existsb (fun u => String.eqb (u_Email u) (u_Email doc)) us
  then Some "E11000 duplicate key error collection: users index: email_unique"
  else None.

(** What happens before our next driver call: [Some msg] when the call
    itself fails. *)
Definition env_step (w : World) : option string * World :=
  match w_env w with
  | [] => (None, w)
  | ev :: rest =>
      let w' := mkWorld (w_users w) (w_circles w) (w_oid_counter w) rest in
      match ev with
      | Quiet => (None, w')
      | Inserted u =>
          match user_conflicts (w_users w') u with
          | Some _ => (None, w')
          | None => (None, set_users w' (w_users w' ++ [u]))
          end
      | Fault msg => (Some msg, w')
      end
  end.

(** ** Driver calls on [users] *)

(** [collection.InsertOne(ctx, user)] *)
Definition users_InsertOne (w : World) (doc : User) : option error * World :=
  let '(fault, w1) := env_step w in
  match fault with
  | Some msg => (Some (DriverError false msg), w1)
  | None =>
      match user_conflicts (w_users w1) doc with
      | Some msg => (Some (DriverError true msg), w1)
      | None => (None, set_users w1 (w_users w1 ++ [doc]))
      end
  end.

(** [collection.FindOne(ctx, filter).Decode(&user)] *)
Definition users_FindOne (w : World) (filter : User -> bool) : result User * World :=
  let '(fault, w1) := env_step w in
  match fault with
  | Some msg => (Err (DriverError false msg), w1)
  | None =>
      match find filter (w_users w1) with
      | Some u => (Ok u, w1)
      | None => (Err (Sentinel ErrNoDocuments), w1)
      end
  end.

(** The fields [$set: user] writes: a field tagged [omitempty] is left
    out of the update when it is empty, so the stored value stays. *)
Definition keep_if_empty (new old : string) : string :=
  if is_empty new then old else new.

Definition set_user_fields (old new : User) : User :=
  mkUser (u_ID old) (u_Email new) (u_PasswordHash new) (u_Name new)
    (keep_if_empty (u_AvatarURL new) (u_AvatarURL old))
    (keep_if_empty (u_OAuthProvider new) (u_OAuthProvider old))
    (keep_if_empty (u_OAuthProviderName new) (u_OAuthProviderName old))
    (u_CreatedAt new) (u_UpdatedAt new).

Fixpoint replace_first {A : Type} (p : A -> bool) (f : A -> A) (l : list A) : list A :=
  match l with
  | [] => []
  | x :: r => if p x then f x :: r else x :: replace_first p f r
  end.

(** [collection.UpdateOne(ctx, bson.M{"_id": id}, bson.M{"$set": user})]:
    the error and [MatchedCount]. *)
Definition users_UpdateOne_set (w : World) (id : ObjectID) (doc : User)
  : (option error * Z) * World :=
  let '(fault, w1) := env_step w in
  match fault with
  | Some msg => ((Some (DriverError false msg), 0), w1)
  | None =>
      let is_doc := fun u => ObjectID_eqb (u_ID u) id in
      match find is_doc (w_users w1) with
      | None => ((None, 0), w1)
      | Some old =>
          if existsb (fun u => negb (ObjectID_eqb (u_ID u) id)
                               && String.eqb (u_Email u) (u_Email doc)) (w_users w1)
          then ((Some (DriverError true
                   "E11000 duplicate key error collection: users index: email_unique"), 0), w1)
          else ((None, 1),
                set_users w1 (replace_first is_doc (fun o => set_user_fields o doc) (w_users w1)))
      end
  end.

(* ================================================================ *)
(** * [internal/repository]: the user repository *)

(** The [UserRepository] interface, over the state [DB] an
    implementation keeps.  A method that takes [*models.User] and writes
    through the pointer returns the user as it leaves it. *)
Record UserRepository (DB : Type) : Type := mkUserRepository {
  repo_Create : DB -> Z -> User -> (User * option error) * DB;
  repo_FindByID : DB -> ObjectID -> result User * DB;
  repo_FindByEmail : DB -> string -> result User * DB;
  repo_Update : DB -> Z -> User -> (User * option error) * DB
}.
Arguments repo_Create {DB} _ _ _ _.
Arguments repo_FindByID {DB} _ _ _.
Arguments repo_FindByEmail {DB} _ _ _.
Arguments repo_Update {DB} _ _ _ _.

Definition with_ID (u : User) (id : ObjectID) : User :=
  mkUser id (u_Email u) (u_PasswordHash u) (u_Name u) (u_AvatarURL u)
    (u_OAuthProvider u) (u_OAuthProviderName u) (u_CreatedAt u) (u_UpdatedAt u).

Definition with_times (u : User) (created updated : Z) : User :=
  mkUser (u_ID u) (u_Email u) (u_PasswordHash u) (u_Name u) (u_AvatarURL u)
    (u_OAuthProvider u) (u_OAuthProviderName u) created updated.

Definition with_UpdatedAt (u : User) (updated : Z) : User :=
  with_times u (u_CreatedAt u) updated.

(** The second argument of [Create] and [Update] is what [time.Now()]
    reads during the call; the two readings [Create] makes are taken
    as that one instant. *)
Definition mongoUser_Create (w : World) (now : Z) (user : User)
  : (User * option error) * World :=
  let '(user1, w1) :=
    if IsZero (u_ID user)
    then let '(id, w') := NewObjectID w in (with_ID user id, w')
    else (user, w) in
  let user2 := with_times user1 now now in
  let '(err, w2) := users_InsertOne w1 user2 in
  match err with
  | Some e => ((user2, Some (Wrap "failed to create user: " e)), w2)
  | None => ((user2, None), w2)
  end.

Definition mongoUser_FindBy (w : World) (filter : User -> bool) : result User * World :=
  let '(r, w1) := users_FindOne w filter in
  match r with
  | Err e =>
      if err_is_sentinel e ErrNoDocuments then (Err (Sentinel ErrUserNotFound), w1)
      else (Err (Wrap "failed to find user: " e), w1)
  | Ok u => (Ok u, w1)
  end.

Definition mongoUser_FindByID (w : World) (id : ObjectID) : result User * World :=
  mongoUser_FindBy w (fun u => ObjectID_eqb (u_ID u) id).

Definition mongoUser_FindByEmail (w : World) (email : string) : result User * World :=
  mongoUser_FindBy w (fun u => String.eqb (u_Email u) email).

Definition mongoUser_Update (w : World) (now : Z) (user : User)
  : (User * option error) * World :=
  let user1 := with_UpdatedAt user now in
  let '((err, matched), w1) := users_UpdateOne_set w (u_ID user1) user1 in
  match err with
  | Some e => ((user1, Some (Wrap "failed to update user: " e)), w1)
  | None =>
      if matched =? 0 then ((user1, Some (ErrorString "user not found")), w1)
      else ((user1, None), w1)
  end.

Definition mongoUserRepository : UserRepository World :=
  mkUserRepository World
    mongoUser_Create mongoUser_FindByID mongoUser_FindByEmail mongoUser_Update.

(* ================================================================ *)
(** * [internal/repository]: the circle repository *)

Definition with_Members (c : Circle) (ms : list CircleMember) (updated : Z) : Circle :=
  mkCircle (c_ID c) (c_Name c) (c_OwnerID c) ms (c_CreatedAt c) updated.

Definition with_AccessLevel (m : CircleMember) (lvl : AccessLevel) : CircleMember :=
  mkCircleMember (cm_UserID m) lvl (cm_InvitedAt m) (cm_AcceptedAt m).

(** [collection.FindOne(ctx, bson.M{"_id": id}).Decode(&circle)] *)
Definition circles_FindOne (w : World) (id : ObjectID) : result Circle * World :=
  let '(fault, w1) := env_step w in
  match fault with
  | Some msg => (Err (DriverError false msg), w1)
  | None =>
      match find (fun c => ObjectID_eqb (c_ID c) id) (w_circles w1) with
      | Some c => (Ok c, w1)
      | None => (Err (Sentinel ErrNoDocuments), w1)
      end
  end.

(** [collection.UpdateOne(ctx, filter, update)]: the first document the
    filter selects is rewritten by [update]; the error and
    [MatchedCount]. *)
Definition circles_UpdateOne (w : World) (filter : Circle -> bool) (update : Circle -> Circle)
  : (option error * Z) * World :=
  let '(fault, w1) := env_step w in
  match fault with
  | Some msg => ((Some (DriverError false msg), 0), w1)
  | None =>
      if existsb filter (w_circles w1)
      then ((None, 1), set_circles w1 (replace_first filter update (w_circles w1)))
      else ((None, 0), w1)
  end.

Definition mongoCircle_FindByID (w : World) (id : ObjectID) : result Circle * World :=
  let '(r, w1) := circles_FindOne w id in
  match r with
  | Err e =>
      if err_is_sentinel e ErrNoDocuments then (Err (Wrap "circle not found: " e), w1)
      else (Err (Wrap "failed to find circle: " e), w1)
  | Ok c => (Ok c, w1)
  end.

(** [$push: {members: member}, $set: {updated_at: now}] on the circle
    with this id. *)
Definition AddMember (w : World) (now : Z) (circleID : ObjectID) (member : CircleMember)
  : option error * World :=
  let '((err, matched), w1) :=
    circles_UpdateOne w
      (fun c => ObjectID_eqb (c_ID c) circleID)
      (fun c => with_Members c (c_Members c ++ [member]) now) in
  match err with
  | Some e => (Some (Wrap "failed to add member to circle: " e), w1)
  | None =>
      if matched =? 0 then (Some (ErrorString "circle not found"), w1)
      else (None, w1)
  end.

(** The loop that sets [memberExists]. *)
Fixpoint memberExists (members : list CircleMember) (userID : ObjectID) : bool :=
  match members with
  | [] => false
  | member :: rest =>
      if ObjectID_eqb (cm_UserID member) userID then true
      else memberExists rest userID
  end.

(** [$pull: {members: {user_id: userID}}] takes out every entry of the
    user. *)
Definition RemoveMember (w : World) (now : Z) (circleID userID : ObjectID)
  : option error * World :=
  let '(r, w1) := mongoCircle_FindByID w circleID in
  match r with
  | Err e => (Some e, w1)
  | Ok circle =>
      if negb (memberExists (c_Members circle) userID)
      then (Some (ErrorString "member not found in circle"), w1)
      else
        let '((err, matched), w2) :=
          circles_UpdateOne w1
            (fun c => ObjectID_eqb (c_ID c) circleID)
            (fun c => with_Members c
                        (filter (fun m => negb (ObjectID_eqb (cm_UserID m) userID))
                                (c_Members c)) now) in
        match err with
        | Some e => (Some (Wrap "failed to remove member from circle: " e), w2)
        | None =>
            if matched =? 0 then (Some (ErrorString "circle not found"), w2)
            else (None, w2)
        end
  end.

(** [members.$.access_level] with the filter [members.user_id: userID]
    addresses the first entry of the user. *)
Definition UpdateMemberAccess (w : World) (now : Z) (circleID userID : ObjectID)
    (accessLevel : AccessLevel) : option error * World :=
  let '(r, w1) := mongoCircle_FindByID w circleID in
  match r with
  | Err e => (Some e, w1)
  | Ok circle =>
      if negb (memberExists (c_Members circle) userID)
      then (Some (ErrorString "member not found in circle"), w1)
      else
        let is_user := fun m => ObjectID_eqb (cm_UserID m) userID in
        let '((err, matched), w2) :=
          circles_UpdateOne w1
            (fun c => ObjectID_eqb (c_ID c) circleID && existsb is_user (c_Members c))
            (fun c => with_Members c
                        (replace_first is_user
                           (fun m => with_AccessLevel m accessLevel) (c_Members c)) now) in
        match err with
        | Some e => (Some (Wrap "failed to update member access: " e), w2)
        | None =>
            if matched =? 0 then (Some (ErrorString "circle or member not found"), w2)
            else (None, w2)
        end
  end.

(** The members stored for a circle, [[]] when there is no such circle. *)
Definition members_of (w : World) (circleID : ObjectID) : list CircleMember :=
  match find (fun c => ObjectID_eqb (c_ID c) circleID) (w_circles w) with
  | Some c => c_Members c
  | None => []
  end.

(** How many entries of a member list belong to a user. *)
Definition entries_of (members : list CircleMember) (userID : ObjectID) : nat :=
  List.length (filter (fun m => ObjectID_eqb (cm_UserID m) userID) members).

(* ================================================================ *)
(** * Libraries outside the repository

    [golang.org/x/crypto/bcrypt] and [github.com/golang-jwt/jwt/v5] are
    not part of the repository.  Their control flow is written out as
    their documentation gives it; the hash function, the MAC and the
    JSON and base64url coding are parameters. *)

Record Bcrypt : Type := mkBcrypt {
  (* GenerateFromPassword, given the random salt it draws *)
  bcrypt_generate : string -> string -> Z -> result string;
  (* the comparison made once the stored hash has been parsed *)
  bcrypt_compare : string -> string -> option error
}.

Definition bcrypt_DefaultCost : Z := 10.
Definition bcrypt_minHashSize : Z := 59.

(** [bcrypt.CompareHashAndPassword]: a stored hash shorter than
    [minHashSize] is refused with [ErrHashTooShort] before anything is
    compared. *)
Definition CompareHashAndPassword (B : Bcrypt) (hashedPassword password : string)
  : option error :=
  if len hashedPassword <? bcrypt_minHashSize
  then Some (ErrorString "crypto/bcrypt: hashedSecret too short to be a bcrypted password")
  else bcrypt_compare B hashedPassword password.

Inductive SigningMethod : Type :=
  | HS256 | HS384 | HS512          (* *jwt.SigningMethodHMAC *)
  | OtherMethod (alg : string).    (* RS256, ES256, none, ... *)

Definition is_HMAC (m : SigningMethod) : bool :=
  match m with
  | HS256 | HS384 | HS512 => true
  | OtherMethod _ => false
  end.

(** A value of a [jwt.MapClaims] entry.  [GenerateToken] stores strings
    and an [int64]; JSON decoding yields strings and [float64] numbers.
    [VFloat64 z] is the [float64] that holds the whole number [z]. *)
Inductive ClaimValue : Type :=
  | VString (s : string)
  | VInt64 (z : Z)
  | VFloat64 (z : Z)
  | VOther.

Definition MapClaims : Type := list (string * ClaimValue).

Fixpoint claim (c : MapClaims) (key : string) : option ClaimValue :=
  match c with
  | [] => None
  | (k, v) :: rest => if String.eqb k key then Some v else claim rest key
  end.

(** What a claim set looks like once written as JSON and read back. *)
Definition json_value (v : ClaimValue) : ClaimValue :=
  match v with
  | VInt64 z => VFloat64 z
  | other => other
  end.

Definition json_claims (c : MapClaims) : MapClaims :=
  map (fun kv => (fst kv, json_value (snd kv))) c.

Record ParsedToken : Type := mkParsedToken {
  t_Method : SigningMethod;
  t_Claims : MapClaims;
  t_SigningText : string;    (* the first two segments, joined by a dot *)
  t_Signature : string       (* the decoded third segment *)
}.

Record JwtCodec : Type := mkJwtCodec {
  jwt_hmac : SigningMethod -> string -> string -> string;   (* method, key, text *)
  jwt_encode_header : SigningMethod -> string;
  jwt_encode_claims : MapClaims -> string;
  jwt_encode_segment : string -> string;
  (* Parser.ParseUnverified and the decoding of the signature segment *)
  jwt_parse_unverified : string -> option ParsedToken
}.

(** [token.SignedString(key)] of [jwt.NewWithClaims(method, claims)] *)
Definition SigningString (J : JwtCodec) (m : SigningMethod) (claims : MapClaims) : string :=
  jwt_encode_header J m ++ "." ++ jwt_encode_claims J claims.

Definition SignedString (J : JwtCodec) (m : SigningMethod) (claims : MapClaims) (key : string)
  : result string :=
  if is_HMAC m
  then let text := SigningString J m claims in
       Ok (text ++ "." ++ jwt_encode_segment J (jwt_hmac J m key text))
  else Err (ErrorString "key is of invalid type").

(** [SigningMethodHMAC.Verify] *)
Definition hmac_Verify (J : JwtCodec) (m : SigningMethod) (text signature key : string) : bool :=
  String.eqb (jwt_hmac J m key text) signature.

Definition second : Z := 1000000000.

(** [MapClaims.parseNumericDate]: a claim that is missing gives no
    date, and so does a number equal to 0; any other number is a date
    in whole seconds; a claim of another type is an error. *)
Definition parseNumericDate (claims : MapClaims) (key : string) : result (option Z) :=
  match claim claims key with
  | None => Ok None
  | Some (VFloat64 v) => if v =? 0 then Ok None else Ok (Some v)
  | Some _ => Err (ErrorString "token has invalid claims: invalid type for claim")
  end.

(** [Validator.verifyNotBefore]; the claim is optional. *)
Definition verifyNotBefore (now : Z) (claims : MapClaims) : option error :=
  match parseNumericDate claims "nbf" with
  | Err e => Some e
  | Ok None => None
  | Ok (Some nbf) =>
      if now <? nbf * second
      then Some (ErrorString "token has invalid claims: token is not valid yet")
      else None
  end.

(** The default [Validator]: [exp], when it gives a date, must lie
    strictly after the current instant; [nbf], when it gives a date,
    must not lie after it.  A token whose [exp] gives no date -- the
    claim is missing, or is the number 0 -- does not expire. *)
Definition validate_claims (now : Z) (claims : MapClaims) : option error :=
  match parseNumericDate claims "exp" with
  | Err e => Some e
  | Ok None => verifyNotBefore now claims
  | Ok (Some exp) =>
      if now <? exp * second then verifyNotBefore now claims
      else Some (ErrorString "token has invalid claims: token is expired")
  end.

(** [jwt.Parse(tokenString, keyFunc)]; [now] is what the validator's
    [time.Now()] reads.  A returned token has [Valid] set. *)
Definition jwt_Parse (J : JwtCodec) (now : Z) (tokenString : string)
    (keyFunc : ParsedToken -> result string) : result ParsedToken :=
  match jwt_parse_unverified J tokenString with
  | None => Err (ErrorString "token is malformed")
  | Some token =>
      match keyFunc token with
      | Err e => Err (Wrap "token is unverifiable: error while executing keyfunc: " e)
      | Ok key =>
          if hmac_Verify J (t_Method token) (t_SigningText token) (t_Signature token) key
          then match validate_claims now (t_Claims token) with
               | Some e => Err e
               | None => Ok token
               end
          else Err (ErrorString "token signature is invalid: signature is invalid")
      end
  end.

(* ================================================================ *)
(** * [pkg/auth] *)

(** [HashPassword]; [salt] is the randomness bcrypt draws. *)
Definition HashPassword (B : Bcrypt) (salt password : string) : result string :=
  bcrypt_generate B salt password bcrypt_DefaultCost.

Definition VerifyPassword (B : Bcrypt) (hash password : string) : option error :=
  CompareHashAndPassword B hash password.

Record Claims : Type := mkClaims {
  cl_UserID : string;
  cl_Email : string;
  cl_ExpiresAt : Z
}.

(** [time.Now().Add(duration).Unix()]: whole seconds, rounded down. *)
Definition Unix (t : Z) : Z := t / second.

(** [GenerateToken]; [now] is what [time.Now()] reads. *)
Definition GenerateToken (J : JwtCodec) (now : Z)
    (userID : ObjectID) (email secret : string) (duration : Z) : result string :=
  let expiresAt := Unix (now + duration) in
  let claims : MapClaims :=
    [ ("user_id", VString (Hex userID));
      ("email", VString email);
      ("exp", VInt64 expiresAt) ] in
  match SignedString J HS256 claims secret with
  | Err e => Err e
  | Ok tokenString => Ok tokenString
  end.

(** [ValidateToken]; [now] is what the library's [time.Now()] reads. *)
Definition ValidateToken (J : JwtCodec) (now : Z) (tokenString secret : string)
  : result Claims :=
  if is_empty tokenString then Err (ErrorString "token is empty")
  else
    match jwt_Parse J now tokenString
            (fun token =>
               if negb (is_HMAC (t_Method token))
               then Err (ErrorString "invalid signing method")
               else Ok secret) with
    | Err e => Err e
    | Ok token =>
        match claim (t_Claims token) "user_id" with
        | Some (VString userID) =>
            match claim (t_Claims token) "email" with
            | Some (VString email) =>
                match claim (t_Claims token) "exp" with
                | Some (VFloat64 exp) => Ok (mkClaims userID email exp)
                | _ => Err (ErrorString "invalid exp in claims")
                end
            | _ => Err (ErrorString "invalid email in claims")
            end
        | _ => Err (ErrorString "invalid user_id in claims")
        end
    end.

(* ================================================================ *)
(** * Regular expressions

    [regexp.MatchString] for an expression anchored at both ends, by
    derivatives.  The character classes of [emailRegex] hold ASCII
    bytes only, so matching byte by byte agrees with matching rune by
    rune. *)

Inductive regex : Type :=
  | Rnone                         (* matches no string *)
  | Reps                          (* matches the empty string *)
  | Rclass (p : ascii -> bool)    (* one character of a class *)
  | Rcat (r1 r2 : regex)
  | Ralt (r1 r2 : regex)
  | Rstar (r : regex).

Fixpoint nullable (r : regex) : bool :=
  match r with
  | Rnone => false
  | Reps => true
  | Rclass _ => false
  | Rcat r1 r2 => nullable r1 && nullable r2
  | Ralt r1 r2 => nullable r1 || nullable r2
  | Rstar _ => true
  end.

Fixpoint deriv (c : ascii) (r : regex) : regex :=
  match r with
  | Rnone => Rnone
  | Reps => Rnone
  | Rclass p => if p c then Reps else Rnone
  | Rcat r1 r2 =>
      if nullable r1 then Ralt (Rcat (deriv c r1) r2) (deriv c r2)
      else Rcat (deriv c r1) r2
  | Ralt r1 r2 => Ralt (deriv c r1) (deriv c r2)
  | Rstar r1 => Rcat (deriv c r1) (Rstar r1)
  end.

Fixpoint regex_match (r : regex) (s : string) : bool :=
  match s with
  | EmptyString => nullable r
  | String c rest => regex_match (deriv c r) rest
  end.

Definition Rplus (r : regex) : regex := Rcat r (Rstar r).
Definition Rchar (c : ascii) : regex := Rclass (Ascii.eqb c).

Definition in_range (lo hi : Z) (c : ascii) : bool :=
  (lo <=? Z_of_byte c) && (Z_of_byte c <=? hi).
Definition is_letter (c : ascii) : bool := in_range 97 122 c || in_range 65 90 c.
Definition is_digit (c : ascii) : bool := in_range 48 57 c.
Definition one_of (set : string) (c : ascii) : bool :=
  existsb (Ascii.eqb c) (list_ascii_of_string set).

(* ================================================================ *)
(** * [internal/service/auth]: registration and login *)

Definition minPasswordLength : Z := 8.

(** [^[a-zA-Z0-9._%+\-]+@[a-zA-Z0-9.\-]+\.[a-zA-Z]{2,}$] *)
Definition emailRegex : regex :=
  Rcat (Rplus (Rclass (fun c => is_letter c || is_digit c || one_of "._%+-" c)))
    (Rcat (Rchar "@")
       (Rcat (Rplus (Rclass (fun c => is_letter c || is_digit c || one_of ".-" c)))
          (Rcat (Rchar ".")
             (Rcat (Rclass is_letter) (Rcat (Rclass is_letter) (Rstar (Rclass is_letter))))))).

Definition emailRegex_MatchString (s : string) : bool := regex_match emailRegex s.

Record Service (DB : Type) : Type := mkService {
  userRepo : UserRepository DB;
  jwtSecret : string;
  tokenDuration : Z
}.
Arguments userRepo {DB} _.
Arguments jwtSecret {DB} _.
Arguments tokenDuration {DB} _.

Record AuthResult : Type := mkAuthResult {
  ar_Token : string;
  ar_UserID : string;
  ar_Email : string;
  ar_Name : string
}.

Section CredentialService.
Context {DB : Type}.
Variable B : Bcrypt.
Variable J : JwtCodec.

(** [Register]; [now] is what [time.Now()] reads, [salt] the
    randomness of the password hash. *)
Definition Register (s : Service DB) (now : Z) (salt : string) (db : DB)
    (email password name : string) : result AuthResult * DB :=
  if is_empty email then (Err (Sentinel ErrEmailRequired), db)
  else if is_empty password then (Err (Sentinel ErrPasswordRequired), db)
  else if is_empty name then (Err (Sentinel ErrNameRequired), db)
  else if negb (emailRegex_MatchString email) then (Err (Sentinel ErrInvalidEmail), db)
  else if len password <? minPasswordLength then (Err (Sentinel ErrPasswordTooShort), db)
  else
    let '(found, db1) := repo_FindByEmail (userRepo s) db email in
    match found with
    | Err e =>
        if negb (err_is_sentinel e ErrUserNotFound)
        then (Err (Wrap "failed to check existing user: " e), db1)
        else
          match HashPassword B salt password with
          | Err e => (Err (Wrap "failed to hash password: " e), db1)
          | Ok passwordHash =>
              let user :=
                mkUser NilObjectID email passwordHash name
                  EmptyString EmptyString EmptyString now now in
              let '((user', err), db2) := repo_Create (userRepo s) db1 now user in
              match err with
              | Some e => (Err (Wrap "failed to create user: " e), db2)
              | None =>
                  match GenerateToken J now (u_ID user') email
                          (jwtSecret s) (tokenDuration s) with
                  | Err e => (Err (Wrap "failed to generate token: " e), db2)
                  | Ok token =>
                      (Ok (mkAuthResult token (Hex (u_ID user')) (u_Email user')
                             (u_Name user')), db2)
                  end
              end
          end
    | Ok existingUser => (Err (Sentinel ErrEmailAlreadyExists), db1)
    end.

Definition Login (s : Service DB) (now : Z) (db : DB) (email password : string)
  : result AuthResult * DB :=
  if is_empty email then (Err (Sentinel ErrEmailRequired), db)
  else if is_empty password then (Err (Sentinel ErrPasswordRequired), db)
  else
    let '(found, db1) := repo_FindByEmail (userRepo s) db email in
    match found with
    | Err e =>
        if err_is_sentinel e ErrUserNotFound
        then (Err (Sentinel ErrInvalidCredentials), db1)
        else (Err (Wrap "failed to find user: " e), db1)
    | Ok user =>
        match VerifyPassword B (u_PasswordHash user) password with
        | Some _ => (Err (Sentinel ErrInvalidCredentials), db1)
        | None =>
            match GenerateToken J now (u_ID user) email
                    (jwtSecret s) (tokenDuration s) with
            | Err e => (Err (Wrap "failed to generate token: " e), db1)
            | Ok token =>
                (Ok (mkAuthResult token (Hex (u_ID user)) (u_Email user) (u_Name user)),
                 db1)
            end
        end
    end.
End CredentialService.

(* ================================================================ *)
(** * [internal/service/auth]: OAuth *)

Record OAuthConfig : Type := mkOAuthConfig {
  ClientID : string;
  ClientSecret : string;
  RedirectURL : string;
  TokenURL : string;
  UserInfoURL : string;
  UserEmailsURL : string
}.

Record OAuthService : Type := mkOAuthService { config : OAuthConfig }.

Definition googleAuthURL := "https://accounts.google.com/o/oauth2/v2/auth".
Definition googleTokenURL := "https://oauth2.googleapis.com/token".
Definition googleUserInfoURL := "https://www.googleapis.com/oauth2/v2/userinfo".
Definition githubAuthURL := "https://github.com/login/oauth/authorize".
Definition githubTokenURL := "https://github.com/login/oauth/access_token".
Definition githubUserURL := "https://api.github.com/user".
Definition githubUserEmailURL := "https://api.github.com/user/emails".

Definition default_if_empty (s d : string) : string := if is_empty s then d else s.

Definition NewGoogleOAuthService (c : OAuthConfig) : OAuthService :=
  mkOAuthService
    (mkOAuthConfig (ClientID c) (ClientSecret c) (RedirectURL c)
       (default_if_empty (TokenURL c) googleTokenURL)
       (default_if_empty (UserInfoURL c) googleUserInfoURL)
       (UserEmailsURL c)).

Definition NewGitHubOAuthService (c : OAuthConfig) : OAuthService :=
  mkOAuthService
    (mkOAuthConfig (ClientID c) (ClientSecret c) (RedirectURL c)
       (default_if_empty (TokenURL c) githubTokenURL)
       (default_if_empty (UserInfoURL c) githubUserURL)
       (default_if_empty (UserEmailsURL c) githubUserEmailURL)).

(** [url.Values.Encode]: the pairs in the order of their keys. *)
Fixpoint encode_pairs (kvs : list (string * string)) : string :=
  match kvs with
  | [] => EmptyString
  | [(k, v)] => QueryEscape k ++ "=" ++ QueryEscape v
  | (k, v) :: rest => QueryEscape k ++ "=" ++ QueryEscape v ++ "&" ++ encode_pairs rest
  end.

Definition GetGoogleAuthURL (s : OAuthService) (state : string) : string :=
  googleAuthURL ++ "?" ++
  encode_pairs
    [ ("client_id", ClientID (config s));
      ("redirect_uri", RedirectURL (config s));
      ("response_type", "code");
      ("scope", "email profile");
      ("state", state) ].

Definition GetGitHubAuthURL (s : OAuthService) (state : string) : string :=
  githubAuthURL ++ "?" ++
  encode_pairs
    [ ("client_id", ClientID (config s));
      ("redirect_uri", RedirectURL (config s));
      ("scope", "user:email");
      ("state", state) ].

Record GoogleUserInfo : Type := mkGoogleUserInfo {
  g_ID : string;
  g_Email : string;
  g_Name : string
}.

Record GitHubUserInfo : Type := mkGitHubUserInfo {
  gh_ID : Z;
  gh_Login : string;
  gh_Name : string
}.

Record GitHubEmail : Type := mkGitHubEmail {
  e_Email : string;
  e_Primary : bool;
  e_Verified : bool
}.

(** What an HTTP exchange gives: the request could not be built or
    sent, or a response with its status, its body and what decoding the
    body as JSON into the expected type yields. *)
Inductive HttpResult (A : Type) : Type :=
  | HttpFailed (e : error)
  | HttpResponse (status : Z) (body : string) (decoded : result A).
Arguments HttpFailed {A} e.
Arguments HttpResponse {A} status body decoded.

(** The identity provider, as the service sees it: the answer to a form
    posted to the token endpoint, and the answers to the two requests
    that carry an [Authorization] header. *)
Record Provider (UserInfo : Type) : Type := mkProvider {
  post_token : string -> string -> HttpResult string;   (* url, form; the access_token field *)
  get_user : string -> string -> HttpResult UserInfo;   (* url, Authorization header *)
  get_emails : string -> string -> HttpResult (list GitHubEmail)
}.
Arguments post_token {UserInfo} _ _ _.
Arguments get_user {UserInfo} _ _ _.
Arguments get_emails {UserInfo} _ _ _.

Definition StatusOK : Z := 200.

Definition token_form (c : OAuthConfig) (code : string) (google : bool) : string :=
  encode_pairs
    ([ ("client_id", ClientID c);
       ("client_secret", ClientSecret c);
       ("code", code) ]
     ++ (if google then [("grant_type", "authorization_code")] else [])
     ++ [ ("redirect_uri", RedirectURL c) ]).

Definition exchangeGitHubCodeForToken {U} (P : Provider U) (s : OAuthService) (code : string)
  : result string :=
  match post_token P (TokenURL (config s)) (token_form (config s) code false) with
  | HttpFailed e => Err e
  | HttpResponse status body decoded =>
      if negb (status =? StatusOK)
      then Err (ErrorString ("token exchange failed with status " ++ Itoa status ++ ": " ++ body))
      else match decoded with
           | Err e => Err (Wrap "failed to decode token response: " e)
           | Ok accessToken => Ok accessToken
           end
  end.

Definition getGitHubUserInfo (P : Provider GitHubUserInfo) (s : OAuthService)
    (accessToken : string) : result GitHubUserInfo :=
  match get_user P (UserInfoURL (config s)) ("Bearer " ++ accessToken) with
  | HttpFailed e => Err e
  | HttpResponse status body decoded =>
      if negb (status =? StatusOK)
      then Err (ErrorString ("user info request failed with status " ++ Itoa status ++ ": " ++ body))
      else match decoded with
           | Err e => Err (Wrap "failed to decode user info: " e)
           | Ok userInfo => Ok userInfo
           end
  end.

(** The three passes of [getGitHubUserEmail] over the decoded list. *)
Fixpoint first_primary_verified (emails : list GitHubEmail) : option string :=
  match emails with
  | [] => None
  | email :: rest =>
      if e_Primary email && e_Verified email then Some (e_Email email)
      else first_primary_verified rest
  end.

Fixpoint first_verified (emails : list GitHubEmail) : option string :=
  match emails with
  | [] => None
  | email :: rest =>
      if e_Verified email then Some (e_Email email) else first_verified rest
  end.

Definition select_email (emails : list GitHubEmail) : result string :=
  match first_primary_verified emails with
  | Some e => Ok e
  | None =>
      match first_verified emails with
      | Some e => Ok e
      | None =>
          match emails with
          | first :: _ => Ok (e_Email first)
          | [] => Err (ErrorString "no email found for user")
          end
      end
  end.

Definition getGitHubUserEmail {U} (P : Provider U) (s : OAuthService) (accessToken : string)
  : result string :=
  match get_emails P (UserEmailsURL (config s)) ("Bearer " ++ accessToken) with
  | HttpFailed e => Err e
  | HttpResponse status body decoded =>
      if negb (status =? StatusOK)
      then Err (ErrorString ("emails request failed with status " ++ Itoa status ++ ": " ++ body))
      else match decoded with
           | Err e => Err (Wrap "failed to decode emails: " e)
           | Ok emails => select_email emails
           end
  end.

Definition exchangeCodeForToken {U} (P : Provider U) (s : OAuthService) (code : string)
  : result string :=
  match post_token P (TokenURL (config s)) (token_form (config s) code true) with
  | HttpFailed e => Err e
  | HttpResponse status body decoded =>
      if negb (status =? StatusOK)
      then Err (ErrorString ("token exchange failed with status " ++ Itoa status ++ ": " ++ body))
      else match decoded with
           | Err e => Err (Wrap "failed to decode token response: " e)
           | Ok accessToken => Ok accessToken
           end
  end.

Definition getUserInfo (P : Provider GoogleUserInfo) (s : OAuthService)
    (accessToken : string) : result GoogleUserInfo :=
  match get_user P (UserInfoURL (config s)) ("Bearer " ++ accessToken) with
  | HttpFailed e => Err e
  | HttpResponse status body decoded =>
      if negb (status =? StatusOK)
      then Err (ErrorString ("user info request failed with status " ++ Itoa status ++ ": " ++ body))
      else match decoded with
           | Err e => Err (Wrap "failed to decode user info: " e)
           | Ok userInfo => Ok userInfo
           end
  end.

Definition with_OAuth (u : User) (provider providerName : string) (updated : Z) : User :=
  mkUser (u_ID u) (u_Email u) (u_PasswordHash u) (u_Name u) (u_AvatarURL u)
    provider providerName (u_CreatedAt u) updated.

Section OAuthCallbacks.
Context {DB : Type}.
Variable J : JwtCodec.

(** The last step of both callbacks: the token for the resolved user
    and the result built from it. *)
Definition issue_token (authService : Service DB) (now : Z) (user : User) (db : DB)
  : result AuthResult * DB :=
  match GenerateToken J now (u_ID user) (u_Email user)
          (jwtSecret authService) (tokenDuration authService) with
  | Err e => (Err (Wrap "failed to generate token: " e), db)
  | Ok token =>
      (Ok (mkAuthResult token (Hex (u_ID user)) (u_Email user) (u_Name user)), db)
  end.

Definition HandleGoogleCallback (P : Provider GoogleUserInfo) (s : OAuthService)
    (authService : Service DB) (now : Z) (db : DB) (code : string)
  : result AuthResult * DB :=
  if is_empty code then (Err (Sentinel ErrOAuthCodeRequired), db)
  else
    match exchangeCodeForToken P s code with
    | Err e => (Err (WrapTag ErrOAuthTokenExchange (Error e)), db)
    | Ok accessToken =>
        match getUserInfo P s accessToken with
        | Err e => (Err (WrapTag ErrOAuthUserInfo (Error e)), db)
        | Ok userInfo =>
            let '(found, db1) :=
              repo_FindByEmail (userRepo authService) db (g_Email userInfo) in
            match found with
            | Err e =>
                if negb (err_is_sentinel e ErrUserNotFound)
                then (Err (Wrap "failed to find user: " e), db1)
                else
                  let user :=
                    mkUser NilObjectID (g_Email userInfo) EmptyString (g_Name userInfo)
                      EmptyString (g_ID userInfo) "google" now now in
                  let '((user', err), db2) :=
                    repo_Create (userRepo authService) db1 now user in
                  match err with
                  | Some e => (Err (Wrap "failed to create user: " e), db2)
                  | None => issue_token authService now user' db2
                  end
            | Ok user =>
                if is_empty (u_OAuthProvider user)
                then
                  let user1 := with_OAuth user (g_ID userInfo) "google" now in
                  let '((user', err), db2) :=
                    repo_Update (userRepo authService) db1 now user1 in
                  match err with
                  | Some e => (Err (Wrap "failed to update user: " e), db2)
                  | None => issue_token authService now user' db2
                  end
                else issue_token authService now user db1
            end
        end
    end.

Definition HandleGitHubCallback (P : Provider GitHubUserInfo) (s : OAuthService)
    (authService : Service DB) (now : Z) (db : DB) (code : string)
  : result AuthResult * DB :=
  if is_empty code then (Err (Sentinel ErrOAuthCodeRequired), db)
  else
    match exchangeGitHubCodeForToken P s code with
    | Err e => (Err (WrapTag ErrOAuthTokenExchange (Error e)), db)
    | Ok accessToken =>
        match getGitHubUserInfo P s accessToken with
        | Err e => (Err (WrapTag ErrOAuthUserInfo (Error e)), db)
        | Ok userInfo =>
            match getGitHubUserEmail P s accessToken with
            | Err e => (Err (Wrap "failed to get user email: " e), db)
            | Ok email =>
                let '(found, db1) := repo_FindByEmail (userRepo authService) db email in
                match found with
                | Err e =>
                    if negb (err_is_sentinel e ErrUserNotFound)
                    then (Err (Wrap "failed to find user: " e), db1)
                    else
                      let user :=
                        mkUser NilObjectID email EmptyString (gh_Name userInfo)
                          EmptyString (Itoa (gh_ID userInfo)) "github" now now in
                      let '((user', err), db2) :=
                        repo_Create (userRepo authService) db1 now user in
                      match err with
                      | Some e => (Err (Wrap "failed to create user: " e), db2)
                      | None => issue_token authService now user' db2
                      end
                | Ok user =>
                    if is_empty (u_OAuthProvider user)
                    then
                      let user1 := with_OAuth user (Itoa (gh_ID userInfo)) "github" now in
                      let '((user', err), db2) :=
                        repo_Update (userRepo authService) db1 now user1 in
                      match err with
                      | Some e => (Err (Wrap "failed to update user: " e), db2)
                      | None => issue_token authService now user' db2
                      end
                    else issue_token authService now user db1
                end
            end
        end
    end.
End OAuthCallbacks.

(* ================================================================ *)
(** * [internal/api/handlers]: the authentication handler *)

Record Cookie : Type := mkCookie {
  ck_Name : string;
  ck_Value : string;
  ck_MaxAge : Z;
  ck_Path : string;
  ck_Domain : string;
  ck_Secure : bool;
  ck_HttpOnly : bool
}.

(** What a handler writes: the status, the cookies it sets, the
    [Location] of a redirect and the fields of a JSON body. *)
Record Response : Type := mkResponse {
  rs_Status : Z;
  rs_Cookies : list Cookie;
  rs_Location : string;
  rs_Body : list (string * string)
}.

Record Request : Type := mkRequest {
  rq_Query : list (string * string);
  rq_Cookies : list (string * string)
}.

Record AuthHandler (DB : Type) : Type := mkAuthHandler {
  authService : Service DB;
  googleOAuth : OAuthService;
  githubOAuth : OAuthService;
  h_jwtSecret : string
}.
Arguments authService {DB} _.
Arguments googleOAuth {DB} _.
Arguments githubOAuth {DB} _.

Definition StatusCreated : Z := 201.
Definition StatusTemporaryRedirect : Z := 307.
Definition StatusBadRequest : Z := 400.
Definition StatusUnauthorized : Z := 401.
Definition StatusConflict : Z := 409.
Definition StatusInternalServerError : Z := 500.

(** [gin.Context.SetCookie]: the value is query-escaped, an empty path
    becomes [/]. *)
Definition SetCookie (name value : string) (maxAge : Z) (path domain : string)
    (secure httpOnly : bool) : Cookie :=
  mkCookie name (QueryEscape value) maxAge
    (if is_empty path then "/" else path) domain secure httpOnly.

Definition generateRandomState : string :=
  "random-state-" ++ string_of_rune 123456789.

Definition GoogleAuth {DB} (h : AuthHandler DB) (c : Request) : Response :=
  let state := generateRandomState in
  let cookie := SetCookie "oauth_state" state 300 "/" EmptyString false true in
  let authURL := GetGoogleAuthURL (googleOAuth h) state in
  mkResponse StatusTemporaryRedirect [cookie] authURL [].

Definition GitHubAuth {DB} (h : AuthHandler DB) (c : Request) : Response :=
  let state := generateRandomState in
  let cookie := SetCookie "oauth_state" state 300 "/" EmptyString false true in
  let authURL := GetGitHubAuthURL (githubOAuth h) state in
  mkResponse StatusTemporaryRedirect [cookie] authURL [].

Definition auth_body (r : AuthResult) : list (string * string) :=
  [ ("token", ar_Token r); ("userId", ar_UserID r);
    ("email", ar_Email r); ("name", ar_Name r) ].

Definition error_body (msg : string) : list (string * string) := [ ("error", msg) ].

(** What the [Register] handler answers for the outcome of the service
    call. *)
Definition Register_response (r : result AuthResult) : Response :=
  match r with
  | Err err =>
      if errors_Is err ErrEmailAlreadyExists
      then mkResponse StatusConflict [] EmptyString (error_body (Error err))
      else if errors_Is err ErrInvalidEmail || errors_Is err ErrPasswordTooShort
              || errors_Is err ErrEmailRequired || errors_Is err ErrPasswordRequired
              || errors_Is err ErrNameRequired
      then mkResponse StatusBadRequest [] EmptyString (error_body (Error err))
      else mkResponse StatusInternalServerError [] EmptyString
             (error_body "failed to register user")
  | Ok res => mkResponse StatusCreated [] EmptyString (auth_body res)
  end.

(** What the [Login] handler answers for the outcome of the service
    call. *)
Definition Login_response (r : result AuthResult) : Response :=
  match r with
  | Err err =>
      if errors_Is err ErrInvalidCredentials
      then mkResponse StatusUnauthorized [] EmptyString (error_body (Error err))
      else if errors_Is err ErrEmailRequired || errors_Is err ErrPasswordRequired
      then mkResponse StatusBadRequest [] EmptyString (error_body (Error err))
      else mkResponse StatusInternalServerError [] EmptyString
             (error_body "failed to login")
  | Ok res => mkResponse StatusOK [] EmptyString (auth_body res)
  end.

(* ================================================================ *)
(** * Stand-ins for the libraries, to run the code on examples

    A codec with the shape of the compact JWT serialization (three
    dot-separated segments; hexadecimal where JWT has base64url, a flat
    [key=value;] text where it has JSON), a keyed tag in place of
    HMAC, and a password hash that keeps the password.  They give the
    parameters of the library models concrete values; nothing proved
    for every codec or hash depends on them. *)

Definition alg_name (m : SigningMethod) : string :=
  match m with
  | HS256 => "HS256"
  | HS384 => "HS384"
  | HS512 => "HS512"
  | OtherMethod a => a
  end.

Definition alg_of_name (s : string) : SigningMethod :=
  if String.eqb s "HS256" then HS256
  else if String.eqb s "HS384" then HS384
  else if String.eqb s "HS512" then HS512
  else OtherMethod s.

Definition hex_value (c : ascii) : option Z :=
  let z := Z_of_byte c in
  if (48 <=? z) && (z <=? 57) then Some (z - 48)
  else if (97 <=? z) && (z <=? 102) then Some (z - 87)
  else None.

Fixpoint unhex (s : string) : option string :=
  match s with
  | EmptyString => Some EmptyString
  | String a (String b r) =>
      match hex_value a, hex_value b, unhex r with
      | Some x, Some y, Some t => Some (String (byte_of_Z (16 * x + y)) t)
      | _, _, _ => None
      end
  | String _ EmptyString => None
  end.

Fixpoint split_on (sep : ascii) (s : string) : list string :=
  match s with
  | EmptyString => [EmptyString]
  | String c r =>
      let parts := split_on sep r in
      if Ascii.eqb c sep then EmptyString :: parts
      else match parts with
           | h :: t => String c h :: t
           | [] => [String c EmptyString]
           end
  end.

Fixpoint digits_value (s : string) (acc : Z) : option Z :=
  match s with
  | EmptyString => Some acc
  | String c r =>
      let z := Z_of_byte c in
      if (48 <=? z) && (z <=? 57) then digits_value r (10 * acc + (z - 48)) else None
  end.

Definition Atoi (s : string) : option Z :=
  match s with
  | EmptyString => None
  | String c r =>
      if Ascii.eqb c "-" then
        match r with
        | EmptyString => None
        | _ => option_map Z.opp (digits_value r 0)
        end
      else digits_value s 0
  end.

Definition ref_encode_value (v : ClaimValue) : string :=
  match v with
  | VString s => "s" ++ hex_string false s
  | VInt64 z => "n" ++ Itoa z
  | VFloat64 z => "n" ++ Itoa z
  | VOther => "o"
  end.

Definition ref_decode_value (s : string) : option ClaimValue :=
  match s with
  | String t r =>
      if Ascii.eqb t "s" then option_map VString (unhex r)
      else if Ascii.eqb t "n" then option_map VFloat64 (Atoi r)
      else if Ascii.eqb t "o" then Some VOther
      else None
  | EmptyString => None
  end.

Fixpoint ref_flat_claims (c : MapClaims) : string :=
  match c with
  | [] => EmptyString
  | (k, v) :: rest => k ++ "=" ++ ref_encode_value v ++ ";" ++ ref_flat_claims rest
  end.

Definition ref_encode_claims (c : MapClaims) : string :=
  hex_string false (ref_flat_claims c).

Fixpoint ref_decode_entries (entries : list string) : option MapClaims :=
  match entries with
  | [] => Some []
  | [EmptyString] => Some []
  | e :: rest =>
      match split_on "=" e with
      | [k; v] =>
          match ref_decode_value v, ref_decode_entries rest with
          | Some v', Some c => Some ((k, v') :: c)
          | _, _ => None
          end
      | _ => None
      end
  end.

Definition ref_decode_claims (s : string) : option MapClaims :=
  match unhex s with
  | Some flat => ref_decode_entries (split_on ";" flat)
  | None => None
  end.

Definition ref_parse_unverified (tokenString : string) : option ParsedToken :=
  match split_on "." tokenString with
  | [h; p; sg] =>
      match ref_decode_claims p, unhex sg with
      | Some c, Some signature =>
          Some (mkParsedToken (alg_of_name h) c (h ++ "." ++ p) signature)
      | _, _ => None
      end
  | _ => None
  end.

Definition ref_hmac (m : SigningMethod) (key text : string) : string :=
  alg_name m ++ "/" ++ key ++ "/" ++ text.

Definition refCodec : JwtCodec :=
  mkJwtCodec ref_hmac alg_name ref_encode_claims (hex_string false) ref_parse_unverified.

Definition ref_hash_prefix : string :=
  "$2a$10$0123456789012345678901................................".

Definition refBcrypt : Bcrypt :=
  mkBcrypt
    (fun salt password cost => Ok (ref_hash_prefix ++ password))
    (fun hash password =>
       if String.eqb hash (ref_hash_prefix ++ password) then None
       else Some (ErrorString
                    "crypto/bcrypt: hashedPassword is not the hash of the given password")).

(** ** Example data *)

Definition emptyWorld : World := mkWorld [] [] 0 [].

Definition mongoService : Service World :=
  mkService World mongoUserRepository "test-secret" (3600 * second).

Definition oid (n : Z) : ObjectID := be_bytes 12 n.

Definition alice : User :=
  mkUser (oid 1) "a@b.com" (ref_hash_prefix ++ "password1") "A"
    EmptyString EmptyString EmptyString 0 0.

Definition aliceWorld : World := mkWorld [alice] [] 1 [].

Definition viewer : CircleMember := mkCircleMember (oid 7) AccessLevelView 0 None.

Definition friends : Circle := mkCircle (oid 5) "Friends" (oid 6) [viewer] 0 0.

Definition friendsWorld : World := mkWorld [] [friends] 7 [].

(** ** Providers and accounts of the scenarios *)

(** A provider whose emails endpoint answers with the list of the
    scenario. *)
Definition scenarioProvider : Provider GitHubUserInfo :=
  mkProvider GitHubUserInfo
    (fun _ _ => HttpResponse StatusOK "{}" (Ok "gho_token"))
    (fun _ _ => HttpResponse StatusOK "{}" (Ok (mkGitHubUserInfo 42 "x" "X")))
    (fun _ _ => HttpResponse StatusOK "[]" (Ok [mkGitHubEmail "x@y.com" false true])).

Definition scenarioOAuth : OAuthService :=
  NewGitHubOAuthService
    (mkOAuthConfig "client" "secret" "http://localhost/callback"
       EmptyString EmptyString EmptyString).

(** A world in which another process registers [a@b.com] between our
    lookup and our insert. *)
Definition bob : User :=
  mkUser (oid 99) "a@b.com" (ref_hash_prefix ++ "password1") "A"
    EmptyString EmptyString EmptyString 0 0.

Definition raceWorld : World := mkWorld [] [] 0 [Quiet; Inserted bob].

(** A Google account that releases no email address. *)
Definition namelessGoogle : Provider GoogleUserInfo :=
  mkProvider GoogleUserInfo
    (fun _ _ => HttpResponse StatusOK "{}" (Ok "ya29.token"))
    (fun _ _ => HttpResponse StatusOK "{}" (Ok (mkGoogleUserInfo "g-1" EmptyString "N")))
    (fun _ _ => HttpFailed (ErrorString "unused")).

Definition googleOAuthService : OAuthService :=
  NewGoogleOAuthService
    (mkOAuthConfig "client" "secret" "http://localhost/callback"
       EmptyString EmptyString EmptyString).

Definition nameless : User :=
  mkUser (oid 1) EmptyString EmptyString "N" EmptyString "g-1" "google" 0 0.

Definition octocat : User :=
  mkUser (oid 1) "x@y.com" EmptyString "X" EmptyString "42" "github" 0 0.

(** A user linked to Google, and a user registered with a password,
    both under the email the GitHub scenario resolves to. *)
Definition gina : User :=
  mkUser (oid 3) "x@y.com" EmptyString "G" EmptyString "g-77" "google" 0 0.

Definition xavier : User :=
  mkUser (oid 4) "x@y.com" (ref_hash_prefix ++ "password1") "X"
    EmptyString EmptyString EmptyString 0 0.

(* ================================================================ *)
(** * Notions the properties are stated with *)

(** A user id appears at most once in a member list. *)
Definition unique_members (members : list CircleMember) : Prop :=
  NoDup (map cm_UserID members).

Definition circles_unique (w : World) : Prop :=
  forall c, In c (w_circles w) -> unique_members (c_Members c).

(** The claims [GenerateToken] signs, the text it signs and the token
    it returns. *)
Definition token_claims (now : Z) (userID : ObjectID) (email : string) (duration : Z)
  : MapClaims :=
  [ ("user_id", VString (Hex userID));
    ("email", VString email);
    ("exp", VInt64 (Unix (now + duration))) ].

Definition token_text (J : JwtCodec) (now : Z) (userID : ObjectID) (email : string)
    (duration : Z) : string :=
  SigningString J HS256 (token_claims now userID email duration).

Definition token_of (J : JwtCodec) (now : Z) (userID : ObjectID) (email secret : string)
    (duration : Z) : string :=
  token_text J now userID email duration ++ "." ++
  jwt_encode_segment J (jwt_hmac J HS256 secret (token_text J now userID email duration)).

(** The codec reads back what it wrote for this token: the method, the
    claims as JSON returns them, the signed text and the signature. *)
Definition reads_back (J : JwtCodec) (now : Z) (userID : ObjectID) (email secret : string)
    (duration : Z) : Prop :=
  jwt_parse_unverified J (token_of J now userID email secret duration)
  = Some (mkParsedToken HS256
            (json_claims (token_claims now userID email duration))
            (token_text J now userID email duration)
            (jwt_hmac J HS256 secret (token_text J now userID email duration))).

(* ================================================================ *)
(** * More of the code: middleware, callback handlers, repositories *)

(** ** [internal/middleware]: [AuthMiddleware] *)

(** What a middleware does with a request: answer and abort, or set
    keys in the context and hand on to the next handler. *)
Inductive MiddlewareOutcome : Type :=
  | Aborted (resp : Response)
  | Next (context : list (string * string)).

Definition unauthorized (msg : string) : MiddlewareOutcome :=
  Aborted (mkResponse StatusUnauthorized [] EmptyString (error_body msg)).

(** [AuthMiddleware(jwtSecret)] applied to a request whose
    [Authorization] header is [authHeader] (empty when the header is
    missing); [strings.Split(authHeader, " ")] is [split_on " "]. *)
Definition AuthMiddleware (J : JwtCodec) (jwtSecret : string) (now : Z) (authHeader : string)
  : MiddlewareOutcome :=
  if is_empty authHeader then unauthorized "authorization header required"
  else
    let parts := split_on " " authHeader in
    if negb (Nat.eqb (List.length parts) 2)
       || negb (String.eqb (nth 0 parts EmptyString) "Bearer")
    then unauthorized "invalid authorization header format"
    else
      let token := nth 1 parts EmptyString in
      match ValidateToken J now token jwtSecret with
      | Err _ => unauthorized "invalid token"
      | Ok claims =>
          Next [ ("userID", cl_UserID claims); ("email", cl_Email claims) ]
      end.

(** ** [net/url]: [QueryUnescape] *)

Definition unhex_digit (c : ascii) : option Z :=
  let z := Z_of_byte c in
  if (48 <=? z) && (z <=? 57) then Some (z - 48)
  else if (97 <=? z) && (z <=? 102) then Some (z - 87)
  else if (65 <=? z) && (z <=? 70) then Some (z - 55)
  else None.

(** [+] is a space, [%XX] the byte with that code; a [%] that is not
    followed by two hexadecimal digits is an error. *)
Fixpoint QueryUnescape (s : string) : option string :=
  match s with
  | EmptyString => Some EmptyString
  | String c r =>
      if Ascii.eqb c "%" then
        match r with
        | String a (String b r') =>
            match unhex_digit a, unhex_digit b, QueryUnescape r' with
            | Some x, Some y, Some t => Some (String (byte_of_Z (16 * x + y)) t)
            | _, _, _ => None
            end
        | _ => None
        end
      else
        match QueryUnescape r with
        | Some t => Some (String (if Ascii.eqb c "+" then " "%char else c) t)
        | None => None
        end
  end.

(** ** [internal/api/handlers]: the OAuth callbacks *)

Fixpoint assoc (key : string) (kvs : list (string * string)) : option string :=
  match kvs with
  | [] => None
  | (k, v) :: rest => if String.eqb k key then Some v else assoc key rest
  end.

(** [c.Query(key)]: the first value of the key, empty when missing. *)
Definition Query (c : Request) (key : string) : string :=
  match assoc key (rq_Query c) with
  | Some v => v
  | None => EmptyString
  end.

(** [c.Cookie(name)]: an error when the request has no such cookie;
    otherwise the unescaped value, empty when it does not unescape. *)
Definition Context_Cookie (c : Request) (name : string) : result string :=
  match assoc name (rq_Cookies c) with
  | None => Err (ErrorString "http: named cookie not present")
  | Some raw =>
      match QueryUnescape raw with
      | Some v => Ok v
      | None => Ok EmptyString
      end
  end.

Definition bad_request (msg : string) : Response :=
  mkResponse StatusBadRequest [] EmptyString (error_body msg).

Definition server_error (msg : string) : Response :=
  mkResponse StatusInternalServerError [] EmptyString (error_body msg).

Definition GoogleCallback {DB} (J : JwtCodec) (P : Provider GoogleUserInfo)
    (h : AuthHandler DB) (now : Z) (db : DB) (c : Request) : Response * DB :=
  let state := Query c "state" in
  match Context_Cookie c "oauth_state" with
  | Err _ => (bad_request "invalid state parameter", db)
  | Ok savedState =>
      if negb (String.eqb state savedState)
      then (bad_request "invalid state parameter", db)
      else
        let code := Query c "code" in
        if is_empty code then (bad_request "authorization code is required", db)
        else
          let '(result, db') :=
            HandleGoogleCallback J P (googleOAuth h) (authService h) now db code in
          match result with
          | Err _ => (server_error "failed to authenticate with Google", db')
          | Ok res => (mkResponse StatusOK [] EmptyString (auth_body res), db')
          end
  end.

Definition GitHubCallback {DB} (J : JwtCodec) (P : Provider GitHubUserInfo)
    (h : AuthHandler DB) (now : Z) (db : DB) (c : Request) : Response * DB :=
  let state := Query c "state" in
  match Context_Cookie c "oauth_state" with
  | Err _ => (bad_request "invalid state parameter", db)
  | Ok savedState =>
      if negb (String.eqb state savedState)
      then (bad_request "invalid state parameter", db)
      else
        let code := Query c "code" in
        if is_empty code then (bad_request "authorization code is required", db)
        else
          let '(result, db') :=
            HandleGitHubCallback J P (githubOAuth h) (authService h) now db code in
          match result with
          | Err _ => (server_error "failed to authenticate with GitHub", db')
          | Ok res => (mkResponse StatusOK [] EmptyString (auth_body res), db')
          end
  end.

(** ** [internal/repository]: the rest of the user repository *)

(** [collection.DeleteOne(ctx, filter)]: the error and [DeletedCount];
    the first document the filter selects goes. *)
Fixpoint remove_first {A : Type} (p : A -> bool) (l : list A) : list A :=
  match l with
  | [] => []
  | x :: r => if p x then r else x :: remove_first p r
  end.

Definition users_DeleteOne (w : World) (filter : User -> bool) : (option error * Z) * World :=
  let '(fault, w1) := env_step w in
  match fault with
  | Some msg => ((Some (DriverError false msg), 0), w1)
  | None =>
      if existsb filter (w_users w1)
      then ((None, 1), set_users w1 (remove_first filter (w_users w1)))
      else ((None, 0), w1)
  end.

Definition mongoUser_Delete (w : World) (id : ObjectID) : option error * World :=
  let '((err, deleted), w1) := users_DeleteOne w (fun u => ObjectID_eqb (u_ID u) id) in
  match err with
  | Some e => (Some (Wrap "failed to delete user: " e), w1)
  | None =>
      if deleted =? 0 then (Some (ErrorString "user not found"), w1)
      else (None, w1)
  end.

(** ** [internal/repository]: the rest of the circle repository *)

Definition with_Circle_ID (c : Circle) (id : ObjectID) : Circle :=
  mkCircle id (c_Name c) (c_OwnerID c) (c_Members c) (c_CreatedAt c) (c_UpdatedAt c).

Definition with_Circle_times (c : Circle) (created updated : Z) : Circle :=
  mkCircle (c_ID c) (c_Name c) (c_OwnerID c) (c_Members c) created updated.

(** [collection.InsertOne(ctx, circle)]; the collection has the unique
    index on [_id] only. *)
Definition circles_InsertOne (w : World) (doc : Circle) : option error * World :=
  let '(fault, w1) := env_step w in
  match fault with
  | Some msg => (Some (DriverError false msg), w1)
  | None =>
      if existsb (fun c => ObjectID_eqb (c_ID c) (c_ID doc)) (w_circles w1)
      then (Some (DriverError true
                    "E11000 duplicate key error collection: circles index: _id_"), w1)
      else (None, set_circles w1 (w_circles w1 ++ [doc]))
  end.

(** [Create]; a nil member slice and an empty one are both [[]]. *)
Definition mongoCircle_Create (w : World) (now : Z) (circle : Circle)
  : (Circle * option error) * World :=
  let '(circle1, w1) :=
    if IsZero (c_ID circle)
    then let '(id, w') := NewObjectID w in (with_Circle_ID circle id, w')
    else (circle, w) in
  let circle2 := with_Circle_times circle1 now now in
  let '(err, w2) := circles_InsertOne w1 circle2 in
  match err with
  | Some e => ((circle2, Some (Wrap "failed to create circle: " e)), w2)
  | None => ((circle2, None), w2)
  end.

(** The filter
    [{"$or": [{"owner_id": userID}, {"members.user_id": userID}]}]. *)
Definition owner_or_member (userID : ObjectID) (c : Circle) : bool :=
  ObjectID_eqb (c_OwnerID c) userID
  || existsb (fun m => ObjectID_eqb (cm_UserID m) userID) (c_Members c).

(** [FindByUserID]: [collection.Find] answers with the documents the
    filter selects; the query names no sort, so the server returns
    them in an order of its choosing, [cursor_order].  [cursor.All]
    decodes them and can fail on its own. *)
Definition mongoCircle_FindByUserID (cursor_order : list Circle -> list Circle)
    (w : World) (userID : ObjectID) : result (list Circle) * World :=
  let '(fault, w1) := env_step w in
  match fault with
  | Some msg => (Err (Wrap "failed to find circles by user: " (DriverError false msg)), w1)
  | None =>
      let found := cursor_order (filter (owner_or_member userID) (w_circles w1)) in
      let '(fault2, w2) := env_step w1 in
      match fault2 with
      | Some msg => (Err (Wrap "failed to decode circles: " (DriverError false msg)), w2)
      | None => (Ok found, w2)
      end
  end.

(** [Update]: [collection.ReplaceOne] by [_id].  A member list is a
    [list] here, which does not tell a nil slice from an empty one;
    [Update] writes the first as null and the second as an array. *)
Definition mongoCircle_Update (w : World) (now : Z) (circle : Circle)
  : (Circle * option error) * World :=
  let circle1 := with_Circle_times circle (c_CreatedAt circle) now in
  let '((err, matched), w1) :=
    circles_UpdateOne w (fun c => ObjectID_eqb (c_ID c) (c_ID circle1)) (fun _ => circle1) in
  match err with
  | Some e => ((circle1, Some (Wrap "failed to update circle: " e)), w1)
  | None =>
      if matched =? 0 then ((circle1, Some (ErrorString "circle not found")), w1)
      else ((circle1, None), w1)
  end.

Definition mongoCircle_Delete (w : World) (id : ObjectID) : option error * World :=
  let '(fault, w1) := env_step w in
  match fault with
  | Some msg => (Some (Wrap "failed to delete circle: " (DriverError false msg)), w1)
  | None =>
      let is_doc := fun c => ObjectID_eqb (c_ID c) id in
      if existsb is_doc (w_circles w1)
      then (None, set_circles w1 (remove_first is_doc (w_circles w1)))
      else (Some (ErrorString "circle not found"), w1)
  end.

(** The circle stored under an id. *)
Definition circle_of (w : World) (circleID : ObjectID) : option Circle :=
  find (fun c => ObjectID_eqb (c_ID c) circleID) (w_circles w).

(** A request as the browser sends it back after [GoogleAuth] or
    [GitHubAuth] set the cookie. *)
Definition returning (state code : string) : Request :=
  mkRequest [ ("state", state); ("code", code) ]
            [ ("oauth_state", ck_Value (SetCookie "oauth_state" generateRandomState 300 "/"
                                          EmptyString false true)) ].

(** A circle and two users not yet stored. *)
Definition family : Circle := mkCircle NilObjectID "Family" (oid 9) [] 0 0.

Definition carol : User :=
  mkUser NilObjectID "c@d.com" EmptyString "C" EmptyString "7" "github" 0 0.

(** What a caller passes to [Update] to change the email of the user
    with id [oid 3]. *)
Definition renamed : User :=
  mkUser (oid 3) "new@y.com" EmptyString "G2" EmptyString EmptyString EmptyString 0 0.

Definition ginaWorld : World := mkWorld [gina] [] 4 [].

Definition scenarioHandler : AuthHandler World :=
  mkAuthHandler World mongoService googleOAuthService scenarioOAuth "test-secret".

(** ** Regular expressions: what it is to match *)

Inductive matches : regex -> list ascii -> Prop :=
  | M_eps : matches Reps []
  | M_class p c : p c = true -> matches (Rclass p) [c]
  | M_cat r1 r2 l1 l2 : matches r1 l1 -> matches r2 l2 -> matches (Rcat r1 r2) (l1 ++ l2)
  | M_alt_l r1 r2 l : matches r1 l -> matches (Ralt r1 r2) l
  | M_alt_r r1 r2 l : matches r2 l -> matches (Ralt r1 r2) l
  | M_star_nil r : matches (Rstar r) []
  | M_star_app r l1 l2 :
      matches r l1 -> matches (Rstar r) l2 -> matches (Rstar r) (l1 ++ l2).

(** The three character classes of [emailRegex]. *)
Definition local_char (c : ascii) : bool := is_letter c || is_digit c || one_of "._%+-" c.
Definition domain_char (c : ascii) : bool := is_letter c || is_digit c || one_of ".-" c.

Definition all_chars (p : ascii -> bool) (s : string) : bool :=
  forallb p (list_ascii_of_string s).

(** ** Strings without a given byte *)

Fixpoint contains_char (c : ascii) (s : string) : bool :=
  match s with
  | EmptyString => false
  | String x r => Ascii.eqb x c || contains_char c r
  end.

(** ** Records up to their time fields

    The database keeps a time to the millisecond, and one call can read
    the clock more than once; what is said below about a record that
    was written and read again leaves its time fields out. *)
Definition same_user (a b : User) : Prop :=
  u_ID a = u_ID b /\ u_Email a = u_Email b /\ u_PasswordHash a = u_PasswordHash b
  /\ u_Name a = u_Name b /\ u_AvatarURL a = u_AvatarURL b
  /\ u_OAuthProvider a = u_OAuthProvider b
  /\ u_OAuthProviderName a = u_OAuthProviderName b.

Definition member_entry (m : CircleMember) : ObjectID * AccessLevel :=
  (cm_UserID m, cm_AccessLevel m).

Definition same_circle (a b : Circle) : Prop :=
  c_ID a = c_ID b /\ c_Name a = c_Name b /\ c_OwnerID a = c_OwnerID b
  /\ map member_entry (c_Members a) = map member_entry (c_Members b).

(** ** The invariant of the [users] collection *)

(** No two stored users share an id or an email. *)
Definition users_unique (w : World) : Prop :=
  NoDup (map u_ID (w_users w)) /\ NoDup (map u_Email (w_users w)).

(* ================================================================ *)
(** * Facts used throughout *)

Lemma ObjectID_eqb_eq (a b : ObjectID) : ObjectID_eqb a b = true <-> a = b.
Proof. apply String.eqb_eq. Qed.

Lemma ObjectID_eqb_neq (a b : ObjectID) : ObjectID_eqb a b = false <-> a <> b.
Proof. apply String.eqb_neq. Qed.

Lemma ObjectID_eqb_refl (a : ObjectID) : ObjectID_eqb a a = true.
Proof. apply String.eqb_refl. Qed.

Lemma is_empty_true (s : string) : is_empty s = true <-> s = EmptyString.
Proof. destruct s; simpl; split; congruence. Qed.

Lemma is_empty_false (s : string) : is_empty s = false <-> s <> EmptyString.
Proof. destruct s; simpl; split; congruence. Qed.

Lemma sentinel_eqb_eq (a b : sentinel) : sentinel_eqb a b = true <-> a = b.
Proof. destruct a, b; simpl; split; congruence. Qed.

Lemma err_is_sentinel_true (e : error) (s : sentinel) :
  err_is_sentinel e s = true <-> e = Sentinel s.
Proof.
  destruct e; simpl; try (split; congruence).
  rewrite sentinel_eqb_eq. split; congruence.
Qed.

(* ================================================================ *)
(** * Circle access resolution *)

Lemma GetMemberAccessLevel_loop_first (pre post : list CircleMember) (m : CircleMember)
    (userID : ObjectID) :
  cm_UserID m = userID ->
  (forall x, In x pre -> cm_UserID x <> userID) ->
  GetMemberAccessLevel_loop (pre ++ m :: post) userID = (cm_AccessLevel m, true).
Proof.
  intros Hm Hpre. induction pre as [|x pre IH]; simpl.
  - rewrite (proj2 (ObjectID_eqb_eq _ _) Hm). reflexivity.
  - rewrite (proj2 (ObjectID_eqb_neq _ _) (Hpre x (or_introl eq_refl))).
    apply IH. intros y Hy. apply Hpre. right. exact Hy.
Qed.

Lemma GetMemberAccessLevel_loop_absent (members : list CircleMember) (userID : ObjectID) :
  (forall x, In x members -> cm_UserID x <> userID) ->
  GetMemberAccessLevel_loop members userID = (EmptyString, false).
Proof.
  induction members as [|x members IH]; simpl; intros H; [reflexivity|].
  rewrite (proj2 (ObjectID_eqb_neq _ _) (H x (or_introl eq_refl))).
  apply IH. intros y Hy. apply H. right. exact Hy.
Qed.

Lemma GetMemberAccessLevel_loop_present (members : list CircleMember) (userID : ObjectID) :
  (exists m, In m members /\ cm_UserID m = userID) ->
  exists m', In m' members /\ cm_UserID m' = userID
             /\ GetMemberAccessLevel_loop members userID = (cm_AccessLevel m', true).
Proof.
  induction members as [|x members IH]; intros [m [Hin Hm]]; [destruct Hin|].
  simpl. destruct (ObjectID_eqb (cm_UserID x) userID) eqn:E.
  - exists x. apply ObjectID_eqb_eq in E. simpl. auto.
  - destruct Hin as [->|Hin].
    + apply ObjectID_eqb_neq in E. contradiction.
    + destruct IH as [m' [Hin' [Hm' Hr]]]; [exists m; auto|].
      exists m'. simpl. auto.
Qed.

(** C3. For every circle and user id: the owner resolves to [admin]
    whatever the member list holds; another user resolves to the stored
    level of the (first) member entry with that id when there is one,
    and to the no-access outcome (empty level, [false]) when there is
    none. *)
Theorem C3_access_resolution (c : Circle) (userID : ObjectID) :
  (c_OwnerID c = userID ->
     GetMemberAccessLevel c userID = (AccessLevelAdmin, true))
  /\ (c_OwnerID c <> userID ->
      forall pre m post,
        c_Members c = (pre ++ m :: post)%list ->
        cm_UserID m = userID ->
        (forall x, In x pre -> cm_UserID x <> userID) ->
        GetMemberAccessLevel c userID = (cm_AccessLevel m, true))
  /\ (c_OwnerID c <> userID ->
      (exists m, In m (c_Members c) /\ cm_UserID m = userID) ->
      exists m', In m' (c_Members c) /\ cm_UserID m' = userID
                 /\ GetMemberAccessLevel c userID = (cm_AccessLevel m', true))
  /\ (c_OwnerID c <> userID ->
      (forall x, In x (c_Members c) -> cm_UserID x <> userID) ->
      GetMemberAccessLevel c userID = (EmptyString, false)).
Proof.
  unfold GetMemberAccessLevel. repeat split.
  - intros H. rewrite (proj2 (ObjectID_eqb_eq _ _) H). reflexivity.
  - intros H pre m post Hc Hm Hpre.
    rewrite (proj2 (ObjectID_eqb_neq _ _) H), Hc.
    apply GetMemberAccessLevel_loop_first; assumption.
  - intros H Hex. rewrite (proj2 (ObjectID_eqb_neq _ _) H).
    apply GetMemberAccessLevel_loop_present. exact Hex.
  - intros H Habs. rewrite (proj2 (ObjectID_eqb_neq _ _) H).
    apply GetMemberAccessLevel_loop_absent. exact Habs.
Qed.

(** The scenario of the specification: owner, a member at [view], a
    stranger. *)
Lemma C3_access_resolution_witness :
  GetMemberAccessLevel friends (oid 6) = (AccessLevelAdmin, true)
  /\ GetMemberAccessLevel friends (oid 7) = (AccessLevelView, true)
  /\ GetMemberAccessLevel friends (oid 8) = (EmptyString, false).
Proof.
  split; [|split].
  - exact (proj1 (C3_access_resolution friends (oid 6)) eq_refl).
  - refine (proj1 (proj2 (C3_access_resolution friends (oid 7))) _ [] viewer [] eq_refl eq_refl _).
    + vm_compute. discriminate.
    + intros x [].
  - refine (proj2 (proj2 (proj2 (C3_access_resolution friends (oid 8)))) _ _).
    + vm_compute. discriminate.
    + intros x [Hx|[]]. subst x. vm_compute. discriminate.
Defined.

(* ================================================================ *)
(** * GitHub email selection *)

Lemma first_primary_verified_first (pre post : list GitHubEmail) (e : GitHubEmail) :
  e_Primary e = true -> e_Verified e = true ->
  (forall x, In x pre -> e_Primary x && e_Verified x = false) ->
  first_primary_verified (pre ++ e :: post) = Some (e_Email e).
Proof.
  intros Hp Hv Hpre. induction pre as [|x pre IH]; simpl.
  - rewrite Hp, Hv. reflexivity.
  - rewrite (Hpre x (or_introl eq_refl)). apply IH.
    intros y Hy. apply Hpre. right. exact Hy.
Qed.

Lemma first_primary_verified_none (emails : list GitHubEmail) :
  (forall x, In x emails -> e_Primary x && e_Verified x = false) ->
  first_primary_verified emails = None.
Proof.
  induction emails as [|x emails IH]; simpl; intros H; [reflexivity|].
  rewrite (H x (or_introl eq_refl)). apply IH.
  intros y Hy. apply H. right. exact Hy.
Qed.

Lemma first_verified_first (pre post : list GitHubEmail) (e : GitHubEmail) :
  e_Verified e = true ->
  (forall x, In x pre -> e_Verified x = false) ->
  first_verified (pre ++ e :: post) = Some (e_Email e).
Proof.
  intros Hv Hpre. induction pre as [|x pre IH]; simpl.
  - rewrite Hv. reflexivity.
  - rewrite (Hpre x (or_introl eq_refl)). apply IH.
    intros y Hy. apply Hpre. right. exact Hy.
Qed.

Lemma first_verified_none (emails : list GitHubEmail) :
  (forall x, In x emails -> e_Verified x = false) ->
  first_verified emails = None.
Proof.
  induction emails as [|x emails IH]; simpl; intros H; [reflexivity|].
  rewrite (H x (or_introl eq_refl)). apply IH.
  intros y Hy. apply H. right. exact Hy.
Qed.

(** C6. For every list of provider emails that the emails endpoint
    answers with (status 200, decodable body), [getGitHubUserEmail]
    returns the first entry marked primary and verified; if there is
    none, the first verified entry; if there is none, the first entry;
    and it fails with "no email found for user" on the empty list.  A
    list holding only a verified, non-primary entry resolves to that
    entry's address. *)
Theorem C6_github_email_selection {U} (P : Provider U) (s : OAuthService)
    (accessToken body : string) (emails : list GitHubEmail) :
  get_emails P (UserEmailsURL (config s)) ("Bearer " ++ accessToken)
    = HttpResponse StatusOK body (Ok emails) ->
  (forall pre e post,
      emails = (pre ++ e :: post)%list ->
      e_Primary e = true -> e_Verified e = true ->
      (forall x, In x pre -> e_Primary x && e_Verified x = false) ->
      getGitHubUserEmail P s accessToken = Ok (e_Email e))
  /\ (forall pre e post,
      emails = (pre ++ e :: post)%list ->
      (forall x, In x emails -> e_Primary x && e_Verified x = false) ->
      e_Verified e = true ->
      (forall x, In x pre -> e_Verified x = false) ->
      getGitHubUserEmail P s accessToken = Ok (e_Email e))
  /\ (forall e rest,
      emails = e :: rest ->
      (forall x, In x emails -> e_Verified x = false) ->
      getGitHubUserEmail P s accessToken = Ok (e_Email e))
  /\ (emails = [] ->
      getGitHubUserEmail P s accessToken = Err (ErrorString "no email found for user"))
  /\ (forall addr,
      emails = [mkGitHubEmail addr false true] ->
      getGitHubUserEmail P s accessToken = Ok addr).
Proof.
  intros Hresp. unfold getGitHubUserEmail. rewrite Hresp. simpl.
  unfold select_email. repeat split.
  - intros pre e post -> Hp Hv Hpre.
    rewrite (first_primary_verified_first pre post e Hp Hv Hpre). reflexivity.
  - intros pre e post He Hnone Hv Hpre.
    rewrite (first_primary_verified_none emails Hnone). subst emails.
    rewrite (first_verified_first pre post e Hv Hpre). reflexivity.
  - intros e rest -> Hnone.
    rewrite first_primary_verified_none.
    + rewrite (first_verified_none _ Hnone). reflexivity.
    + intros x Hx. rewrite (Hnone x Hx). apply andb_false_r.
  - intros ->. reflexivity.
  - intros addr ->. reflexivity.
Qed.

Lemma C6_github_email_selection_witness :
  getGitHubUserEmail scenarioProvider scenarioOAuth "gho_token" = Ok "x@y.com".
Proof.
  apply (C6_github_email_selection scenarioProvider scenarioOAuth "gho_token" "[]"
           [mkGitHubEmail "x@y.com" false true] eq_refl).
  reflexivity.
Defined.

(* ================================================================ *)
(** * The OAuth state value *)

Lemma generateRandomState_value :
  generateRandomState
  = "random-state-" ++ String (byte_of_Z 239) (String (byte_of_Z 191) (str1 189)).
Proof. reflexivity. Qed.

(** C9. [generateRandomState] is a constant: every call yields the same
    string (the prefix followed by the encoding of U+FFFD, since
    123456789 is not a code point), so whatever the handler and the
    request, [GoogleAuth] and [GitHubAuth] set the [oauth_state] cookie
    to one and the same value and put the same state in the redirect. *)
Theorem C9_oauth_state_is_constant {DB1 DB2}
    (h1 : AuthHandler DB1) (h2 : AuthHandler DB2) (c1 c2 : Request) :
  map ck_Value (rs_Cookies (GoogleAuth h1 c1)) = [QueryEscape generateRandomState]
  /\ map ck_Value (rs_Cookies (GitHubAuth h1 c1)) = [QueryEscape generateRandomState]
  /\ rs_Cookies (GoogleAuth h1 c1) = rs_Cookies (GoogleAuth h2 c2)
  /\ rs_Cookies (GitHubAuth h1 c1) = rs_Cookies (GitHubAuth h2 c2)
  /\ rs_Cookies (GoogleAuth h1 c1) = rs_Cookies (GitHubAuth h2 c2)
  /\ QueryEscape generateRandomState = "random-state-%EF%BF%BD".
Proof. repeat split; reflexivity. Qed.

(* ================================================================ *)
(** * Registration and login *)

Section CredentialFacts.
Context {DB : Type}.
Variable B : Bcrypt.
Variable J : JwtCodec.
Variable s : Service DB.

(** Once the five checks pass, [Register] goes on to the lookup. *)
Lemma Register_validated (now : Z) (salt : string) (db : DB) (email password name : string) :
  email <> EmptyString -> password <> EmptyString -> name <> EmptyString ->
  emailRegex_MatchString email = true ->
  minPasswordLength <= len password ->
  Register B J s now salt db email password name =
    let '(found, db1) := repo_FindByEmail (userRepo s) db email in
    match found with
    | Err e =>
        if negb (err_is_sentinel e ErrUserNotFound)
        then (Err (Wrap "failed to check existing user: " e), db1)
        else
          match HashPassword B salt password with
          | Err e => (Err (Wrap "failed to hash password: " e), db1)
          | Ok passwordHash =>
              let user :=
                mkUser NilObjectID email passwordHash name
                  EmptyString EmptyString EmptyString now now in
              let '((user', err), db2) := repo_Create (userRepo s) db1 now user in
              match err with
              | Some e => (Err (Wrap "failed to create user: " e), db2)
              | None =>
                  match GenerateToken J now (u_ID user') email
                          (jwtSecret s) (tokenDuration s) with
                  | Err e => (Err (Wrap "failed to generate token: " e), db2)
                  | Ok token =>
                      (Ok (mkAuthResult token (Hex (u_ID user')) (u_Email user')
                             (u_Name user')), db2)
                  end
              end
          end
    | Ok existingUser => (Err (Sentinel ErrEmailAlreadyExists), db1)
    end.
Proof.
  intros He Hp Hn Hre Hlen. unfold Register.
  rewrite (proj2 (is_empty_false _) He), (proj2 (is_empty_false _) Hp),
    (proj2 (is_empty_false _) Hn), Hre. simpl.
  destruct (len password <? minPasswordLength) eqn:E.
  - apply Z.ltb_lt in E. lia.
  - reflexivity.
Qed.

(** After the length check [Register] never answers
    [ErrPasswordTooShort]. *)
Lemma Register_long_password (now : Z) (salt : string) (db : DB) (email password name : string) :
  minPasswordLength <= len password ->
  fst (Register B J s now salt db email password name) <> Err (Sentinel ErrPasswordTooShort).
Proof.
  intros Hlen. unfold Register.
  destruct (is_empty email); [simpl; discriminate|].
  destruct (is_empty password); [simpl; discriminate|].
  destruct (is_empty name); [simpl; discriminate|].
  destruct (negb (emailRegex_MatchString email)); [simpl; discriminate|].
  destruct (len password <? minPasswordLength) eqn:E.
  { apply Z.ltb_lt in E. lia. }
  destruct (repo_FindByEmail (userRepo s) db email) as [found db1].
  destruct found as [u|e]; [simpl; discriminate|].
  destruct (negb (err_is_sentinel e ErrUserNotFound)); [simpl; discriminate|].
  destruct (HashPassword B salt password) as [h|e']; [|simpl; discriminate].
  destruct (repo_Create (userRepo s) db1 now _) as [[user' err] db2].
  destruct err; [simpl; discriminate|].
  destruct (GenerateToken J now (u_ID user') email (jwtSecret s) (tokenDuration s));
    simpl; discriminate.
Qed.

(** C7 (as the code has it). The checks of [Register] run in a fixed
    order and the first that fails decides: [ErrEmailRequired] for an
    empty email; then [ErrPasswordRequired] for an empty password; then
    [ErrNameRequired] for an empty name; then [ErrInvalidEmail] for an
    email that does not match the format; and, once these four pass,
    [ErrPasswordTooShort] exactly when the password is shorter than 8
    bytes.  A password of 7 bytes is rejected there and one of 8 bytes
    passes the length check.  None of these failures touches the
    user directory. *)
Theorem C7_register_validation (now : Z) (salt : string) (db : DB)
    (email password name : string) :
  let r := Register B J s now salt db email password name in
  (email = EmptyString -> r = (Err (Sentinel ErrEmailRequired), db))
  /\ (email <> EmptyString -> password = EmptyString ->
      r = (Err (Sentinel ErrPasswordRequired), db))
  /\ (email <> EmptyString -> password <> EmptyString -> name = EmptyString ->
      r = (Err (Sentinel ErrNameRequired), db))
  /\ (email <> EmptyString -> password <> EmptyString -> name <> EmptyString ->
      emailRegex_MatchString email = false ->
      r = (Err (Sentinel ErrInvalidEmail), db))
  /\ (email <> EmptyString -> password <> EmptyString -> name <> EmptyString ->
      emailRegex_MatchString email = true ->
      (fst r = Err (Sentinel ErrPasswordTooShort) <-> len password < 8))
  /\ (email <> EmptyString -> password <> EmptyString -> name <> EmptyString ->
      emailRegex_MatchString email = true ->
      len password = 7 -> r = (Err (Sentinel ErrPasswordTooShort), db))
  /\ (len password = 8 -> fst r <> Err (Sentinel ErrPasswordTooShort)).
Proof.
  assert (Hshort : email <> EmptyString -> password <> EmptyString -> name <> EmptyString ->
                   emailRegex_MatchString email = true -> len password < 8 ->
                   Register B J s now salt db email password name
                   = (Err (Sentinel ErrPasswordTooShort), db)).
  { intros He Hp Hn Hre Hlen. unfold Register.
    rewrite (proj2 (is_empty_false _) He), (proj2 (is_empty_false _) Hp),
      (proj2 (is_empty_false _) Hn), Hre. simpl.
    rewrite (proj2 (Z.ltb_lt _ _)); [reflexivity | exact Hlen]. }
  cbv zeta.
  split; [intros ->; reflexivity|].
  split.
  { intros He ->. unfold Register.
    rewrite (proj2 (is_empty_false _) He). reflexivity. }
  split.
  { intros He Hp ->. unfold Register.
    rewrite (proj2 (is_empty_false _) He), (proj2 (is_empty_false _) Hp). reflexivity. }
  split.
  { intros He Hp Hn Hre. unfold Register.
    rewrite (proj2 (is_empty_false _) He), (proj2 (is_empty_false _) Hp),
      (proj2 (is_empty_false _) Hn), Hre. reflexivity. }
  split.
  { intros He Hp Hn Hre. split.
    - intros Hr. destruct (Z.lt_ge_cases (len password) 8) as [Hlt|Hge]; [exact Hlt|].
      exfalso. revert Hr. apply Register_long_password. exact Hge.
    - intros Hlt. rewrite (Hshort He Hp Hn Hre Hlt). reflexivity. }
  split.
  { intros He Hp Hn Hre Hlen. apply Hshort; try assumption. lia. }
  intros Hlen. apply Register_long_password. unfold minPasswordLength. lia.
Qed.

(** [Login] with an empty email stops at its first check: it answers
    [ErrEmailRequired] and asks nothing of the user directory. *)
Lemma Login_empty_email (now : Z) (db : DB) (password : string) :
  Login B J s now db EmptyString password = (Err (Sentinel ErrEmailRequired), db).
Proof. reflexivity. Qed.

(** C2 (as the code has it). For every non-empty email and non-empty
    password, [Login] returns the one value [ErrInvalidCredentials]
    both when the lookup answers with the not-found sentinel and when
    it answers with a user whose stored hash the password does not
    verify against; the handler turns both into the same response,
    401 "invalid credentials".  For the empty email, whatever the
    password and the database, [Login] returns [ErrEmailRequired]
    before any lookup. *)
Theorem C2_login_invalid_credentials (now : Z) (db : DB) (email password : string) :
  (email <> EmptyString -> password <> EmptyString ->
   let lookup := repo_FindByEmail (userRepo s) db email in
   let r := Login B J s now db email password in
   (fst lookup = Err (Sentinel ErrUserNotFound) ->
      r = (Err (Sentinel ErrInvalidCredentials), snd lookup))
   /\ (forall user,
         fst lookup = Ok user ->
         VerifyPassword B (u_PasswordHash user) password <> None ->
         r = (Err (Sentinel ErrInvalidCredentials), snd lookup))
   /\ (fst r = Err (Sentinel ErrInvalidCredentials) ->
         Login_response (fst r)
         = mkResponse StatusUnauthorized [] EmptyString (error_body "invalid credentials")))
  /\ Login B J s now db EmptyString password = (Err (Sentinel ErrEmailRequired), db).
Proof.
  split; [|apply Login_empty_email].
  intros He Hp. cbv zeta. unfold Login.
  rewrite (proj2 (is_empty_false _) He), (proj2 (is_empty_false _) Hp).
  destruct (repo_FindByEmail (userRepo s) db email) as [found db1]. simpl.
  repeat split.
  - intros ->. reflexivity.
  - intros user -> Hv.
    destruct (VerifyPassword B (u_PasswordHash user) password); [reflexivity|].
    contradiction.
  - intros ->. reflexivity.
Qed.

(** An empty stored hash verifies against no password. *)
Lemma VerifyPassword_empty_hash (password : string) :
  VerifyPassword B EmptyString password <> None.
Proof. unfold VerifyPassword, CompareHashAndPassword. simpl. discriminate. Qed.

(** A user record with an empty password hash that the lookup by its
    email returns: [Login] with that email never succeeds, and returns
    [ErrInvalidCredentials] when the email and the password are not
    empty. *)
Lemma Login_empty_hash (now : Z) (db : DB) (user : User) (password : string) :
  u_PasswordHash user = EmptyString ->
  fst (repo_FindByEmail (userRepo s) db (u_Email user)) = Ok user ->
  let r := Login B J s now db (u_Email user) password in
  (u_Email user <> EmptyString -> password <> EmptyString ->
     fst r = Err (Sentinel ErrInvalidCredentials))
  /\ (forall res, fst r <> Ok res).
Proof.
  intros Hhash Hfind. cbv zeta. unfold Login.
  destruct (is_empty (u_Email user)) eqn:Ee.
  { split; [|simpl; discriminate].
    intros Hne. apply is_empty_true in Ee. contradiction. }
  destruct (is_empty password) eqn:Ep.
  { split; [|simpl; discriminate].
    intros _ Hne. apply is_empty_true in Ep. contradiction. }
  destruct (repo_FindByEmail (userRepo s) db (u_Email user)) as [found db1].
  simpl in Hfind. subst found. rewrite Hhash.
  destruct (VerifyPassword B EmptyString password) eqn:Ev.
  - split; [reflexivity | simpl; discriminate].
  - exfalso. revert Ev. apply VerifyPassword_empty_hash.
Qed.

(** What [Register] does with the outcome of the lookup and of the
    create step, once the input checks pass. *)
Lemma Register_lookup_and_create (now : Z) (salt : string) (db : DB)
    (email password name : string) :
  email <> EmptyString -> password <> EmptyString -> name <> EmptyString ->
  emailRegex_MatchString email = true ->
  minPasswordLength <= len password ->
  let lookup := repo_FindByEmail (userRepo s) db email in
  let r := Register B J s now salt db email password name in
  (forall existing,
      fst lookup = Ok existing ->
      r = (Err (Sentinel ErrEmailAlreadyExists), snd lookup)
      /\ Register_response (fst r)
         = mkResponse StatusConflict [] EmptyString (error_body "email already exists"))
  /\ (forall passwordHash user' e db2,
      fst lookup = Err (Sentinel ErrUserNotFound) ->
      HashPassword B salt password = Ok passwordHash ->
      repo_Create (userRepo s) (snd lookup) now
        (mkUser NilObjectID email passwordHash name
           EmptyString EmptyString EmptyString now now) = ((user', Some e), db2) ->
      r = (Err (Wrap "failed to create user: " e), db2)
      /\ fst r <> Err (Sentinel ErrEmailAlreadyExists)
      /\ ((forall t, errors_Is e t = false) ->
          Register_response (fst r)
          = mkResponse StatusInternalServerError [] EmptyString
              (error_body "failed to register user"))).
Proof.
  intros He Hp Hn Hre Hlen. cbv zeta.
  rewrite (Register_validated now salt db email password name He Hp Hn Hre Hlen).
  destruct (repo_FindByEmail (userRepo s) db email) as [found db1]. simpl.
  split.
  - intros existing ->. simpl. split; reflexivity.
  - intros passwordHash user' e db2 -> Hh Hc. simpl.
    rewrite Hh, Hc. simpl. repeat split.
    + discriminate.
    + intros Hnot. unfold Register_response. simpl.
      rewrite !Hnot. reflexivity.
Qed.

End CredentialFacts.

(* ================================================================ *)
(** * Registration against the database *)

Lemma env_step_quiet (w : World) : w_env w = [] -> env_step w = (None, w).
Proof. unfold env_step. intros ->. reflexivity. Qed.

Lemma find_app_last {A} (p : A -> bool) (l : list A) (x : A) :
  p x = true -> exists y, find p (l ++ [x]) = Some y /\ p y = true.
Proof.
  intros Hx. induction l as [|a l IH]; simpl.
  - rewrite Hx. exists x. auto.
  - destruct (p a) eqn:E; [exists a; auto | exact IH].
Qed.

Lemma find_none_app_last {A} (p : A -> bool) (l : list A) (x : A) :
  find p l = None -> p x = true -> find p (l ++ [x]) = Some x.
Proof.
  intros Hn Hx. induction l as [|a l IH]; simpl in *.
  - rewrite Hx. reflexivity.
  - destruct (p a); [discriminate | apply IH; exact Hn].
Qed.

(** The error of [Create] when the driver refuses the insert for a
    unique index wraps no package-level error. *)
Lemma mongoUser_Create_duplicate (w : World) (now : Z) (user user' : User) (e : error)
    (w' : World) :
  mongoUser_Create w now user = ((user', Some e), w') ->
  exists dup msg,
    e = Wrap "failed to create user: " (DriverError dup msg)
    /\ forall t, errors_Is e t = false.
Proof.
  unfold mongoUser_Create, users_InsertOne. intros H.
  destruct (IsZero (u_ID user)).
  - destruct (NewObjectID w) as [id w0].
    destruct (env_step w0) as [[msg|] w1].
    + inversion H; subst. exists false, msg. split; reflexivity.
    + destruct (user_conflicts (w_users w1) _) as [msg|].
      * inversion H; subst. exists true, msg. split; reflexivity.
      * inversion H.
  - destruct (env_step w) as [[msg|] w1].
    + inversion H; subst. exists false, msg. split; reflexivity.
    + destruct (user_conflicts (w_users w1) _) as [msg|].
      * inversion H; subst. exists true, msg. split; reflexivity.
      * inversion H.
Qed.

Lemma NewObjectID_frame (w : World) :
  w_users (snd (NewObjectID w)) = w_users w
  /\ w_circles (snd (NewObjectID w)) = w_circles w
  /\ w_env (snd (NewObjectID w)) = w_env w.
Proof. repeat split. Qed.

(** On a database that nobody else writes to and that does not fail:
    the lookup by email, and a successful [Create]. *)
Lemma mongoUser_FindByEmail_quiet (w : World) (email : string) :
  w_env w = [] ->
  mongoUser_FindByEmail w email
  = (match find (fun u => String.eqb (u_Email u) email) (w_users w) with
     | Some u => Ok u
     | None => Err (Sentinel ErrUserNotFound)
     end, w).
Proof.
  intros Henv. unfold mongoUser_FindByEmail, mongoUser_FindBy, users_FindOne.
  rewrite (env_step_quiet w Henv).
  destruct (find _ (w_users w)); reflexivity.
Qed.

Lemma mongoUser_Create_quiet (w w' : World) (now : Z) (user user' : User) :
  w_env w = [] ->
  mongoUser_Create w now user = ((user', None), w') ->
  w_users w' = (w_users w ++ [user'])%list
  /\ w_circles w' = w_circles w
  /\ w_env w' = []
  /\ u_Email user' = u_Email user
  /\ u_PasswordHash user' = u_PasswordHash user
  /\ u_OAuthProvider user' = u_OAuthProvider user
  /\ u_OAuthProviderName user' = u_OAuthProviderName user.
Proof.
  intros Henv. unfold mongoUser_Create.
  destruct (IsZero (u_ID user)).
  - destruct (NewObjectID w) as [id w0] eqn:En.
    destruct (NewObjectID_frame w) as [Hu [Hc He]]. rewrite En in Hu, Hc, He. simpl in Hu, Hc, He.
    unfold users_InsertOne. rewrite (env_step_quiet w0) by congruence.
    destruct (user_conflicts (w_users w0) _); intros H; inversion H; subst. simpl.
    rewrite Hu, Hc, He, Henv. repeat split.
  - unfold users_InsertOne. rewrite (env_step_quiet w Henv).
    destruct (user_conflicts (w_users w) _); intros H; inversion H; subst. simpl.
    rewrite Henv. repeat split.
Qed.

Section RegisterOnMongo.
Variable B : Bcrypt.
Variable J : JwtCodec.
Variable secret : string.
Variable duration : Z.

Let svc : Service World := mkService World mongoUserRepository secret duration.

(** On a database that nobody else writes to and that does not fail, a
    registration that succeeded makes the next one with the same email
    fail with [ErrEmailAlreadyExists]. *)
Lemma Register_twice (now1 now2 : Z) (salt1 salt2 : string) (w w1 : World)
    (email password1 name1 password2 name2 : string) (res : AuthResult) :
  w_env w = [] ->
  Register B J svc now1 salt1 w email password1 name1 = (Ok res, w1) ->
  password2 <> EmptyString -> name2 <> EmptyString ->
  minPasswordLength <= len password2 ->
  Register B J svc now2 salt2 w1 email password2 name2
  = (Err (Sentinel ErrEmailAlreadyExists), w1).
Proof.
  intros Henv H1 Hp2 Hn2 Hlen2.
  assert (Hv : email <> EmptyString /\ emailRegex_MatchString email = true
               /\ exists doc, w_users w1 = (w_users w ++ [doc])%list
                              /\ u_Email doc = email /\ w_env w1 = []).
  { revert H1. unfold Register.
    destruct (is_empty email) eqn:Ee; [discriminate|].
    destruct (is_empty password1); [discriminate|].
    destruct (is_empty name1); [discriminate|].
    destruct (emailRegex_MatchString email) eqn:Ere; [|discriminate]. simpl negb.
    destruct (len password1 <? minPasswordLength); [discriminate|].
    cbn [userRepo svc repo_FindByEmail repo_Create mongoUserRepository].
    rewrite (mongoUser_FindByEmail_quiet w email Henv).
    destruct (find _ (w_users w)); [discriminate|]. simpl.
    destruct (HashPassword B salt1 password1) as [h|]; [|discriminate].
    destruct (mongoUser_Create w now1 _) as [[user' err] w2] eqn:Ec.
    destruct err; [discriminate|].
    destruct (mongoUser_Create_quiet w w2 now1 _ user' Henv Ec)
      as [Hus [_ [Henv2 [Hem _]]]].
    cbn [jwtSecret tokenDuration svc]. simpl in Hem.
    intros H. assert (Hw : w2 = w1) by congruence. subst w1.
    split; [apply is_empty_false; exact Ee|].
    split; [reflexivity|].
    exists user'. split; [exact Hus|]. split; [exact Hem | exact Henv2]. }
  destruct Hv as [He [Hre [doc [Hus [Hdoc Henv1]]]]].
  rewrite (Register_validated B J svc now2 salt2 w1 email password2 name2 He Hp2 Hn2 Hre Hlen2).
  cbn [userRepo svc repo_FindByEmail mongoUserRepository].
  rewrite (mongoUser_FindByEmail_quiet w1 email Henv1), Hus.
  destruct (find_app_last (fun u => String.eqb (u_Email u) email) (w_users w) doc)
    as [y [Hy _]].
  { simpl. rewrite Hdoc. apply String.eqb_refl. }
  rewrite Hy. reflexivity.
Qed.

End RegisterOnMongo.

(** C5 (as the code has it). Once the input checks pass: when the
    lookup finds a user with the email, [Register] returns
    [ErrEmailAlreadyExists], which the handler answers with 409 "email
    already exists" -- so on a database nobody else writes to, the
    second of two registrations with one email is refused that way.
    When the lookup finds none and the create step fails, whatever the
    failure, [Register] returns it wrapped as "failed to create user:
    ...", a value that is not [ErrEmailAlreadyExists]; the error of the
    Mongo repository for a refused insert wraps no package-level error,
    and for such an error the handler answers 500 "failed to register
    user". *)
Theorem C5_register_duplicate_email :
  (forall DB (B : Bcrypt) (J : JwtCodec) (s : Service DB) now salt db email password name,
      email <> EmptyString -> password <> EmptyString -> name <> EmptyString ->
      emailRegex_MatchString email = true ->
      minPasswordLength <= len password ->
      let lookup := repo_FindByEmail (userRepo s) db email in
      let r := Register B J s now salt db email password name in
      (forall existing,
          fst lookup = Ok existing ->
          r = (Err (Sentinel ErrEmailAlreadyExists), snd lookup)
          /\ Register_response (fst r)
             = mkResponse StatusConflict [] EmptyString (error_body "email already exists"))
      /\ (forall passwordHash user' e db2,
          fst lookup = Err (Sentinel ErrUserNotFound) ->
          HashPassword B salt password = Ok passwordHash ->
          repo_Create (userRepo s) (snd lookup) now
            (mkUser NilObjectID email passwordHash name
               EmptyString EmptyString EmptyString now now) = ((user', Some e), db2) ->
          r = (Err (Wrap "failed to create user: " e), db2)
          /\ fst r <> Err (Sentinel ErrEmailAlreadyExists)
          /\ ((forall t, errors_Is e t = false) ->
              Register_response (fst r)
              = mkResponse StatusInternalServerError [] EmptyString
                  (error_body "failed to register user"))))
  /\ (forall w now user user' e w',
      mongoUser_Create w now user = ((user', Some e), w') ->
      forall t, errors_Is e t = false)
  /\ (forall B J secret duration now1 now2 salt1 salt2 w w1
             email password1 name1 password2 name2 res,
      w_env w = [] ->
      Register B J (mkService World mongoUserRepository secret duration)
        now1 salt1 w email password1 name1 = (Ok res, w1) ->
      password2 <> EmptyString -> name2 <> EmptyString ->
      minPasswordLength <= len password2 ->
      Register B J (mkService World mongoUserRepository secret duration)
        now2 salt2 w1 email password2 name2
      = (Err (Sentinel ErrEmailAlreadyExists), w1)).
Proof.
  split; [|split].
  - intros DB B J s now salt db email password name.
    apply Register_lookup_and_create.
  - intros w now user user' e w' H.
    destruct (mongoUser_Create_duplicate w now user user' e w' H) as [dup [msg [_ Hno]]].
    exact Hno.
  - intros. eapply Register_twice; eassumption.
Qed.

(** C5 as the specification words it fails when the uniqueness violation comes from
    the create step: the email is taken by another process after our
    lookup, the insert is refused by [email_unique], and [Register]
    returns the wrapped driver error, which is not
    [ErrEmailAlreadyExists]; the handler answers 500, not 409. *)
Lemma C5_counterexample :
  let r := fst (Register refBcrypt refCodec mongoService 0 "salt" raceWorld
                  "a@b.com" "password2" "B") in
  r = Err (Wrap "failed to create user: "
             (Wrap "failed to create user: "
                (DriverError true
                   "E11000 duplicate key error collection: users index: email_unique")))
  /\ r <> Err (Sentinel ErrEmailAlreadyExists)
  /\ (forall e, r = Err e -> errors_Is e ErrEmailAlreadyExists = false)
  /\ rs_Status (Register_response r) = StatusInternalServerError.
Proof.
  cbv zeta.
  assert (H : fst (Register refBcrypt refCodec mongoService 0 "salt" raceWorld
                     "a@b.com" "password2" "B")
              = Err (Wrap "failed to create user: "
                       (Wrap "failed to create user: "
                          (DriverError true
                             "E11000 duplicate key error collection: users index: email_unique"))))
    by (vm_compute; reflexivity).
  rewrite H. repeat split.
  - discriminate.
  - intros e He. inversion He; subst. reflexivity.
Qed.

(* ================================================================ *)
(** * Login: examples and the accounts made by the OAuth callbacks *)

(** C2 as the specification words it ("for every email") fails at the
    empty email:
    no user has it, the password is not empty, and [Login] answers
    [ErrEmailRequired] without asking the user directory. *)
Lemma C2_counterexample :
  fst (repo_FindByEmail mongoUserRepository aliceWorld EmptyString)
    = Err (Sentinel ErrUserNotFound)
  /\ "x" <> EmptyString
  /\ Login refBcrypt refCodec mongoService 0 aliceWorld EmptyString "x"
     = (Err (Sentinel ErrEmailRequired), aliceWorld)
  /\ fst (Login refBcrypt refCodec mongoService 0 aliceWorld EmptyString "x")
     <> Err (Sentinel ErrInvalidCredentials).
Proof.
  split; [reflexivity|]. split; [discriminate|].
  split; [reflexivity|]. simpl. discriminate.
Qed.

Lemma C2_login_invalid_credentials_witness :
  Login refBcrypt refCodec mongoService 0 aliceWorld "missing@b.com" "x"
    = (Err (Sentinel ErrInvalidCredentials), aliceWorld)
  /\ Login refBcrypt refCodec mongoService 0 aliceWorld "a@b.com" "wrong"
    = (Err (Sentinel ErrInvalidCredentials), aliceWorld).
Proof.
  split.
  - refine (proj1 (proj1 (C2_login_invalid_credentials refBcrypt refCodec mongoService 0
                            aliceWorld "missing@b.com" "x") _ _) _);
      [discriminate | discriminate | reflexivity].
  - refine (proj1 (proj2 (proj1 (C2_login_invalid_credentials refBcrypt refCodec mongoService
                                   0 aliceWorld "a@b.com" "wrong") _ _)) alice _ _);
      [discriminate | discriminate | reflexivity | vm_compute; discriminate].
Defined.

(** C7 as the specification words it ("exactly when the password's length is below
    8", each error "when" its field is empty) fails where an earlier
    check decides: an empty password has length 0 and is answered with
    [ErrPasswordRequired]; with an empty email as well the answer is
    [ErrEmailRequired]. *)
Lemma C7_counterexample :
  len EmptyString < 8
  /\ Register refBcrypt refCodec mongoService 0 "salt" emptyWorld "a@b.com" EmptyString "A"
     = (Err (Sentinel ErrPasswordRequired), emptyWorld)
  /\ fst (Register refBcrypt refCodec mongoService 0 "salt" emptyWorld
            "a@b.com" EmptyString "A")
     <> Err (Sentinel ErrPasswordTooShort)
  /\ Register refBcrypt refCodec mongoService 0 "salt" emptyWorld
       EmptyString EmptyString EmptyString
     = (Err (Sentinel ErrEmailRequired), emptyWorld).
Proof.
  split; [reflexivity|]. split; [reflexivity|].
  split; [simpl; discriminate | reflexivity].
Qed.

(** The boundary of the specification on the running service. *)
Lemma C7_register_validation_witness :
  Register refBcrypt refCodec mongoService 0 "salt" emptyWorld "a@b.com" "1234567" "A"
    = (Err (Sentinel ErrPasswordTooShort), emptyWorld)
  /\ fst (Register refBcrypt refCodec mongoService 0 "salt" emptyWorld
            "a@b.com" "12345678" "A")
     <> Err (Sentinel ErrPasswordTooShort)
  /\ Register refBcrypt refCodec mongoService 0 "salt" emptyWorld "not-an-email" "12345678" "A"
     = (Err (Sentinel ErrInvalidEmail), emptyWorld).
Proof.
  split; [|split].
  - refine (proj1 (proj2 (proj2 (proj2 (proj2 (proj2
              (C7_register_validation refBcrypt refCodec mongoService 0 "salt" emptyWorld
                 "a@b.com" "1234567" "A")))))) _ _ _ _ _);
      [discriminate | discriminate | discriminate | reflexivity | reflexivity].
  - refine (proj2 (proj2 (proj2 (proj2 (proj2 (proj2
              (C7_register_validation refBcrypt refCodec mongoService 0 "salt" emptyWorld
                 "a@b.com" "12345678" "A")))))) _).
    reflexivity.
  - refine (proj1 (proj2 (proj2 (proj2
              (C7_register_validation refBcrypt refCodec mongoService 0 "salt" emptyWorld
                 "not-an-email" "12345678" "A")))) _ _ _ _);
      [discriminate | discriminate | discriminate | reflexivity].
Defined.

Example register_accepts_eight_bytes :
  exists res,
    fst (Register refBcrypt refCodec mongoService 0 "salt" emptyWorld
           "a@b.com" "12345678" "A") = Ok res.
Proof. eexists. vm_compute. reflexivity. Qed.

Lemma C5_register_duplicate_email_witness :
  exists res w1,
    Register refBcrypt refCodec mongoService 0 "salt" emptyWorld "a@b.com" "password1" "A"
      = (Ok res, w1)
    /\ Register refBcrypt refCodec mongoService 1 "salt" w1 "a@b.com" "password2" "B"
      = (Err (Sentinel ErrEmailAlreadyExists), w1).
Proof.
  eexists. eexists. split.
  - vm_compute. reflexivity.
  - refine (proj2 (proj2 C5_register_duplicate_email) refBcrypt refCodec
              "test-secret" (3600 * second) 0 1 "salt" "salt" emptyWorld _
              "a@b.com" "password1" "A" "password2" "B" _ _ _ _ _ _).
    + reflexivity.
    + vm_compute. reflexivity.
    + discriminate.
    + discriminate.
    + vm_compute. discriminate.
Defined.

Section OAuthAccounts.
Variable B : Bcrypt.
Variable J : JwtCodec.
Variable secret : string.
Variable duration : Z.

Let svc : Service World := mkService World mongoUserRepository secret duration.

Lemma issue_token_result (now : Z) (user : User) (w w' : World) (res : AuthResult) :
  issue_token J svc now user w = (Ok res, w') ->
  ar_Email res = u_Email user /\ w' = w.
Proof.
  unfold issue_token.
  destruct (GenerateToken J now (u_ID user) (u_Email user) (jwtSecret svc) (tokenDuration svc));
    intros H; inversion H; subst. split; reflexivity.
Qed.

Lemma find_some_email (us : list User) (email : string) (u : User) :
  find (fun u => String.eqb (u_Email u) email) us = Some u -> u_Email u = email.
Proof.
  intros H. apply find_some in H. destruct H as [_ H].
  apply String.eqb_eq. exact H.
Qed.

(** For the world the callbacks leave behind: when the email was not in
    the user directory before and the callback succeeded, the record
    they created is the one the directory now returns for the email,
    and its password hash is empty. *)
Lemma callback_created_account (now : Z) (w w' : World) (email name providerID provider : string)
    (res : AuthResult) :
  w_env w = [] ->
  find (fun u => String.eqb (u_Email u) email) (w_users w) = None ->
  (let '((user', err), db2) :=
     mongoUser_Create w now
       (mkUser NilObjectID email EmptyString name EmptyString providerID provider now now) in
   match err with
   | Some e => (Err (Wrap "failed to create user: " e), db2)
   | None => issue_token J svc now user' db2
   end) = (Ok res, w') ->
  exists user,
    ar_Email res = email
    /\ u_Email user = email
    /\ u_PasswordHash user = EmptyString
    /\ w_env w' = []
    /\ mongoUser_FindByEmail w' email = (Ok user, w').
Proof.
  intros Henv Hnone.
  destruct (mongoUser_Create w now _) as [[user' err] w2] eqn:Ec.
  destruct err; [discriminate|].
  destruct (mongoUser_Create_quiet w w2 now _ user' Henv Ec)
    as [Hus [_ [Henv2 [Hem [Hh _]]]]].
  simpl in Hem, Hh. intros Hi.
  destruct (issue_token_result now user' w2 w' res Hi) as [Hre Hw]. subst w'.
  exists user'. split; [congruence|]. split; [exact Hem|]. split; [exact Hh|].
  split; [exact Henv2|].
  rewrite (mongoUser_FindByEmail_quiet w2 email Henv2), Hus.
  rewrite (find_none_app_last _ (w_users w) user' Hnone); [reflexivity|].
  simpl. rewrite Hem. apply String.eqb_refl.
Qed.

Lemma github_created_account (P : Provider GitHubUserInfo) (s : OAuthService)
    (now : Z) (w w' : World) (code : string) (res : AuthResult) :
  w_env w = [] ->
  find (fun u => String.eqb (u_Email u) (ar_Email res)) (w_users w) = None ->
  HandleGitHubCallback J P s svc now w code = (Ok res, w') ->
  exists user,
    u_Email user = ar_Email res
    /\ u_PasswordHash user = EmptyString
    /\ mongoUser_FindByEmail w' (ar_Email res) = (Ok user, w').
Proof.
  intros Henv Hnone. unfold HandleGitHubCallback.
  destruct (is_empty code); [discriminate|].
  destruct (exchangeGitHubCodeForToken P s code) as [tok|]; [|discriminate].
  destruct (getGitHubUserInfo P s tok) as [info|]; [|discriminate].
  destruct (getGitHubUserEmail P s tok) as [email|]; [|discriminate].
  cbn [userRepo svc repo_FindByEmail repo_Create repo_Update mongoUserRepository].
  rewrite (mongoUser_FindByEmail_quiet w email Henv).
  destruct (find (fun u => String.eqb (u_Email u) email) (w_users w)) as [u|] eqn:Ef.
  - (* the email was known: the result carries it, against the assumption *)
    pose proof (find_some_email _ _ _ Ef) as Hue.
    assert (Hres : ar_Email res = email -> False).
    { intros Hr. rewrite Hr, Ef in Hnone. discriminate. }
    destruct (is_empty (u_OAuthProvider u)).
    + destruct (mongoUser_Update w now _) as [[user' err] w2] eqn:Eu.
      destruct err; [discriminate|]. intros Hi.
      destruct (issue_token_result now user' w2 w' res Hi) as [Hre _].
      exfalso. apply Hres. rewrite Hre.
      unfold mongoUser_Update in Eu.
      destruct (users_UpdateOne_set w _ _) as [[e m] w3].
      destruct e; [inversion Eu|].
      destruct (m =? 0); inversion Eu; subst user'; exact Hue.
    + intros Hi. destruct (issue_token_result now u w w' res Hi) as [Hre _].
      exfalso. apply Hres. congruence.
  - simpl negb. cbv iota. intros Hc.
    destruct (callback_created_account now w w' email (gh_Name info)
                (Itoa (gh_ID info)) "github" res Henv Ef Hc)
      as [user [Hr [Hem [Hh [_ Hf]]]]].
    exists user. rewrite Hr. auto.
Qed.

Lemma google_created_account (P : Provider GoogleUserInfo) (s : OAuthService)
    (now : Z) (w w' : World) (code : string) (res : AuthResult) :
  w_env w = [] ->
  find (fun u => String.eqb (u_Email u) (ar_Email res)) (w_users w) = None ->
  HandleGoogleCallback J P s svc now w code = (Ok res, w') ->
  exists user,
    u_Email user = ar_Email res
    /\ u_PasswordHash user = EmptyString
    /\ mongoUser_FindByEmail w' (ar_Email res) = (Ok user, w').
Proof.
  intros Henv Hnone. unfold HandleGoogleCallback.
  destruct (is_empty code); [discriminate|].
  destruct (exchangeCodeForToken P s code) as [tok|]; [|discriminate].
  destruct (getUserInfo P s tok) as [info|]; [|discriminate].
  cbn [userRepo svc repo_FindByEmail repo_Create repo_Update mongoUserRepository].
  rewrite (mongoUser_FindByEmail_quiet w (g_Email info) Henv).
  destruct (find (fun u => String.eqb (u_Email u) (g_Email info)) (w_users w)) as [u|] eqn:Ef.
  - pose proof (find_some_email _ _ _ Ef) as Hue.
    assert (Hres : ar_Email res = g_Email info -> False).
    { intros Hr. rewrite Hr, Ef in Hnone. discriminate. }
    destruct (is_empty (u_OAuthProvider u)).
    + destruct (mongoUser_Update w now _) as [[user' err] w2] eqn:Eu.
      destruct err; [discriminate|]. intros Hi.
      destruct (issue_token_result now user' w2 w' res Hi) as [Hre _].
      exfalso. apply Hres. rewrite Hre.
      unfold mongoUser_Update in Eu.
      destruct (users_UpdateOne_set w _ _) as [[e m] w3].
      destruct e; [inversion Eu|].
      destruct (m =? 0); inversion Eu; subst user'; exact Hue.
    + intros Hi. destruct (issue_token_result now u w w' res Hi) as [Hre _].
      exfalso. apply Hres. congruence.
  - simpl negb. cbv iota. intros Hc.
    destruct (callback_created_account now w w' (g_Email info) (g_Name info)
                (g_ID info) "google" res Henv Ef Hc)
      as [user [Hr [Hem [Hh [_ Hf]]]]].
    exists user. rewrite Hr. auto.
Qed.

End OAuthAccounts.

(** C10 (as the code has it). A user record with an empty password
    hash that the lookup by its email returns cannot log in with a
    password: [Login] with that email never succeeds, and it returns
    [ErrInvalidCredentials] whenever the email and the password are
    not empty, because an empty hash verifies against nothing.  The
    records the GitHub and Google callbacks create are of this kind: on
    a database nobody else writes to, after a callback that succeeded
    for an email unknown before, [Login] with that email never
    succeeds and returns [ErrInvalidCredentials] for a non-empty email
    and password.  For the empty email, whatever the service, the
    database and the password, [Login] returns [ErrEmailRequired]
    before any lookup. *)
Theorem C10_oauth_user_cannot_login :
  (forall DB (B : Bcrypt) (J : JwtCodec) (s : Service DB) now db user password,
      u_PasswordHash user = EmptyString ->
      fst (repo_FindByEmail (userRepo s) db (u_Email user)) = Ok user ->
      let r := Login B J s now db (u_Email user) password in
      (u_Email user <> EmptyString -> password <> EmptyString ->
         fst r = Err (Sentinel ErrInvalidCredentials))
      /\ (forall res, fst r <> Ok res))
  /\ (forall (B : Bcrypt) (J : JwtCodec) secret duration
             (P : Provider GitHubUserInfo) (o : OAuthService)
             now w w' code res now' password,
      let svc := mkService World mongoUserRepository secret duration in
      w_env w = [] ->
      find (fun u => String.eqb (u_Email u) (ar_Email res)) (w_users w) = None ->
      HandleGitHubCallback J P o svc now w code = (Ok res, w') ->
      let r := Login B J svc now' w' (ar_Email res) password in
      (ar_Email res <> EmptyString -> password <> EmptyString ->
         fst r = Err (Sentinel ErrInvalidCredentials))
      /\ (forall res', fst r <> Ok res'))
  /\ (forall (B : Bcrypt) (J : JwtCodec) secret duration
             (P : Provider GoogleUserInfo) (o : OAuthService)
             now w w' code res now' password,
      let svc := mkService World mongoUserRepository secret duration in
      w_env w = [] ->
      find (fun u => String.eqb (u_Email u) (ar_Email res)) (w_users w) = None ->
      HandleGoogleCallback J P o svc now w code = (Ok res, w') ->
      let r := Login B J svc now' w' (ar_Email res) password in
      (ar_Email res <> EmptyString -> password <> EmptyString ->
         fst r = Err (Sentinel ErrInvalidCredentials))
      /\ (forall res', fst r <> Ok res'))
  /\ (forall DB (B : Bcrypt) (J : JwtCodec) (s : Service DB) now db password,
      Login B J s now db EmptyString password = (Err (Sentinel ErrEmailRequired), db)).
Proof.
  split; [|split; [|split]]; [| | |intros; apply Login_empty_email].
  - intros DB B J s now db user password. apply Login_empty_hash.
  - intros B J secret duration P o now w w' code res now' password svc Henv Hnone Hcb.
    destruct (github_created_account J secret duration P o now w w' code res Henv Hnone Hcb)
      as [user [Hem [Hh Hf]]].
    rewrite <- Hem. apply Login_empty_hash; [exact Hh|].
    unfold svc. cbn [userRepo repo_FindByEmail mongoUserRepository].
    rewrite Hem, Hf. reflexivity.
  - intros B J secret duration P o now w w' code res now' password svc Henv Hnone Hcb.
    destruct (google_created_account J secret duration P o now w w' code res Henv Hnone Hcb)
      as [user [Hem [Hh Hf]]].
    rewrite <- Hem. apply Login_empty_hash; [exact Hh|].
    unfold svc. cbn [userRepo repo_FindByEmail mongoUserRepository].
    rewrite Hem, Hf. reflexivity.
Qed.

(** C10 as the specification words it fails for an account whose provider gave no
    email: the callback creates the record with an empty email and an
    empty hash, and [Login] with that email and a non-empty password
    answers [ErrEmailRequired], not [ErrInvalidCredentials]. *)
Lemma C10_counterexample :
  snd (HandleGoogleCallback refCodec namelessGoogle googleOAuthService mongoService
         0 emptyWorld "code")
    = mkWorld [nameless] [] 1 []
  /\ (exists res,
        fst (HandleGoogleCallback refCodec namelessGoogle googleOAuthService mongoService
               0 emptyWorld "code") = Ok res)
  /\ u_PasswordHash nameless = EmptyString
  /\ "password1" <> EmptyString
  /\ fst (Login refBcrypt refCodec mongoService 1 (mkWorld [nameless] [] 1 [])
            (u_Email nameless) "password1")
     = Err (Sentinel ErrEmailRequired)
  /\ fst (Login refBcrypt refCodec mongoService 1 (mkWorld [nameless] [] 1 [])
            (u_Email nameless) "password1")
     <> Err (Sentinel ErrInvalidCredentials).
Proof.
  split; [vm_compute; reflexivity|].
  split; [eexists; vm_compute; reflexivity|].
  split; [reflexivity|]. split; [discriminate|].
  split; [reflexivity | simpl; discriminate].
Qed.

Lemma C10_oauth_user_cannot_login_witness :
  snd (HandleGitHubCallback refCodec scenarioProvider scenarioOAuth mongoService
         0 emptyWorld "code")
    = mkWorld [octocat] [] 1 []
  /\ fst (Login refBcrypt refCodec mongoService 1 (mkWorld [octocat] [] 1 [])
            "x@y.com" "password1")
     = Err (Sentinel ErrInvalidCredentials).
Proof.
  split; [vm_compute; reflexivity|].
  refine (proj1 (proj1 C10_oauth_user_cannot_login World refBcrypt refCodec mongoService 1
                   (mkWorld [octocat] [] 1 []) octocat "password1" _ _) _ _).
  - reflexivity.
  - reflexivity.
  - discriminate.
  - discriminate.
Defined.

(* ================================================================ *)
(** * The provider linkage of an existing user *)

Section LinkageFacts.
Context {DB : Type}.
Variable J : JwtCodec.
Variable authService : Service DB.

Lemma issue_token_db (now : Z) (user : User) (db : DB) :
  snd (issue_token J authService now user db) = db.
Proof.
  unfold issue_token.
  destruct (GenerateToken J now (u_ID user) (u_Email user)
              (jwtSecret authService) (tokenDuration authService)); reflexivity.
Qed.

Lemma Google_existing_user (P : Provider GoogleUserInfo) (s : OAuthService)
    (now : Z) (db : DB) (code accessToken : string) (userInfo : GoogleUserInfo) (user : User) :
  code <> EmptyString ->
  exchangeCodeForToken P s code = Ok accessToken ->
  getUserInfo P s accessToken = Ok userInfo ->
  fst (repo_FindByEmail (userRepo authService) db (g_Email userInfo)) = Ok user ->
  let db1 := snd (repo_FindByEmail (userRepo authService) db (g_Email userInfo)) in
  let r := HandleGoogleCallback J P s authService now db code in
  (u_OAuthProvider user <> EmptyString ->
     r = issue_token J authService now user db1 /\ snd r = db1)
  /\ (u_OAuthProvider user = EmptyString ->
      r = let '((user', err), db2) :=
            repo_Update (userRepo authService) db1 now
              (with_OAuth user (g_ID userInfo) "google" now) in
          match err with
          | Some e => (Err (Wrap "failed to update user: " e), db2)
          | None => issue_token J authService now user' db2
          end).
Proof.
  intros Hc Hx Hi Hf. cbv zeta. unfold HandleGoogleCallback.
  rewrite (proj2 (is_empty_false _) Hc), Hx, Hi.
  destruct (repo_FindByEmail (userRepo authService) db (g_Email userInfo)) as [found db1].
  simpl in Hf. subst found. simpl snd. split.
  - intros Hl. rewrite (proj2 (is_empty_false _) Hl).
    split; [reflexivity | apply issue_token_db].
  - intros Hl. rewrite (proj2 (is_empty_true _) Hl). reflexivity.
Qed.

Lemma GitHub_existing_user (P : Provider GitHubUserInfo) (s : OAuthService)
    (now : Z) (db : DB) (code accessToken email : string) (userInfo : GitHubUserInfo)
    (user : User) :
  code <> EmptyString ->
  exchangeGitHubCodeForToken P s code = Ok accessToken ->
  getGitHubUserInfo P s accessToken = Ok userInfo ->
  getGitHubUserEmail P s accessToken = Ok email ->
  fst (repo_FindByEmail (userRepo authService) db email) = Ok user ->
  let db1 := snd (repo_FindByEmail (userRepo authService) db email) in
  let r := HandleGitHubCallback J P s authService now db code in
  (u_OAuthProvider user <> EmptyString ->
     r = issue_token J authService now user db1 /\ snd r = db1)
  /\ (u_OAuthProvider user = EmptyString ->
      r = let '((user', err), db2) :=
            repo_Update (userRepo authService) db1 now
              (with_OAuth user (Itoa (gh_ID userInfo)) "github" now) in
          match err with
          | Some e => (Err (Wrap "failed to update user: " e), db2)
          | None => issue_token J authService now user' db2
          end).
Proof.
  intros Hc Hx Hi He Hf. cbv zeta. unfold HandleGitHubCallback.
  rewrite (proj2 (is_empty_false _) Hc), Hx, Hi, He.
  destruct (repo_FindByEmail (userRepo authService) db email) as [found db1].
  simpl in Hf. subst found. simpl snd. split.
  - intros Hl. rewrite (proj2 (is_empty_false _) Hl).
    split; [reflexivity | apply issue_token_db].
  - intros Hl. rewrite (proj2 (is_empty_true _) Hl). reflexivity.
Qed.

End LinkageFacts.

(** The lookup of the Mongo repository writes nothing: whatever other
    processes insert meanwhile, every user document stored before is
    stored unchanged after, and the document it returns is a stored
    one. *)
Lemma env_step_keeps_users (w : World) (u : User) :
  In u (w_users w) -> In u (w_users (snd (env_step w))).
Proof.
  unfold env_step. destruct (w_env w) as [|ev rest]; [auto|].
  destruct ev as [|doc|msg]; simpl; auto.
  destruct (user_conflicts (w_users w) doc); simpl; auto.
  intros H. apply in_or_app. left. exact H.
Qed.

Lemma env_step_circles (w : World) : w_circles (snd (env_step w)) = w_circles w.
Proof.
  unfold env_step. destruct (w_env w) as [|ev rest]; [reflexivity|].
  destruct ev as [|doc|msg]; simpl; auto.
  destruct (user_conflicts (w_users w) doc); reflexivity.
Qed.

Lemma mongoUser_FindByEmail_frame (w w1 : World) (email : string) (r : result User) :
  mongoUser_FindByEmail w email = (r, w1) ->
  (forall u, In u (w_users w) -> In u (w_users w1))
  /\ w_circles w1 = w_circles w
  /\ (forall user, r = Ok user -> In user (w_users w1) /\ u_Email user = email).
Proof.
  unfold mongoUser_FindByEmail, mongoUser_FindBy, users_FindOne.
  pose proof (env_step_keeps_users w) as Hk.
  pose proof (env_step_circles w) as Hc.
  destruct (env_step w) as [fault w0]. simpl in Hk, Hc.
  destruct fault as [msg|].
  - simpl. intros H. inversion H; subst.
    split; [exact Hk|]. split; [exact Hc|]. intros x Hx. discriminate.
  - destruct (find (fun u => String.eqb (u_Email u) email) (w_users w0)) as [u|] eqn:Ef.
    + intros H. inversion H; subst.
      split; [exact Hk|]. split; [exact Hc|].
      intros x Hx. inversion Hx; subst. apply find_some in Ef.
      destruct Ef as [Hin Heq]. split; [exact Hin|]. apply String.eqb_eq. exact Heq.
    + simpl. intros H. inversion H; subst.
      split; [exact Hk|]. split; [exact Hc|]. intros x Hx. discriminate.
Qed.

(** C8. For a callback that resolves to an existing user (the lookup by
    the provider's email returns a record): when the record already
    carries a provider user id, the callback goes straight to issuing
    the token for that record -- it makes no call that writes, the
    user directory is left as the lookup left it, so the provider user
    id and the provider name stay what they were, whichever provider
    the callback is for; only when the record carries no provider user
    id does the callback write, and what it writes is the record with
    the two linkage fields set to this provider's.  With the Mongo
    repository the lookup itself changes no stored user. *)
Theorem C8_linkage_frame :
  (forall DB (J : JwtCodec) (authService : Service DB)
          (P : Provider GoogleUserInfo) (s : OAuthService)
          now db code accessToken userInfo user,
      code <> EmptyString ->
      exchangeCodeForToken P s code = Ok accessToken ->
      getUserInfo P s accessToken = Ok userInfo ->
      fst (repo_FindByEmail (userRepo authService) db (g_Email userInfo)) = Ok user ->
      let db1 := snd (repo_FindByEmail (userRepo authService) db (g_Email userInfo)) in
      let r := HandleGoogleCallback J P s authService now db code in
      (u_OAuthProvider user <> EmptyString ->
         r = issue_token J authService now user db1 /\ snd r = db1)
      /\ (u_OAuthProvider user = EmptyString ->
          r = let '((user', err), db2) :=
                repo_Update (userRepo authService) db1 now
                  (with_OAuth user (g_ID userInfo) "google" now) in
              match err with
              | Some e => (Err (Wrap "failed to update user: " e), db2)
              | None => issue_token J authService now user' db2
              end))
  /\ (forall DB (J : JwtCodec) (authService : Service DB)
          (P : Provider GitHubUserInfo) (s : OAuthService)
          now db code accessToken email userInfo user,
      code <> EmptyString ->
      exchangeGitHubCodeForToken P s code = Ok accessToken ->
      getGitHubUserInfo P s accessToken = Ok userInfo ->
      getGitHubUserEmail P s accessToken = Ok email ->
      fst (repo_FindByEmail (userRepo authService) db email) = Ok user ->
      let db1 := snd (repo_FindByEmail (userRepo authService) db email) in
      let r := HandleGitHubCallback J P s authService now db code in
      (u_OAuthProvider user <> EmptyString ->
         r = issue_token J authService now user db1 /\ snd r = db1)
      /\ (u_OAuthProvider user = EmptyString ->
          r = let '((user', err), db2) :=
                repo_Update (userRepo authService) db1 now
                  (with_OAuth user (Itoa (gh_ID userInfo)) "github" now) in
              match err with
              | Some e => (Err (Wrap "failed to update user: " e), db2)
              | None => issue_token J authService now user' db2
              end))
  /\ (forall w w1 email r,
      repo_FindByEmail mongoUserRepository w email = (r, w1) ->
      (forall u, In u (w_users w) -> In u (w_users w1))
      /\ w_circles w1 = w_circles w
      /\ (forall user, r = Ok user -> In user (w_users w1) /\ u_Email user = email)).
Proof.
  split; [|split].
  - intros DB J authService P s now db code accessToken userInfo user.
    apply Google_existing_user.
  - intros DB J authService P s now db code accessToken email userInfo user.
    apply GitHub_existing_user.
  - intros w w1 email r. apply mongoUser_FindByEmail_frame.
Qed.

(** A user linked to Google signs in through GitHub with the same
    email: the stored record keeps its Google linkage.  A user with no
    linkage gets the GitHub one. *)
Example linkage_kept :
  w_users (snd (HandleGitHubCallback refCodec scenarioProvider scenarioOAuth mongoService
                  9 (mkWorld [gina] [] 4 []) "code")) = [gina].
Proof. vm_compute. reflexivity. Qed.

Example linkage_backfilled :
  w_users (snd (HandleGitHubCallback refCodec scenarioProvider scenarioOAuth mongoService
                  9 (mkWorld [xavier] [] 4 []) "code"))
  = [mkUser (oid 4) "x@y.com" (ref_hash_prefix ++ "password1") "X"
       EmptyString "42" "github" 0 9].
Proof. vm_compute. reflexivity. Qed.

Lemma C8_linkage_frame_witness :
  HandleGitHubCallback refCodec scenarioProvider scenarioOAuth mongoService
    9 (mkWorld [gina] [] 4 []) "code"
  = issue_token refCodec mongoService 9 gina (mkWorld [gina] [] 4 []).
Proof.
  refine (proj1 (proj1 (proj1 (proj2 C8_linkage_frame) World refCodec mongoService
                   scenarioProvider scenarioOAuth 9 (mkWorld [gina] [] 4 []) "code"
                   "gho_token" "x@y.com" (mkGitHubUserInfo 42 "x" "X") gina
                   _ _ _ _ _) _)).
  - discriminate.
  - reflexivity.
  - reflexivity.
  - reflexivity.
  - reflexivity.
  - discriminate.
Defined.

(* ================================================================ *)
(** * Circle membership *)

Lemma memberExists_false (members : list CircleMember) (userID : ObjectID) :
  memberExists members userID = false <-> ~ In userID (map cm_UserID members).
Proof.
  induction members as [|m members IH]; simpl.
  - split; [intros _ H; exact H | reflexivity].
  - destruct (ObjectID_eqb (cm_UserID m) userID) eqn:E.
    + apply ObjectID_eqb_eq in E. split; [discriminate|]. intros H. exfalso. apply H. auto.
    + apply ObjectID_eqb_neq in E. rewrite IH. split.
      * intros H [H1|H1]; [contradiction | exact (H H1)].
      * intros H H1. apply H. right. exact H1.
Qed.

Lemma find_replace_first {A} (p : A -> bool) (f : A -> A) (l : list A) :
  (forall x, p x = true -> p (f x) = true) ->
  find p (replace_first p f l) = option_map f (find p l).
Proof.
  intros Hf. induction l as [|x l IH]; simpl; [reflexivity|].
  destruct (p x) eqn:E; simpl.
  - rewrite (Hf x E). reflexivity.
  - rewrite E. exact IH.
Qed.

Lemma map_UserID_replace_first (p : CircleMember -> bool) (lvl : AccessLevel)
    (l : list CircleMember) :
  map cm_UserID (replace_first p (fun m => with_AccessLevel m lvl) l) = map cm_UserID l.
Proof.
  induction l as [|x l IH]; simpl; [reflexivity|].
  destruct (p x); simpl; [reflexivity | rewrite IH; reflexivity].
Qed.

Lemma unique_members_filter (q : CircleMember -> bool) (l : list CircleMember) :
  unique_members l -> unique_members (filter q l).
Proof.
  unfold unique_members. induction l as [|x l IH]; simpl; intros H; [exact H|].
  inversion H as [|? ? Hnin Hnd]; subst.
  destruct (q x); simpl; [|apply IH; exact Hnd].
  constructor; [|apply IH; exact Hnd].
  intros Hin. apply Hnin. apply in_map_iff in Hin. destruct Hin as [y [Hy Hin]].
  apply filter_In in Hin. apply in_map_iff. exists y. tauto.
Qed.

Lemma unique_members_snoc (l : list CircleMember) (m : CircleMember) :
  unique_members l -> ~ In (cm_UserID m) (map cm_UserID l) -> unique_members (l ++ [m]).
Proof.
  unfold unique_members. induction l as [|x l IH]; simpl; intros H Hn.
  - constructor; [intros []|constructor].
  - inversion H as [|? ? Hnin Hnd]; subst. constructor.
    + rewrite map_app, in_app_iff. simpl. intros [H1|[H1|[]]]; [contradiction|].
      apply Hn. left. symmetry. exact H1.
    + apply IH; [exact Hnd|]. intros H1. apply Hn. right. exact H1.
Qed.

Lemma entries_of_snoc (l : list CircleMember) (m : CircleMember) :
  entries_of (l ++ [m]) (cm_UserID m) = S (entries_of l (cm_UserID m)).
Proof.
  unfold entries_of. rewrite filter_app, length_app. simpl.
  rewrite ObjectID_eqb_refl. simpl. apply Nat.add_1_r.
Qed.

Lemma entries_of_present (l : list CircleMember) (userID : ObjectID) :
  memberExists l userID = true -> (1 <= entries_of l userID)%nat.
Proof.
  unfold entries_of. induction l as [|x l IH]; simpl; [discriminate|].
  destruct (ObjectID_eqb (cm_UserID x) userID); simpl; intros H.
  - apply le_n_S, Nat.le_0_l.
  - apply IH. exact H.
Qed.

Lemma unique_members_entries (l : list CircleMember) (userID : ObjectID) :
  unique_members l -> (entries_of l userID <= 1)%nat.
Proof.
  unfold unique_members, entries_of. induction l as [|x l IH]; simpl; intros H.
  - apply Nat.le_0_l.
  - inversion H as [|? ? Hnin Hnd]; subst.
    destruct (ObjectID_eqb (cm_UserID x) userID) eqn:E; simpl; [|apply IH; exact Hnd].
    apply ObjectID_eqb_eq in E. subst userID.
    apply le_n_S. apply Nat.le_0_r.
    destruct (filter _ l) as [|y r] eqn:Ef; [reflexivity|].
    exfalso. apply Hnin.
    assert (Hy : In y (filter (fun m => ObjectID_eqb (cm_UserID m) (cm_UserID x)) l))
      by (rewrite Ef; left; reflexivity).
    apply filter_In in Hy. destruct Hy as [Hy1 Hy2].
    apply ObjectID_eqb_eq in Hy2. rewrite <- Hy2. apply in_map. exact Hy1.
Qed.

(** The circle lookup on the database. *)
Lemma mongoCircle_FindByID_spec (w : World) (id : ObjectID) :
  let w1 := snd (env_step w) in
  snd (mongoCircle_FindByID w id) = w1
  /\ w_circles w1 = w_circles w
  /\ (forall c, fst (mongoCircle_FindByID w id) = Ok c ->
        find (fun c => ObjectID_eqb (c_ID c) id) (w_circles w) = Some c).
Proof.
  cbv zeta. unfold mongoCircle_FindByID, circles_FindOne.
  pose proof (env_step_circles w) as Hc.
  destruct (env_step w) as [fault w1]. simpl in Hc. simpl snd.
  destruct fault as [msg|]; simpl.
  - repeat split; auto. intros c H. discriminate.
  - rewrite Hc.
    destruct (find (fun c => ObjectID_eqb (c_ID c) id) (w_circles w)) as [c|]; simpl.
    + repeat split; auto. intros c' H. inversion H. reflexivity.
    + repeat split; auto. intros c' H. discriminate.
Qed.

Lemma RemoveMember_absent (w : World) (now : Z) (circleID userID : ObjectID) :
  memberExists (members_of w circleID) userID = false ->
  (exists e, fst (RemoveMember w now circleID userID) = Some e)
  /\ w_circles (snd (RemoveMember w now circleID userID)) = w_circles w.
Proof.
  intros Habs. unfold RemoveMember.
  destruct (mongoCircle_FindByID_spec w circleID) as [Hs [Hc Hf]].
  destruct (mongoCircle_FindByID w circleID) as [r w1]. simpl in Hs, Hf. subst w1.
  destruct r as [c|e].
  - unfold members_of in Habs. rewrite (Hf c eq_refl) in Habs. rewrite Habs. simpl.
    split; [eexists; reflexivity | exact Hc].
  - simpl. split; [eexists; reflexivity | exact Hc].
Qed.

Lemma UpdateMemberAccess_absent (w : World) (now : Z) (circleID userID : ObjectID)
    (lvl : AccessLevel) :
  memberExists (members_of w circleID) userID = false ->
  (exists e, fst (UpdateMemberAccess w now circleID userID lvl) = Some e)
  /\ w_circles (snd (UpdateMemberAccess w now circleID userID lvl)) = w_circles w.
Proof.
  intros Habs. unfold UpdateMemberAccess.
  destruct (mongoCircle_FindByID_spec w circleID) as [Hs [Hc Hf]].
  destruct (mongoCircle_FindByID w circleID) as [r w1]. simpl in Hs, Hf. subst w1.
  destruct r as [c|e].
  - unfold members_of in Habs. rewrite (Hf c eq_refl) in Habs. rewrite Habs. simpl.
    split; [eexists; reflexivity | exact Hc].
  - simpl. split; [eexists; reflexivity | exact Hc].
Qed.

Lemma AddMember_appends (w : World) (now : Z) (circleID : ObjectID) (member : CircleMember) :
  fst (env_step w) = None ->
  existsb (fun c => ObjectID_eqb (c_ID c) circleID) (w_circles w) = true ->
  fst (AddMember w now circleID member) = None
  /\ members_of (snd (AddMember w now circleID member)) circleID
     = (members_of w circleID ++ [member])%list.
Proof.
  intros Hq Hex. unfold AddMember, circles_UpdateOne.
  pose proof (env_step_circles w) as Hc.
  destruct (env_step w) as [fault w1]. simpl in Hq, Hc. subst fault.
  rewrite Hc, Hex. simpl. split; [reflexivity|].
  unfold members_of. simpl.
  rewrite find_replace_first by (intros x Hx; exact Hx).
  destruct (find (fun c => ObjectID_eqb (c_ID c) circleID) (w_circles w)) as [c|] eqn:Ef.
  - reflexivity.
  - exfalso. apply existsb_exists in Hex. destruct Hex as [c [Hin Hc']].
    apply (find_none _ _ Ef) in Hin. simpl in Hin. congruence.
Qed.

Lemma In_replace_first_find {A} (p : A -> bool) (f : A -> A) (l : list A) (y : A) :
  In y (replace_first p f l) -> In y l \/ exists x, find p l = Some x /\ y = f x.
Proof.
  induction l as [|x l IH]; simpl; [auto|].
  destruct (p x); simpl.
  - intros [H|H]; [right; exists x; auto | left; auto].
  - intros [H|H]; [left; auto|].
    destruct (IH H) as [H1|H1]; [left; auto | right; exact H1].
Qed.

Lemma circles_UpdateOne_unique (w : World) (p : Circle -> bool) (upd : Circle -> Circle) :
  (forall c, find p (w_circles w) = Some c ->
             unique_members (c_Members c) -> unique_members (c_Members (upd c))) ->
  circles_unique w ->
  circles_unique (snd (circles_UpdateOne w p upd)).
Proof.
  intros Hupd Hu. unfold circles_UpdateOne.
  pose proof (env_step_circles w) as Hc.
  destruct (env_step w) as [fault w1]. simpl in Hc.
  assert (Hu1 : circles_unique w1) by (unfold circles_unique; rewrite Hc; exact Hu).
  destruct fault as [msg|]; [exact Hu1|].
  destruct (existsb p (w_circles w1)); [|exact Hu1].
  unfold circles_unique. simpl. intros c Hin.
  apply In_replace_first_find in Hin. destruct Hin as [Hin|[x [Hx ->]]].
  - apply Hu1. exact Hin.
  - rewrite Hc in Hx. apply Hupd; [exact Hx|].
    apply Hu. apply find_some in Hx. tauto.
Qed.

Lemma circles_unique_env (w : World) :
  circles_unique w -> circles_unique (snd (env_step w)).
Proof. unfold circles_unique. rewrite env_step_circles. auto. Qed.

Lemma RemoveMember_unique (w : World) (now : Z) (circleID userID : ObjectID) :
  circles_unique w -> circles_unique (snd (RemoveMember w now circleID userID)).
Proof.
  intros Hu. unfold RemoveMember.
  destruct (mongoCircle_FindByID_spec w circleID) as [Hs [Hc _]].
  destruct (mongoCircle_FindByID w circleID) as [r w1]. simpl in Hs. subst w1.
  pose proof (circles_unique_env w Hu) as Hu1.
  destruct r as [c|e]; [|exact Hu1].
  destruct (negb (memberExists (c_Members c) userID)); [exact Hu1|].
  pose proof (circles_UpdateOne_unique (snd (env_step w))
                (fun c => ObjectID_eqb (c_ID c) circleID)
                (fun c => with_Members c
                            (filter (fun m => negb (ObjectID_eqb (cm_UserID m) userID))
                               (c_Members c)) now)) as Hupd.
  destruct (circles_UpdateOne (snd (env_step w)) _ _) as [[err matched] w2].
  simpl in Hupd.
  assert (Hu2 : circles_unique w2).
  { apply Hupd; [|exact Hu1]. intros c0 _ H0. apply unique_members_filter. exact H0. }
  destruct err; [exact Hu2|]. destruct (matched =? 0); exact Hu2.
Qed.

Lemma UpdateMemberAccess_unique (w : World) (now : Z) (circleID userID : ObjectID)
    (lvl : AccessLevel) :
  circles_unique w -> circles_unique (snd (UpdateMemberAccess w now circleID userID lvl)).
Proof.
  intros Hu. unfold UpdateMemberAccess.
  destruct (mongoCircle_FindByID_spec w circleID) as [Hs [Hc _]].
  destruct (mongoCircle_FindByID w circleID) as [r w1]. simpl in Hs. subst w1.
  pose proof (circles_unique_env w Hu) as Hu1.
  destruct r as [c|e]; [|exact Hu1].
  destruct (negb (memberExists (c_Members c) userID)); [exact Hu1|].
  pose proof (circles_UpdateOne_unique (snd (env_step w))
                (fun c => ObjectID_eqb (c_ID c) circleID
                          && existsb (fun m => ObjectID_eqb (cm_UserID m) userID) (c_Members c))
                (fun c => with_Members c
                            (replace_first (fun m => ObjectID_eqb (cm_UserID m) userID)
                               (fun m => with_AccessLevel m lvl) (c_Members c)) now)) as Hupd.
  destruct (circles_UpdateOne (snd (env_step w)) _ _) as [[err matched] w2].
  simpl in Hupd.
  assert (Hu2 : circles_unique w2).
  { apply Hupd; [|exact Hu1]. intros c0 _ H0. unfold unique_members.
    rewrite map_UserID_replace_first. exact H0. }
  destruct err; [exact Hu2|]. destruct (matched =? 0); exact Hu2.
Qed.

Lemma AddMember_unique_when_absent (w : World) (now : Z) (circleID : ObjectID)
    (member : CircleMember) :
  circles_unique w ->
  memberExists (members_of w circleID) (cm_UserID member) = false ->
  circles_unique (snd (AddMember w now circleID member)).
Proof.
  intros Hu Habs. unfold AddMember.
  pose proof (circles_UpdateOne_unique w
                (fun c => ObjectID_eqb (c_ID c) circleID)
                (fun c => with_Members c (c_Members c ++ [member]) now)) as Hupd.
  destruct (circles_UpdateOne w _ _) as [[err matched] w2]. simpl in Hupd.
  assert (Hu2 : circles_unique w2).
  { apply Hupd; [|exact Hu]. intros c Hf H0. simpl.
    apply unique_members_snoc; [exact H0|].
    apply memberExists_false. unfold members_of in Habs. rewrite Hf in Habs. exact Habs. }
  destruct err; [exact Hu2|]. destruct (matched =? 0); exact Hu2.
Qed.

Lemma AddMember_duplicates_when_present (w : World) (now : Z) (circleID : ObjectID)
    (member : CircleMember) :
  fst (env_step w) = None ->
  memberExists (members_of w circleID) (cm_UserID member) = true ->
  fst (AddMember w now circleID member) = None
  /\ (2 <= entries_of (members_of (snd (AddMember w now circleID member)) circleID)
             (cm_UserID member))%nat
  /\ ~ circles_unique (snd (AddMember w now circleID member)).
Proof.
  intros Hq Hpres.
  assert (Hex : existsb (fun c => ObjectID_eqb (c_ID c) circleID) (w_circles w) = true).
  { unfold members_of in Hpres.
    destruct (find (fun c => ObjectID_eqb (c_ID c) circleID) (w_circles w)) as [c|] eqn:Ef;
      [|discriminate].
    apply existsb_exists. exists c. apply find_some in Ef. exact Ef. }
  destruct (AddMember_appends w now circleID member Hq Hex) as [Hok Hms].
  split; [exact Hok|].
  assert (H2 : (2 <= entries_of (members_of (snd (AddMember w now circleID member)) circleID)
                       (cm_UserID member))%nat).
  { rewrite Hms, entries_of_snoc. apply le_n_S. apply entries_of_present. exact Hpres. }
  split; [exact H2|].
  intros Hu. revert H2. unfold members_of.
  destruct (find (fun c => ObjectID_eqb (c_ID c) circleID)
              (w_circles (snd (AddMember w now circleID member)))) as [c|] eqn:Ef.
  - intros H2. apply find_some in Ef. destruct Ef as [Hin _].
    pose proof (unique_members_entries _ (cm_UserID member) (Hu c Hin)) as H1.
    lia.
  - unfold entries_of. simpl. lia.
Qed.

(** C4 (as the code has it). [RemoveMember] and [UpdateMemberAccess]
    fail when the user id is not among the members of the circle, and
    then leave the circles as they were.  [AddMember] does not look at
    the members: when the circle exists (and the driver call goes
    through) it succeeds and appends the entry, also for a user id that
    is already present, which then has two entries.  So
    [RemoveMember] and [UpdateMemberAccess] keep the invariant that a
    user id appears at most once per member list, and [AddMember]
    keeps it exactly for user ids that are not yet present. *)
Theorem C4_membership_operations (w : World) (now : Z) (circleID userID : ObjectID)
    (accessLevel : AccessLevel) (member : CircleMember) :
  (memberExists (members_of w circleID) userID = false ->
     (exists e, fst (RemoveMember w now circleID userID) = Some e)
     /\ w_circles (snd (RemoveMember w now circleID userID)) = w_circles w)
  /\ (memberExists (members_of w circleID) userID = false ->
     (exists e, fst (UpdateMemberAccess w now circleID userID accessLevel) = Some e)
     /\ w_circles (snd (UpdateMemberAccess w now circleID userID accessLevel)) = w_circles w)
  /\ (fst (env_step w) = None ->
      existsb (fun c => ObjectID_eqb (c_ID c) circleID) (w_circles w) = true ->
      fst (AddMember w now circleID member) = None
      /\ members_of (snd (AddMember w now circleID member)) circleID
         = (members_of w circleID ++ [member])%list)
  /\ (fst (env_step w) = None ->
      memberExists (members_of w circleID) (cm_UserID member) = true ->
      fst (AddMember w now circleID member) = None
      /\ (2 <= entries_of (members_of (snd (AddMember w now circleID member)) circleID)
                 (cm_UserID member))%nat
      /\ ~ circles_unique (snd (AddMember w now circleID member)))
  /\ (circles_unique w ->
      circles_unique (snd (RemoveMember w now circleID userID))
      /\ circles_unique (snd (UpdateMemberAccess w now circleID userID accessLevel))
      /\ (memberExists (members_of w circleID) (cm_UserID member) = false ->
          circles_unique (snd (AddMember w now circleID member)))).
Proof.
  split; [apply RemoveMember_absent|].
  split; [apply UpdateMemberAccess_absent|].
  split; [apply AddMember_appends|].
  split; [apply AddMember_duplicates_when_present|].
  intros Hu.
  split; [apply RemoveMember_unique; exact Hu|].
  split; [apply UpdateMemberAccess_unique; exact Hu|].
  apply AddMember_unique_when_absent. exact Hu.
Qed.

(** C4 as the specification words it fails for [AddMember]: adding a user who is
    already a member of the circle succeeds and leaves two entries for
    that user. *)
Lemma C4_counterexample :
  memberExists (members_of friendsWorld (oid 5)) (oid 7) = true
  /\ fst (AddMember friendsWorld 1 (oid 5) (mkCircleMember (oid 7) AccessLevelEdit 1 None))
     = None
  /\ members_of
       (snd (AddMember friendsWorld 1 (oid 5) (mkCircleMember (oid 7) AccessLevelEdit 1 None)))
       (oid 5)
     = [viewer; mkCircleMember (oid 7) AccessLevelEdit 1 None]
  /\ entries_of
       (members_of
          (snd (AddMember friendsWorld 1 (oid 5)
                  (mkCircleMember (oid 7) AccessLevelEdit 1 None)))
          (oid 5))
       (oid 7) = 2%nat.
Proof. repeat split; vm_compute; reflexivity. Qed.

Lemma C4_membership_operations_witness :
  (exists e, fst (RemoveMember friendsWorld 1 (oid 5) (oid 8)) = Some e)
  /\ (exists e, fst (UpdateMemberAccess friendsWorld 1 (oid 5) (oid 8) AccessLevelEdit) = Some e)
  /\ fst (AddMember friendsWorld 1 (oid 5) (mkCircleMember (oid 7) AccessLevelEdit 1 None))
     = None.
Proof.
  pose proof (C4_membership_operations friendsWorld 1 (oid 5) (oid 8) AccessLevelEdit
                (mkCircleMember (oid 7) AccessLevelEdit 1 None)) as H.
  destruct H as [Hr [Hu [Ha _]]].
  split; [exact (proj1 (Hr eq_refl))|].
  split; [exact (proj1 (Hu eq_refl))|].
  exact (proj1 (Ha eq_refl eq_refl)).
Defined.

(* ================================================================ *)
(** * Token round trip *)

Lemma append_nonempty (a b : string) (c : ascii) : is_empty (a ++ String c b) = false.
Proof. destruct a; reflexivity. Qed.

Lemma Unix_le (t : Z) : Unix t * second <= t.
Proof.
  unfold Unix, second.
  pose proof (Z.mul_div_le t 1000000000). lia.
Qed.

Lemma Unix_gt (t : Z) : t - second < Unix t * second.
Proof.
  unfold Unix, second.
  pose proof (Z.div_mod t 1000000000).
  pose proof (Z.mod_pos_bound t 1000000000). lia.
Qed.

Section TokenFacts.
Variable J : JwtCodec.

Lemma GenerateToken_ok (now : Z) (userID : ObjectID) (email secret : string) (duration : Z) :
  GenerateToken J now userID email secret duration
  = Ok (token_of J now userID email secret duration).
Proof. reflexivity. Qed.

(** Validation of a generated token at the instant [t]: it succeeds
    exactly while [t] lies before the expiry, a whole number of
    seconds -- and at every instant when that number is 0, which the
    library reads as no expiry. *)
Lemma ValidateToken_generated (now t : Z) (userID : ObjectID) (email secret : string)
    (duration : Z) :
  reads_back J now userID email secret duration ->
  ValidateToken J t (token_of J now userID email secret duration) secret
  = if (Unix (now + duration) =? 0) || (t <? Unix (now + duration) * second)
    then Ok (mkClaims (Hex userID) email (Unix (now + duration)))
    else Err (ErrorString "token has invalid claims: token is expired").
Proof.
  intros Hrb. unfold ValidateToken.
  assert (Hne : is_empty (token_of J now userID email secret duration) = false).
  { unfold token_of. apply append_nonempty. }
  rewrite Hne. unfold jwt_Parse. rewrite Hrb. simpl.
  unfold hmac_Verify. simpl. rewrite String.eqb_refl.
  unfold validate_claims, verifyNotBefore, parseNumericDate. simpl.
  destruct (Unix (now + duration) =? 0); simpl; [reflexivity|].
  destruct (t <? Unix (now + duration) * second); reflexivity.
Qed.

Lemma ValidateToken_generated_ok (now t : Z) (userID : ObjectID) (email secret : string)
    (duration : Z) :
  reads_back J now userID email secret duration ->
  Unix (now + duration) = 0 \/ t < Unix (now + duration) * second ->
  ValidateToken J t (token_of J now userID email secret duration) secret
  = Ok (mkClaims (Hex userID) email (Unix (now + duration))).
Proof.
  intros Hrb H. rewrite (ValidateToken_generated now t userID email secret duration Hrb).
  destruct H as [H|H].
  - rewrite (proj2 (Z.eqb_eq _ _) H). reflexivity.
  - rewrite (proj2 (Z.ltb_lt _ _) H), orb_true_r. reflexivity.
Qed.

Lemma ValidateToken_generated_expired (now t : Z) (userID : ObjectID) (email secret : string)
    (duration : Z) :
  reads_back J now userID email secret duration ->
  Unix (now + duration) <> 0 -> Unix (now + duration) * second <= t ->
  ValidateToken J t (token_of J now userID email secret duration) secret
  = Err (ErrorString "token has invalid claims: token is expired").
Proof.
  intros Hrb Hz Ht. rewrite (ValidateToken_generated now t userID email secret duration Hrb).
  rewrite (proj2 (Z.eqb_neq _ _) Hz), (proj2 (Z.ltb_ge _ _) Ht). reflexivity.
Qed.

End TokenFacts.

(** C1 (as the code has it). For every user id, email, secret and
    duration [d], [GenerateToken] returns a token without error.  The
    expiry it encodes is [now + d] cut down to whole seconds; the
    library accepts a token strictly before its expiry, and reads an
    expiry of 0 as no expiry at all.  So, for a token that the codec
    reads back as written, [ValidateToken] at the instant [t] with the
    same secret returns the claims with [UserID = userID.Hex()] and
    [Email = email] when [t] lies before that expiry or the expiry is
    0, and fails with "token is expired" otherwise.  In particular
    validation at the instant of generation succeeds for every [d] of
    at least one second, and validation at or after the instant of
    generation fails for every [d <= 0] whose expiry is not 0. *)
Theorem C1_token_round_trip (J : JwtCodec) (now t : Z) (userID : ObjectID)
    (email secret : string) (d : Z) :
  let tok := token_of J now userID email secret d in
  let ok := Ok (mkClaims (Hex userID) email (Unix (now + d))) in
  let expired := Err (ErrorString "token has invalid claims: token is expired") in
  GenerateToken J now userID email secret d = Ok tok
  /\ (reads_back J now userID email secret d ->
      (t < Unix (now + d) * second -> ValidateToken J t tok secret = ok)
      /\ (Unix (now + d) = 0 -> ValidateToken J t tok secret = ok)
      /\ (Unix (now + d) <> 0 -> Unix (now + d) * second <= t ->
          ValidateToken J t tok secret = expired)
      /\ (second <= d -> ValidateToken J now tok secret = ok)
      /\ (d <= 0 -> now <= t -> Unix (now + d) <> 0 ->
          ValidateToken J t tok secret = expired)).
Proof.
  cbv zeta.
  split; [apply GenerateToken_ok|].
  intros Hrb.
  pose proof (Unix_le (now + d)) as Hle.
  pose proof (Unix_gt (now + d)) as Hgt.
  split.
  { intros Ht. apply ValidateToken_generated_ok; [exact Hrb | right; exact Ht]. }
  split.
  { intros Hz. apply ValidateToken_generated_ok; [exact Hrb | left; exact Hz]. }
  split.
  { intros Hz Ht. apply ValidateToken_generated_expired; assumption. }
  split.
  { intros Hd. apply ValidateToken_generated_ok; [exact Hrb | right; lia]. }
  intros Hd Ht Hz. apply ValidateToken_generated_expired; [exact Hrb | exact Hz | lia].
Qed.

(** C1 as the specification words it fails in both halves.  For a
    positive duration of less than a second the expiry is cut down to
    the second the clock is in, and the token is expired at the very
    instant it is generated.  For the duration that takes the expiry
    back to the first second of the epoch the expiry is 0, and the
    token, though made with [d <= 0], is accepted. *)
Lemma C1_counterexample :
  0 < 1
  /\ GenerateToken refCodec (5 * second) (oid 1) "a@b.com" "k" 1
     = Ok (token_of refCodec (5 * second) (oid 1) "a@b.com" "k" 1)
  /\ ValidateToken refCodec (5 * second)
       (token_of refCodec (5 * second) (oid 1) "a@b.com" "k" 1) "k"
     = Err (ErrorString "token has invalid claims: token is expired")
  /\ - (5 * second) <= 0
  /\ GenerateToken refCodec (5 * second) (oid 1) "a@b.com" "k" (- (5 * second))
     = Ok (token_of refCodec (5 * second) (oid 1) "a@b.com" "k" (- (5 * second)))
  /\ ValidateToken refCodec (5 * second)
       (token_of refCodec (5 * second) (oid 1) "a@b.com" "k" (- (5 * second))) "k"
     = Ok (mkClaims (Hex (oid 1)) "a@b.com" 0).
Proof.
  split; [reflexivity|]. split; [reflexivity|]. split; [vm_compute; reflexivity|].
  split; [vm_compute; discriminate|]. split; [reflexivity|]. vm_compute. reflexivity.
Qed.

Lemma C1_token_round_trip_witness :
  ValidateToken refCodec (5 * second + 3)
    (token_of refCodec (5 * second + 3) (oid 1) "a@b.com" "k" (3600 * second)) "k"
  = Ok (mkClaims (Hex (oid 1)) "a@b.com" 3605)
  /\ ValidateToken refCodec (5 * second + 3)
       (token_of refCodec (5 * second + 3) (oid 1) "a@b.com" "k" 0) "k"
     = Err (ErrorString "token has invalid claims: token is expired").
Proof.
  split.
  - refine (proj1 (proj2 (proj2 (proj2
              (proj2 (C1_token_round_trip refCodec (5 * second + 3) (5 * second + 3) (oid 1)
                        "a@b.com" "k" (3600 * second)) _)))) _).
    + vm_compute. reflexivity.
    + vm_compute. discriminate.
  - refine (proj2 (proj2 (proj2 (proj2
              (proj2 (C1_token_round_trip refCodec (5 * second + 3) (5 * second + 3) (oid 1)
                        "a@b.com" "k" 0) _)))) _ _ _).
    + vm_compute. reflexivity.
    + vm_compute. discriminate.
    + vm_compute. discriminate.
    + vm_compute. discriminate.
Defined.

(* ================================================================ *)
(** * Token validation: what is accepted *)

(** X1. [ValidateToken] returns claims only for a non-empty token that
    parses, names an HMAC method, carries the MAC of its signing text
    under the given secret and an [exp] that is a number, either 0
    (which the library reads as no expiry) or a second that lies
    strictly after the current instant; the claims returned are the
    ones in the token.  In particular a token without [exp] is refused
    although the library itself would let it pass. *)
Theorem ValidateToken_accepts_only (J : JwtCodec) (now : Z) (tokenString secret : string)
    (c : Claims) :
  ValidateToken J now tokenString secret = Ok c ->
  tokenString <> EmptyString
  /\ exists token,
       jwt_parse_unverified J tokenString = Some token
       /\ is_HMAC (t_Method token) = true
       /\ jwt_hmac J (t_Method token) secret (t_SigningText token) = t_Signature token
       /\ claim (t_Claims token) "user_id" = Some (VString (cl_UserID c))
       /\ claim (t_Claims token) "email" = Some (VString (cl_Email c))
       /\ claim (t_Claims token) "exp" = Some (VFloat64 (cl_ExpiresAt c))
       /\ (cl_ExpiresAt c = 0 \/ now < cl_ExpiresAt c * second).
Proof.
  unfold ValidateToken, jwt_Parse.
  destruct (is_empty tokenString) eqn:Ee; [discriminate|].
  destruct (jwt_parse_unverified J tokenString) as [token|]; [|discriminate].
  destruct (is_HMAC (t_Method token)) eqn:Em; simpl; [|discriminate].
  unfold hmac_Verify.
  destruct (String.eqb (jwt_hmac J (t_Method token) secret (t_SigningText token))
              (t_Signature token)) eqn:Es; [|discriminate].
  destruct (validate_claims now (t_Claims token)) as [e|] eqn:Ev; [discriminate|].
  destruct (claim (t_Claims token) "user_id") as [[uid| | |]|] eqn:Eu; try discriminate.
  destruct (claim (t_Claims token) "email") as [[em| | |]|] eqn:Em'; try discriminate.
  destruct (claim (t_Claims token) "exp") as [[| |exp|]|] eqn:Ex; try discriminate.
  intros H. inversion H; subst c. simpl.
  split; [apply is_empty_false; exact Ee|].
  exists token. repeat split; try assumption.
  - apply String.eqb_eq. exact Es.
  - unfold validate_claims, parseNumericDate in Ev. rewrite Ex in Ev.
    destruct (exp =? 0) eqn:Ez; [left; apply Z.eqb_eq; exact Ez|].
    destruct (now <? exp * second) eqn:El; [right; apply Z.ltb_lt; exact El | discriminate].
Qed.

Lemma ValidateToken_accepts_only_witness :
  exists token,
    jwt_parse_unverified refCodec (token_of refCodec 7 (oid 1) "a@b.com" "k" (2 * second))
      = Some token
    /\ is_HMAC (t_Method token) = true
    /\ (2 = 0 \/ 7 < 2 * second).
Proof.
  destruct (ValidateToken_accepts_only refCodec 7
              (token_of refCodec 7 (oid 1) "a@b.com" "k" (2 * second)) "k"
              (mkClaims (Hex (oid 1)) "a@b.com" 2))
    as [_ [token [Hp [Hm [_ [_ [_ [_ Hlt]]]]]]]].
  - vm_compute. reflexivity.
  - exists token. split; [exact Hp|]. split; [exact Hm | exact Hlt].
Defined.

(** X2. A token made by [GenerateToken] with one secret is refused
    under any secret that gives the signed text a different MAC, with
    the library's signature error, at any instant. *)
Theorem ValidateToken_wrong_secret (J : JwtCodec) (now t : Z) (userID : ObjectID)
    (email secret secret' : string) (d : Z) :
  reads_back J now userID email secret d ->
  jwt_hmac J HS256 secret' (token_text J now userID email d)
    <> jwt_hmac J HS256 secret (token_text J now userID email d) ->
  ValidateToken J t (token_of J now userID email secret d) secret'
  = Err (ErrorString "token signature is invalid: signature is invalid").
Proof.
  intros Hrb Hmac. unfold ValidateToken.
  assert (Hne : is_empty (token_of J now userID email secret d) = false).
  { unfold token_of. apply append_nonempty. }
  rewrite Hne. unfold jwt_Parse. rewrite Hrb. simpl.
  unfold hmac_Verify. simpl.
  rewrite (proj2 (String.eqb_neq _ _) Hmac). reflexivity.
Qed.

Lemma ValidateToken_wrong_secret_witness :
  ValidateToken refCodec 7 (token_of refCodec 7 (oid 1) "a@b.com" "k" (3600 * second))
    "wrong-secret"
  = Err (ErrorString "token signature is invalid: signature is invalid").
Proof.
  apply (ValidateToken_wrong_secret refCodec 7 7 (oid 1) "a@b.com" "k" "wrong-secret"
           (3600 * second)).
  - vm_compute. reflexivity.
  - vm_compute. discriminate.
Defined.

(** X3. [ValidateToken] refuses, whatever the secret and the instant:
    the empty string ("token is empty"); a string the library cannot
    take apart; and every token whose header names a method that is
    not HMAC, before its signature is looked at. *)
Theorem ValidateToken_refuses (J : JwtCodec) (now : Z) (tokenString secret : string) :
  (tokenString = EmptyString ->
     ValidateToken J now tokenString secret = Err (ErrorString "token is empty"))
  /\ (tokenString <> EmptyString ->
      jwt_parse_unverified J tokenString = None ->
      ValidateToken J now tokenString secret = Err (ErrorString "token is malformed"))
  /\ (forall token,
        tokenString <> EmptyString ->
        jwt_parse_unverified J tokenString = Some token ->
        is_HMAC (t_Method token) = false ->
        ValidateToken J now tokenString secret
        = Err (Wrap "token is unverifiable: error while executing keyfunc: "
                 (ErrorString "invalid signing method"))).
Proof.
  unfold ValidateToken, jwt_Parse. split; [|split].
  - intros ->. reflexivity.
  - intros Hne Hp. rewrite (proj2 (is_empty_false _) Hne), Hp. reflexivity.
  - intros token Hne Hp Hm. rewrite (proj2 (is_empty_false _) Hne), Hp, Hm. reflexivity.
Qed.

Lemma ValidateToken_refuses_witness :
  ValidateToken refCodec 0 "this.is.not.a.valid.jwt" "k"
    = Err (ErrorString "token is malformed")
  /\ ValidateToken refCodec 0 "none.757365725f69643d7330313b.00" "k"
     = Err (Wrap "token is unverifiable: error while executing keyfunc: "
              (ErrorString "invalid signing method")).
Proof.
  split.
  - refine (proj1 (proj2 (ValidateToken_refuses refCodec 0 "this.is.not.a.valid.jwt" "k")) _ _).
    + discriminate.
    + vm_compute. reflexivity.
  - refine (proj2 (proj2 (ValidateToken_refuses refCodec 0
                            "none.757365725f69643d7330313b.00" "k"))
              (mkParsedToken (OtherMethod "none") [("user_id", VString (str1 1))]
                 "none.757365725f69643d7330313b" (str1 0)) _ _ _).
    + discriminate.
    + vm_compute. reflexivity.
    + reflexivity.
Defined.

(* ================================================================ *)
(** * The authorization header *)

Lemma split_on_not_nil (sep : ascii) (s : string) : split_on sep s <> [].
Proof.
  destruct s as [|c r]; simpl; [discriminate|].
  destruct (Ascii.eqb c sep); [discriminate|].
  destruct (split_on sep r); discriminate.
Qed.

Lemma split_on_single (sep : ascii) (s b : string) :
  split_on sep s = [b] -> s = b /\ contains_char sep b = false.
Proof.
  revert b. induction s as [|c r IH]; simpl; intros b H.
  - inversion H. split; reflexivity.
  - pose proof (split_on_not_nil sep r) as Hnn.
    destruct (Ascii.eqb c sep) eqn:E.
    + destruct (split_on sep r); [contradiction | discriminate].
    + destruct (split_on sep r) as [|h t] eqn:Er; [contradiction|].
      inversion H; subst. destruct (IH h eq_refl) as [-> Hc].
      split; [reflexivity|]. simpl. rewrite E. exact Hc.
Qed.

Lemma split_on_pair (sep : ascii) (s a b : string) :
  split_on sep s = [a; b] ->
  s = a ++ String sep b /\ contains_char sep a = false /\ contains_char sep b = false.
Proof.
  revert a. induction s as [|c r IH]; simpl; intros a H; [discriminate|].
  destruct (Ascii.eqb c sep) eqn:E.
  - inversion H; subst. apply Ascii.eqb_eq in E. subst c.
    destruct (split_on_single sep r b H2) as [-> Hb].
    split; [reflexivity|]. split; [reflexivity | exact Hb].
  - destruct (split_on sep r) as [|h t] eqn:Er; [discriminate|].
    inversion H; subst. destruct (IH h eq_refl) as [-> [Ha Hb]].
    split; [reflexivity|]. split; [|exact Hb]. simpl. rewrite E. exact Ha.
Qed.

Lemma split_on_none (sep : ascii) (s : string) :
  contains_char sep s = false -> split_on sep s = [s].
Proof.
  induction s as [|c r IH]; simpl; intros H; [reflexivity|].
  apply orb_false_iff in H. destruct H as [Hc Hr].
  rewrite Hc, (IH Hr). reflexivity.
Qed.

Lemma split_on_append (sep : ascii) (a b : string) :
  contains_char sep a = false ->
  split_on sep (a ++ String sep b) = a :: split_on sep b.
Proof.
  induction a as [|c r IH]; simpl; intros H.
  - rewrite Ascii.eqb_refl. reflexivity.
  - apply orb_false_iff in H. destruct H as [Hc Hr].
    rewrite Hc, (IH Hr). reflexivity.
Qed.

(** X4. [AuthMiddleware] hands a request on exactly when its header is
    [Bearer], one space, and a token without a space that
    [ValidateToken] accepts; the context then holds the user id and
    the email of the token's claims.  Every other request is answered
    with 401 and aborted -- with "invalid token" for each token that
    fails validation, whatever the reason. *)
Theorem AuthMiddleware_passes_iff (J : JwtCodec) (jwtSecret : string) (now : Z)
    (authHeader : string) :
  (forall context,
      AuthMiddleware J jwtSecret now authHeader = Next context <->
      exists token claims,
        authHeader = "Bearer " ++ token
        /\ contains_char " " token = false
        /\ ValidateToken J now token jwtSecret = Ok claims
        /\ context = [ ("userID", cl_UserID claims); ("email", cl_Email claims) ])
  /\ ((exists context, AuthMiddleware J jwtSecret now authHeader = Next context)
      \/ AuthMiddleware J jwtSecret now authHeader
         = unauthorized "authorization header required"
      \/ AuthMiddleware J jwtSecret now authHeader
         = unauthorized "invalid authorization header format"
      \/ AuthMiddleware J jwtSecret now authHeader = unauthorized "invalid token")
  /\ (forall token e,
        contains_char " " token = false ->
        ValidateToken J now token jwtSecret = Err e ->
        AuthMiddleware J jwtSecret now ("Bearer " ++ token) = unauthorized "invalid token").
Proof.
  split; [|split].
  - intros context. unfold AuthMiddleware. split.
    + destruct (is_empty authHeader); [discriminate|].
      destruct (split_on " " authHeader) as [|p0 [|p1 [|p2 rest]]] eqn:Es;
        try discriminate.
      simpl. destruct (String.eqb p0 "Bearer") eqn:Eb; [|discriminate]. simpl.
      apply String.eqb_eq in Eb. subst p0.
      destruct (split_on_pair " " authHeader "Bearer" p1 Es) as [Hh [_ Hp1]].
      destruct (ValidateToken J now p1 jwtSecret) as [claims|] eqn:Ev; [|discriminate].
      intros H. inversion H. exists p1, claims. repeat split; assumption.
    + intros [token [claims [-> [Hns [Hv ->]]]]].
      change ("Bearer " ++ token) with ("Bearer" ++ String " " token).
      rewrite append_nonempty.
      rewrite (split_on_append " " "Bearer" token eq_refl), (split_on_none " " token Hns).
      simpl. rewrite Hv. reflexivity.
  - unfold AuthMiddleware.
    destruct (is_empty authHeader); [right; left; reflexivity|].
    destruct (negb (Nat.eqb (List.length (split_on " " authHeader)) 2)
              || negb (String.eqb (nth 0 (split_on " " authHeader) EmptyString) "Bearer"));
      [right; right; left; reflexivity|].
    destruct (ValidateToken J now _ jwtSecret);
      [left; eexists; reflexivity | right; right; right; reflexivity].
  - intros token e Hns Hv. unfold AuthMiddleware.
    change ("Bearer " ++ token) with ("Bearer" ++ String " " token).
    rewrite append_nonempty.
    rewrite (split_on_append " " "Bearer" token eq_refl), (split_on_none " " token Hns).
    simpl. rewrite Hv. reflexivity.
Qed.

Lemma AuthMiddleware_passes_iff_witness :
  AuthMiddleware refCodec "k" 7
    ("Bearer " ++ token_of refCodec 7 (oid 1) "a@b.com" "k" (3600 * second))
  = Next [ ("userID", "000000000000000000000001"); ("email", "a@b.com") ]
  /\ AuthMiddleware refCodec "k" 7 "Bearer invalid.token.here" = unauthorized "invalid token".
Proof.
  split.
  - apply (proj1 (AuthMiddleware_passes_iff refCodec "k" 7 _)).
    exists (token_of refCodec 7 (oid 1) "a@b.com" "k" (3600 * second)),
           (mkClaims (Hex (oid 1)) "a@b.com" 3600).
    repeat split; vm_compute; reflexivity.
  - refine (proj2 (proj2 (AuthMiddleware_passes_iff refCodec "k" 7 "x"))
              "invalid.token.here" (ErrorString "token is malformed") _ _);
      vm_compute; reflexivity.
Defined.

(** A header [Bearer <token>] whose token holds no space is split into
    the two parts the middleware expects; what follows is decided by
    [ValidateToken]. *)
Lemma AuthMiddleware_bearer (J : JwtCodec) (jwtSecret : string) (now : Z) (token : string) :
  contains_char " " token = false ->
  AuthMiddleware J jwtSecret now ("Bearer " ++ token)
  = match ValidateToken J now token jwtSecret with
    | Err _ => unauthorized "invalid token"
    | Ok claims => Next [ ("userID", cl_UserID claims); ("email", cl_Email claims) ]
    end.
Proof.
  intros Hns. unfold AuthMiddleware.
  change ("Bearer " ++ token) with ("Bearer" ++ String " " token).
  rewrite append_nonempty.
  rewrite (split_on_append " " "Bearer" token eq_refl), (split_on_none " " token Hns).
  simpl. destruct (ValidateToken J now token jwtSecret); reflexivity.
Qed.

(** X5. A token made by [GenerateToken] and sent as [Bearer <token>]
    gets through [AuthMiddleware] with the same secret while the clock
    is before the expiry, with the user id in hexadecimal and the email
    in the context -- and at every instant when the expiry is 0, which
    the library reads as no expiry.  With an expiry other than 0 the
    answer from the expiry on is 401 "invalid token", the answer a
    token signed with another secret gets too. *)
Theorem AuthMiddleware_generated_token (J : JwtCodec) (now t : Z) (userID : ObjectID)
    (email secret : string) (d : Z) :
  reads_back J now userID email secret d ->
  contains_char " " (token_of J now userID email secret d) = false ->
  let header := "Bearer " ++ token_of J now userID email secret d in
  (Unix (now + d) = 0 \/ t < Unix (now + d) * second ->
     AuthMiddleware J secret t header
     = Next [ ("userID", Hex userID); ("email", email) ])
  /\ (Unix (now + d) <> 0 -> Unix (now + d) * second <= t ->
      AuthMiddleware J secret t header = unauthorized "invalid token")
  /\ (forall secret',
      jwt_hmac J HS256 secret' (token_text J now userID email d)
        <> jwt_hmac J HS256 secret (token_text J now userID email d) ->
      AuthMiddleware J secret' t header = unauthorized "invalid token").
Proof.
  intros Hrb Hns. cbv zeta.
  split; [|split].
  - intros Ht.
    rewrite (AuthMiddleware_bearer J secret t _ Hns).
    rewrite (ValidateToken_generated_ok J now t userID email secret d Hrb Ht). reflexivity.
  - intros Hz Ht.
    rewrite (AuthMiddleware_bearer J secret t _ Hns).
    rewrite (ValidateToken_generated_expired J now t userID email secret d Hrb Hz Ht).
    reflexivity.
  - intros secret' Hmac.
    rewrite (AuthMiddleware_bearer J secret' t _ Hns).
    unfold ValidateToken.
    assert (Hne : is_empty (token_of J now userID email secret d) = false).
    { unfold token_of. apply append_nonempty. }
    rewrite Hne. unfold jwt_Parse. rewrite Hrb. simpl.
    unfold hmac_Verify. simpl.
    rewrite (proj2 (String.eqb_neq _ _) Hmac). reflexivity.
Qed.

Lemma AuthMiddleware_generated_token_witness :
  AuthMiddleware refCodec "k" 7
    ("Bearer " ++ token_of refCodec 7 (oid 1) "a@b.com" "k" (3600 * second))
  = Next [ ("userID", Hex (oid 1)); ("email", "a@b.com") ]
  /\ AuthMiddleware refCodec "k" 7
       ("Bearer " ++ token_of refCodec 7 (oid 1) "a@b.com" "k" (-3600 * second))
     = unauthorized "invalid token".
Proof.
  split.
  - refine (proj1 (AuthMiddleware_generated_token refCodec 7 7 (oid 1) "a@b.com" "k"
                     (3600 * second) _ _) (or_intror _));
      [vm_compute; reflexivity | vm_compute; reflexivity | vm_compute; reflexivity].
  - refine (proj1 (proj2 (AuthMiddleware_generated_token refCodec 7 7 (oid 1) "a@b.com" "k"
                            (-3600 * second) _ _)) _ _);
      [vm_compute; reflexivity | vm_compute; reflexivity | vm_compute; discriminate
      | vm_compute; discriminate].
Defined.

(* ================================================================ *)
(** * Registration, then login *)

Lemma mongoUser_Create_new (w w' : World) (now : Z) (user user' : User) :
  w_env w = [] ->
  IsZero (u_ID user) = true ->
  mongoUser_Create w now user = ((user', None), w') ->
  user' = with_times (with_ID user (fst (NewObjectID w))) now now
  /\ w' = mkWorld (w_users w ++ [user']) (w_circles w) (w_oid_counter w + 1) []
  /\ user_conflicts (w_users w) user' = None.
Proof.
  intros Henv Hz. unfold mongoUser_Create. rewrite Hz.
  unfold NewObjectID, users_InsertOne, env_step. cbn [w_env fst].
  rewrite Henv. cbn [w_users w_circles w_oid_counter w_env].
  match goal with
  | |- context [user_conflicts ?a ?b] => destruct (user_conflicts a b) eqn:Ec
  end; intros H; inversion H; subst.
  unfold set_users. cbn [w_users w_circles w_oid_counter w_env].
  split; [reflexivity|]. split; [reflexivity | exact Ec].
Qed.

Lemma user_conflicts_none (us : list User) (doc : User) :
  user_conflicts us doc = None ->
  find (fun u => String.eqb (u_Email u) (u_Email doc)) us = None
  /\ find (fun u => ObjectID_eqb (u_ID u) (u_ID doc)) us = None.
Proof.
  unfold user_conflicts.
  destruct (existsb (fun u => ObjectID_eqb (u_ID u) (u_ID doc)) us) eqn:E1; [discriminate|].
  destruct (existsb (fun u => String.eqb (u_Email u) (u_Email doc)) us) eqn:E2; [discriminate|].
  intros _. split.
  - destruct (find _ us) as [u|] eqn:Ef; [|reflexivity].
    apply find_some in Ef. exfalso.
    assert (Ht : existsb (fun u => String.eqb (u_Email u) (u_Email doc)) us = true)
      by (apply existsb_exists; exists u; exact Ef).
    congruence.
  - destruct (find _ us) as [u|] eqn:Ef; [|reflexivity].
    apply find_some in Ef. exfalso.
    assert (Ht : existsb (fun u => ObjectID_eqb (u_ID u) (u_ID doc)) us = true)
      by (apply existsb_exists; exists u; exact Ef).
    congruence.
Qed.

Section RegisterThenLogin.
Variable B : Bcrypt.
Variable J : JwtCodec.
Variable secret : string.
Variable duration : Z.

Let svc : Service World := mkService World mongoUserRepository secret duration.

(** What a [Register] that succeeded on a quiet database has done. *)
Lemma Register_quiet (now : Z) (salt : string) (w w1 : World)
    (email password name : string) (res : AuthResult) :
  w_env w = [] ->
  Register B J svc now salt w email password name = (Ok res, w1) ->
  exists hash,
    let user := mkUser (fst (NewObjectID w)) email hash name
                  EmptyString EmptyString EmptyString now now in
    HashPassword B salt password = Ok hash
    /\ w1 = mkWorld (w_users w ++ [user]) (w_circles w) (w_oid_counter w + 1) []
    /\ res = mkAuthResult (token_of J now (u_ID user) email secret duration)
               (Hex (u_ID user)) email name
    /\ find (fun u => String.eqb (u_Email u) email) (w_users w) = None
    /\ emailRegex_MatchString email = true
    /\ minPasswordLength <= len password
    /\ name <> EmptyString
    /\ find (fun u => ObjectID_eqb (u_ID u) (u_ID user)) (w_users w) = None.
Proof.
  intros Henv. unfold Register.
  destruct (is_empty email) eqn:Ee; [discriminate|].
  destruct (is_empty password); [discriminate|].
  destruct (is_empty name) eqn:En; [discriminate|].
  destruct (emailRegex_MatchString email) eqn:Ere; [|discriminate]. simpl negb.
  destruct (len password <? minPasswordLength) eqn:El; [discriminate|].
  cbn [userRepo svc repo_FindByEmail repo_Create mongoUserRepository].
  rewrite (mongoUser_FindByEmail_quiet w email Henv).
  destruct (find (fun u => String.eqb (u_Email u) email) (w_users w)) eqn:Ef; [discriminate|].
  cbn [err_is_sentinel sentinel_eqb negb].
  destruct (HashPassword B salt password) as [hash|]; [|discriminate].
  destruct (mongoUser_Create w now _) as [[user' err] w2] eqn:Ec.
  destruct err; [discriminate|].
  assert (Hz : IsZero NilObjectID = true) by reflexivity.
  match type of Ec with
  | mongoUser_Create _ _ ?u = _ =>
      destruct (mongoUser_Create_new w w2 now u user' Henv Hz Ec) as [Hu [Hw Hfresh]]
  end.
  rewrite GenerateToken_ok. cbn [jwtSecret tokenDuration svc].
  intros H. inversion H; subst res w1. clear H.
  exists hash. cbv zeta.
  assert (Hu' : user' = mkUser (fst (NewObjectID w)) email hash name
                          EmptyString EmptyString EmptyString now now) by exact Hu.
  destruct (user_conflicts_none _ _ Hfresh) as [_ Hid].
  rewrite Hw. rewrite Hu' in Hid |- *. cbn [u_ID u_Email u_Name] in Hid |- *.
  split; [reflexivity|]. split; [reflexivity|]. split; [reflexivity|].
  split; [reflexivity|]. split; [reflexivity|].
  split; [apply Z.ltb_ge; exact El|]. split; [apply is_empty_false; exact En | exact Hid].
Qed.

(** X6. On a database nobody else writes to and that does not fail, a
    [Register] that succeeds has checked its input (non-empty name,
    email of the accepted form, password of at least 8 bytes) and has
    appended exactly one user: its id and its email are those of no
    user stored before, it carries the email, the hash bcrypt returned
    and the name, and no avatar and no provider linkage.  The result
    reports that user's id in hexadecimal, the email, the name and a
    token [GenerateToken] makes for that id and email.  (Nothing is
    said of the two time fields of the stored user, nor of the instant
    the token is made at.) *)
Theorem Register_success (now : Z) (salt : string) (w w1 : World)
    (email password name : string) (res : AuthResult) :
  w_env w = [] ->
  Register B J svc now salt w email password name = (Ok res, w1) ->
  exists hash user,
    HashPassword B salt password = Ok hash
    /\ w_users w1 = (w_users w ++ [user])%list
    /\ w_circles w1 = w_circles w
    /\ (forall u, In u (w_users w) -> u_ID u <> u_ID user /\ u_Email u <> email)
    /\ u_Email user = email
    /\ u_PasswordHash user = hash
    /\ u_Name user = name
    /\ u_AvatarURL user = EmptyString
    /\ u_OAuthProvider user = EmptyString
    /\ u_OAuthProviderName user = EmptyString
    /\ ar_UserID res = Hex (u_ID user)
    /\ ar_Email res = email
    /\ ar_Name res = name
    /\ (exists instant,
          ar_Token res = token_of J instant (u_ID user) email secret duration)
    /\ emailRegex_MatchString email = true
    /\ minPasswordLength <= len password
    /\ name <> EmptyString.
Proof.
  intros Henv Hreg.
  destruct (Register_quiet now salt w w1 email password name res Henv Hreg)
    as [hash [Hh [Hw [Hres [Hnone [Hre [Hlen [Hname Hid]]]]]]]].
  cbv zeta in Hw, Hres, Hid. cbn [u_ID] in Hres, Hid.
  exists hash, (mkUser (fst (NewObjectID w)) email hash name
                  EmptyString EmptyString EmptyString now now).
  rewrite Hw, Hres. cbn [w_users w_circles u_ID u_Email u_PasswordHash u_Name u_AvatarURL
                         u_OAuthProvider u_OAuthProviderName ar_UserID ar_Email ar_Name
                         ar_Token].
  split; [exact Hh|]. split; [reflexivity|]. split; [reflexivity|].
  split.
  { intros u Hin. split.
    - intros E. pose proof (find_none _ _ Hid u Hin) as Hn. cbv beta in Hn.
      rewrite E, ObjectID_eqb_refl in Hn. discriminate.
    - intros E. pose proof (find_none _ _ Hnone u Hin) as Hn. cbv beta in Hn.
      rewrite E, String.eqb_refl in Hn. discriminate. }
  repeat (split; [reflexivity|]).
  split; [exists now; reflexivity|].
  split; [exact Hre|]. split; [exact Hlen | exact Hname].
Qed.

(** X7. On such a database, when bcrypt accepts the password against
    the hash it made of it, [Login] with the credentials of a
    [Register] that succeeded succeeds, leaves the database as it is
    and reports the same user id, email and name. *)
Theorem Register_then_Login (now1 now2 : Z) (salt : string) (w w1 : World)
    (email password name : string) (res : AuthResult) :
  w_env w = [] ->
  Register B J svc now1 salt w email password name = (Ok res, w1) ->
  (forall hash,
      HashPassword B salt password = Ok hash ->
      VerifyPassword B hash password = None) ->
  exists res',
    Login B J svc now2 w1 email password = (Ok res', w1)
    /\ ar_UserID res' = ar_UserID res
    /\ ar_Email res' = ar_Email res
    /\ ar_Name res' = ar_Name res.
Proof.
  intros Henv Hreg Hbc.
  pose proof Hreg as Hreg'. revert Hreg'. unfold Register.
  destruct (is_empty email) eqn:Ee; [discriminate|].
  destruct (is_empty password) eqn:Ep; [discriminate|]. intros _.
  destruct (Register_quiet now1 salt w w1 email password name res Henv Hreg)
    as [hash [Hh [Hw [Hres [Hnone _]]]]].
  cbv zeta in Hw, Hres.
  unfold Login. rewrite Ee, Ep.
  cbn [userRepo svc repo_FindByEmail mongoUserRepository].
  assert (Henv1 : w_env w1 = []) by (rewrite Hw; reflexivity).
  rewrite (mongoUser_FindByEmail_quiet w1 email Henv1).
  assert (Hf : find (fun u => String.eqb (u_Email u) email) (w_users w1)
               = Some (mkUser (fst (NewObjectID w)) email hash name
                         EmptyString EmptyString EmptyString now1 now1)).
  { rewrite Hw. cbn [w_users]. apply find_none_app_last; [exact Hnone|].
    cbn [u_Email]. apply String.eqb_refl. }
  rewrite Hf. cbn [u_PasswordHash u_ID u_Email u_Name].
  rewrite (Hbc hash Hh). rewrite GenerateToken_ok.
  eexists. split; [reflexivity|]. rewrite Hres. split; [reflexivity|]. split; reflexivity.
Qed.

End RegisterThenLogin.

Lemma Register_success_witness :
  exists hash user,
    HashPassword refBcrypt "salt" "password1" = Ok hash
    /\ w_users (snd (Register refBcrypt refCodec mongoService 0 "salt" emptyWorld
                       "a@b.com" "password1" "A")) = [user]
    /\ u_Email user = "a@b.com"
    /\ u_PasswordHash user = hash.
Proof.
  destruct (Register_success refBcrypt refCodec "test-secret" (3600 * second) 0 "salt"
              emptyWorld
              (snd (Register refBcrypt refCodec mongoService 0 "salt" emptyWorld
                      "a@b.com" "password1" "A"))
              "a@b.com" "password1" "A"
              (mkAuthResult
                 (token_of refCodec 0 (oid 1) "a@b.com" "test-secret" (3600 * second))
                 (Hex (oid 1)) "a@b.com" "A"))
    as [hash [user [Hh [Hw [_ [_ [He [Hp _]]]]]]]].
  - reflexivity.
  - vm_compute. reflexivity.
  - exists hash, user. split; [exact Hh|]. split; [exact Hw|]. split; [exact He | exact Hp].
Defined.

Lemma Register_then_Login_witness :
  exists res',
    Login refBcrypt refCodec mongoService 9 aliceWorld "a@b.com" "password1"
      = (Ok res', aliceWorld)
    /\ ar_UserID res' = Hex (oid 1).
Proof.
  destruct (Register_then_Login refBcrypt refCodec "test-secret" (3600 * second) 0 9 "salt"
              emptyWorld aliceWorld "a@b.com" "password1" "A"
              (mkAuthResult
                 (token_of refCodec 0 (oid 1) "a@b.com" "test-secret" (3600 * second))
                 (Hex (oid 1)) "a@b.com" "A"))
    as [res' [Hl [Hid _]]].
  - reflexivity.
  - vm_compute. reflexivity.
  - intros hash Hh. vm_compute in Hh. inversion Hh. subst hash. vm_compute. reflexivity.
  - exists res'. split; [exact Hl | exact Hid].
Defined.

(* ================================================================ *)
(** * Which emails [emailRegex] accepts *)

Lemma nullable_spec (r : regex) : nullable r = true <-> matches r [].
Proof.
  induction r as [| |p|r1 IH1 r2 IH2|r1 IH1 r2 IH2|r IH]; simpl.
  - split; [discriminate | intros H; inversion H].
  - split; [intros _; constructor | reflexivity].
  - split; [discriminate | intros H; inversion H].
  - rewrite andb_true_iff, IH1, IH2. split.
    + intros [H1 H2]. apply (M_cat r1 r2 [] [] H1 H2).
    + intros H. inversion H; subst.
      match goal with
      | Heq : (?a ++ ?b)%list = [] |- _ =>
          apply app_eq_nil in Heq; destruct Heq; subst
      end.
      split; assumption.
  - rewrite orb_true_iff, IH1, IH2. split.
    + intros [H|H]; [apply M_alt_l | apply M_alt_r]; exact H.
    + intros H. inversion H; subst; [left | right]; assumption.
  - split; [intros _; constructor | reflexivity].
Qed.

Lemma star_cons (r : regex) (c : ascii) (l : list ascii) :
  matches (Rstar r) (c :: l) ->
  exists l1 l2, l = (l1 ++ l2)%list /\ matches r (c :: l1) /\ matches (Rstar r) l2.
Proof.
  intros H. remember (Rstar r) as rs eqn:Hr. remember (c :: l) as cl eqn:Hl.
  revert c l Hl.
  induction H as [| | | | | |r' l1 l2 H1 _ H2 IH2]; intros x y Hl; try discriminate.
  inversion Hr; subst r'. destruct l1 as [|a l1]; simpl in Hl.
  - apply (IH2 eq_refl x y Hl).
  - inversion Hl; subst. exists l1, l2. auto.
Qed.

Lemma cat_inv (r1 r2 : regex) (l : list ascii) :
  matches (Rcat r1 r2) l <->
  exists l1 l2, l = (l1 ++ l2)%list /\ matches r1 l1 /\ matches r2 l2.
Proof.
  split.
  - intros H. inversion H; subst. eauto.
  - intros [l1 [l2 [-> [H1 H2]]]]. constructor; assumption.
Qed.

Lemma deriv_spec (r : regex) (c : ascii) (l : list ascii) :
  matches (deriv c r) l <-> matches r (c :: l).
Proof.
  revert l. induction r as [| |p|r1 IH1 r2 IH2|r1 IH1 r2 IH2|r IH]; intros l; simpl.
  - split; intros H; inversion H.
  - split; intros H; inversion H.
  - destruct (p c) eqn:E; split; intros H.
    + inversion H; subst. constructor. exact E.
    + inversion H; subst. constructor.
    + inversion H.
    + inversion H; subst. congruence.
  - assert (Hcat : matches (Rcat (deriv c r1) r2) l ->
                   matches (Rcat r1 r2) (c :: l)).
    { intros H. apply cat_inv in H. destruct H as [l1 [l2 [-> [H1 H2]]]].
      apply IH1 in H1. apply (M_cat r1 r2 (c :: l1) l2 H1 H2). }
    assert (Hinv : matches (Rcat r1 r2) (c :: l) ->
                   matches (Rcat (deriv c r1) r2) l
                   \/ (matches r1 [] /\ matches r2 (c :: l))).
    { intros H. apply cat_inv in H. destruct H as [l1 [l2 [Hl [H1 H2]]]].
      destruct l1 as [|a l1]; simpl in Hl.
      - right. subst l2. split; assumption.
      - inversion Hl; subst. left. apply IH1 in H1. constructor; assumption. }
    destruct (nullable r1) eqn:En.
    + split.
      * intros H. inversion H; subst; [apply Hcat; assumption|].
        apply nullable_spec in En.
        apply (M_cat r1 r2 [] (c :: l) En). apply IH2. assumption.
      * intros H. destruct (Hinv H) as [H1|[_ H2]].
        -- apply M_alt_l. exact H1.
        -- apply M_alt_r. apply IH2. exact H2.
    + split; [exact Hcat|].
      intros H. destruct (Hinv H) as [H1|[H1 _]]; [exact H1|].
      apply nullable_spec in H1. congruence.
  - split; intros H; inversion H; subst.
    + apply M_alt_l. apply IH1. assumption.
    + apply M_alt_r. apply IH2. assumption.
    + apply M_alt_l. apply IH1. assumption.
    + apply M_alt_r. apply IH2. assumption.
  - split.
    + intros H. apply cat_inv in H. destruct H as [l1 [l2 [-> [H1 H2]]]].
      apply IH in H1. apply (M_star_app r (c :: l1) l2 H1 H2).
    + intros H. destruct (star_cons r c l H) as [l1 [l2 [-> [H1 H2]]]].
      constructor; [apply IH; exact H1 | exact H2].
Qed.

Lemma regex_match_spec (r : regex) (s : string) :
  regex_match r s = true <-> matches r (list_ascii_of_string s).
Proof.
  revert r. induction s as [|c s IH]; intros r; simpl.
  - apply nullable_spec.
  - rewrite IH. apply deriv_spec.
Qed.

Lemma class_inv (p : ascii -> bool) (l : list ascii) :
  matches (Rclass p) l <-> exists c, l = [c] /\ p c = true.
Proof.
  split.
  - intros H. inversion H; subst. eauto.
  - intros [c [-> Hc]]. constructor. exact Hc.
Qed.

Lemma star_class (p : ascii -> bool) (l : list ascii) :
  matches (Rstar (Rclass p)) l <-> forallb p l = true.
Proof.
  split.
  - intros H. remember (Rstar (Rclass p)) as rs eqn:Hr.
    induction H as [| | | | | |r' l1 l2 H1 _ H2 IH2]; try discriminate; [reflexivity|].
    inversion Hr; subst r'. apply class_inv in H1. destruct H1 as [c [-> Hc]]. simpl.
    rewrite (IH2 eq_refl), Hc. reflexivity.
  - induction l as [|c l IH]; simpl; intros H; [constructor|].
    apply andb_true_iff in H. destruct H as [Hc Hl].
    apply (M_star_app (Rclass p) [c] l); [constructor; exact Hc | apply IH; exact Hl].
Qed.

Lemma plus_class (p : ascii -> bool) (l : list ascii) :
  matches (Rplus (Rclass p)) l <-> l <> [] /\ forallb p l = true.
Proof.
  unfold Rplus. rewrite cat_inv. split.
  - intros [l1 [l2 [-> [H1 H2]]]].
    apply class_inv in H1. destruct H1 as [c [-> Hc]]. apply star_class in H2. simpl.
    split; [discriminate|]. rewrite H2, Hc. reflexivity.
  - intros [Hne H]. destruct l as [|c l]; [contradiction|]. simpl in H.
    apply andb_true_iff in H. destruct H as [Hc Hl].
    exists [c], l. split; [reflexivity|].
    split; [constructor; exact Hc | apply star_class; exact Hl].
Qed.

Lemma char_class (c : ascii) (l : list ascii) : matches (Rchar c) l <-> l = [c].
Proof.
  unfold Rchar. rewrite class_inv. split.
  - intros [x [-> Hx]]. apply Ascii.eqb_eq in Hx. subst. reflexivity.
  - intros ->. exists c. split; [reflexivity | apply Ascii.eqb_refl].
Qed.

(** The accepted emails, as lists of bytes. *)
Lemma emailRegex_matches (l : list ascii) :
  matches emailRegex l <->
  exists a d t,
    l = (a ++ "@"%char :: d ++ "."%char :: t)%list
    /\ a <> [] /\ forallb local_char a = true
    /\ d <> [] /\ forallb domain_char d = true
    /\ (2 <= List.length t)%nat /\ forallb is_letter t = true.
Proof.
  unfold emailRegex. split.
  - intros H.
    apply cat_inv in H. destruct H as [a [l1 [-> [Ha H]]]].
    apply cat_inv in H. destruct H as [at_ [l2 [-> [Hat H]]]].
    apply cat_inv in H. destruct H as [d [l3 [-> [Hd H]]]].
    apply cat_inv in H. destruct H as [dot [l4 [-> [Hdot H]]]].
    apply cat_inv in H. destruct H as [t1 [l5 [-> [Ht1 H]]]].
    apply cat_inv in H. destruct H as [t2 [t3 [-> [Ht2 Ht3]]]].
    apply char_class in Hat, Hdot. subst at_ dot.
    apply (plus_class local_char) in Ha. apply (plus_class domain_char) in Hd.
    apply class_inv in Ht1, Ht2. destruct Ht1 as [c [-> Hc]]. destruct Ht2 as [c0 [-> Hc0]].
    apply star_class in Ht3.
    exists a, d, (c :: c0 :: t3). simpl.
    destruct Ha as [Ha1 Ha2]. destruct Hd as [Hd1 Hd2].
    repeat split; try assumption.
    + apply le_n_S, le_n_S, Nat.le_0_l.
    + rewrite Hc, Hc0, Ht3. reflexivity.
  - intros [a [d [t [-> [Ha1 [Ha2 [Hd1 [Hd2 [Ht1 Ht2]]]]]]]]].
    destruct t as [|c [|c0 t3]]; simpl in Ht1; try lia.
    simpl in Ht2. apply andb_true_iff in Ht2. destruct Ht2 as [Hc Ht2].
    apply andb_true_iff in Ht2. destruct Ht2 as [Hc0 Ht3].
    apply cat_inv. exists a, ("@"%char :: d ++ "."%char :: c :: c0 :: t3)%list.
    split; [reflexivity|]. split; [apply (plus_class local_char); auto|].
    apply cat_inv. exists ["@"%char], (d ++ "."%char :: c :: c0 :: t3)%list.
    split; [reflexivity|]. split; [apply char_class; reflexivity|].
    apply cat_inv. exists d, ("."%char :: c :: c0 :: t3).
    split; [reflexivity|]. split; [apply (plus_class domain_char); auto|].
    apply cat_inv. exists ["."%char], (c :: c0 :: t3).
    split; [reflexivity|]. split; [apply char_class; reflexivity|].
    apply cat_inv. exists [c], (c0 :: t3).
    split; [reflexivity|]. split; [constructor; exact Hc|].
    apply cat_inv. exists [c0], t3.
    split; [reflexivity|]. split; [constructor; exact Hc0 | apply star_class; exact Ht3].
Qed.

Lemma list_ascii_of_string_app (a b : string) :
  list_ascii_of_string (a ++ b) = (list_ascii_of_string a ++ list_ascii_of_string b)%list.
Proof. induction a as [|c a IH]; simpl; [reflexivity | rewrite IH; reflexivity]. Qed.

Lemma string_of_list_ascii_app (a b : list ascii) :
  string_of_list_ascii (a ++ b) = string_of_list_ascii a ++ string_of_list_ascii b.
Proof. induction a as [|c a IH]; simpl; [reflexivity | rewrite IH; reflexivity]. Qed.

Lemma string_length_list (s : string) :
  String.length s = List.length (list_ascii_of_string s).
Proof. induction s as [|c s IH]; simpl; [reflexivity | rewrite IH; reflexivity]. Qed.

(** X9. [emailRegex] accepts exactly the strings of the form
    [local@domain.tld] where [local] is a non-empty run of letters,
    digits and [._%+-], [domain] a non-empty run of letters, digits
    and [.-], and [tld] a run of at least two letters; the [tld] is
    what follows the last dot. *)
Theorem emailRegex_accepts (email : string) :
  emailRegex_MatchString email = true <->
  exists local domain tld,
    email = local ++ "@" ++ domain ++ "." ++ tld
    /\ local <> EmptyString /\ all_chars local_char local = true
    /\ domain <> EmptyString /\ all_chars domain_char domain = true
    /\ (2 <= String.length tld)%nat /\ all_chars is_letter tld = true.
Proof.
  unfold emailRegex_MatchString, all_chars. rewrite regex_match_spec, emailRegex_matches.
  split.
  - intros [a [d [t [Hl [Ha1 [Ha2 [Hd1 [Hd2 [Ht1 Ht2]]]]]]]]].
    exists (string_of_list_ascii a), (string_of_list_ascii d), (string_of_list_ascii t).
    rewrite !list_ascii_of_string_of_list_ascii, string_length_list,
      list_ascii_of_string_of_list_ascii.
    split.
    { rewrite <- (string_of_list_ascii_of_string email), Hl.
      rewrite string_of_list_ascii_app. simpl. rewrite string_of_list_ascii_app. reflexivity. }
    repeat split; try assumption.
    + destruct a; [contradiction | discriminate].
    + destruct d; [contradiction | discriminate].
  - intros [lo [dm [tl [-> [Ha1 [Ha2 [Hd1 [Hd2 [Ht1 Ht2]]]]]]]]].
    exists (list_ascii_of_string lo), (list_ascii_of_string dm), (list_ascii_of_string tl).
    rewrite <- string_length_list.
    split.
    { rewrite list_ascii_of_string_app. simpl. rewrite list_ascii_of_string_app. reflexivity. }
    repeat split; try assumption.
    + destruct lo; [contradiction | discriminate].
    + destruct dm; [contradiction | discriminate].
Qed.

Lemma emailRegex_accepts_witness :
  emailRegex_MatchString "a.b+c@x-y.co.uk" = true.
Proof.
  apply (proj2 (emailRegex_accepts "a.b+c@x-y.co.uk")).
  exists "a.b+c", "x-y.co", "uk". repeat split; try discriminate; vm_compute; auto.
Defined.

(* ================================================================ *)
(** * The email a GitHub account resolves to *)







(* ================================================================ *)
(** * The callbacks reach the user directory last *)




(* ================================================================ *)
(** * Signing in twice through GitHub *)

Lemma pos_digits_nonempty (fuel : nat) (n : Z) (acc : string) :
  acc <> EmptyString -> pos_digits fuel n acc <> EmptyString.
Proof.
  revert n acc. induction fuel as [|fuel IH]; simpl; intros n acc Hacc; [exact Hacc|].
  destruct (n / 10 =? 0); [discriminate|]. apply IH. discriminate.
Qed.

Lemma Itoa_nonempty (n : Z) : Itoa n <> EmptyString.
Proof.
  unfold Itoa. destruct (n <? 0); [discriminate|].
  simpl. destruct (n / 10 =? 0); [discriminate|].
  apply pos_digits_nonempty. discriminate.
Qed.

Lemma mongoUser_Update_quiet (w w' : World) (now : Z) (user user' : User) :
  w_env w = [] ->
  mongoUser_Update w now user = ((user', None), w') ->
  user' = with_UpdatedAt user now
  /\ w_env w' = []
  /\ w_circles w' = w_circles w
  /\ w_users w'
     = replace_first (fun u => ObjectID_eqb (u_ID u) (u_ID user))
         (fun o => set_user_fields o user') (w_users w).
Proof.
  intros Henv. unfold mongoUser_Update, users_UpdateOne_set.
  rewrite (env_step_quiet w Henv).
  cbn [u_ID with_UpdatedAt with_times].
  destruct (find (fun u => ObjectID_eqb (u_ID u) (u_ID user)) (w_users w)).
  - destruct (existsb _ (w_users w)).
    + intros H. inversion H.
    + simpl. intros H. inversion H; subst. simpl. rewrite Henv. repeat split.
  - simpl. intros H. inversion H.
Qed.

Lemma find_email_replace_first (l : list User) (u doc : User) :
  NoDup (map u_ID l) ->
  find (fun x => String.eqb (u_Email x) (u_Email doc)) l = Some u ->
  find (fun x => String.eqb (u_Email x) (u_Email doc))
    (replace_first (fun x => ObjectID_eqb (u_ID x) (u_ID u))
       (fun o => set_user_fields o doc) l)
  = Some (set_user_fields u doc).
Proof.
  induction l as [|x l IH]; simpl; intros Hnd Hf; [discriminate|].
  inversion Hnd as [|? ? Hx Hl]; subst.
  destruct (String.eqb (u_Email x) (u_Email doc)) eqn:Ee.
  - inversion Hf; subst x. rewrite ObjectID_eqb_refl. simpl.
    rewrite String.eqb_refl. reflexivity.
  - assert (Hin : In u l) by (apply find_some in Hf; tauto).
    assert (Hne : ObjectID_eqb (u_ID x) (u_ID u) = false).
    { apply ObjectID_eqb_neq. intros Heq. apply Hx. rewrite Heq. apply in_map. exact Hin. }
    rewrite Hne. simpl. rewrite Ee. apply IH; assumption.
Qed.

Section GitHubTwice.
Variable J : JwtCodec.
Variable secret : string.
Variable duration : Z.

Let svc : Service World := mkService World mongoUserRepository secret duration.

Lemma issue_token_ok (now : Z) (user : User) (w : World) :
  issue_token J svc now user w
  = (Ok (mkAuthResult (token_of J now (u_ID user) (u_Email user) secret duration)
           (Hex (u_ID user)) (u_Email user) (u_Name user)), w).
Proof. unfold issue_token. rewrite GenerateToken_ok. reflexivity. Qed.

(** After a GitHub callback that succeeded, the directory returns for
    the email of the result a record that is linked and has the id of
    the result. *)
Lemma github_callback_leaves_linked (P : Provider GitHubUserInfo) (o : OAuthService)
    (now : Z) (w w1 : World) (code : string) (res : AuthResult) :
  w_env w = [] ->
  users_unique w ->
  HandleGitHubCallback J P o svc now w code = (Ok res, w1) ->
  exists stored,
    find (fun u => String.eqb (u_Email u) (ar_Email res)) (w_users w1) = Some stored
    /\ u_OAuthProvider stored <> EmptyString
    /\ Hex (u_ID stored) = ar_UserID res
    /\ u_Email stored = ar_Email res
    /\ u_Name stored = ar_Name res
    /\ w_env w1 = [].
Proof.
  intros Henv [Hids _]. unfold HandleGitHubCallback.
  destruct (is_empty code); [discriminate|].
  destruct (exchangeGitHubCodeForToken P o code) as [tok|]; [|discriminate].
  destruct (getGitHubUserInfo P o tok) as [info|]; [|discriminate].
  destruct (getGitHubUserEmail P o tok) as [email|]; [|discriminate].
  cbn [userRepo svc repo_FindByEmail repo_Create repo_Update mongoUserRepository].
  rewrite (mongoUser_FindByEmail_quiet w email Henv).
  destruct (find (fun u => String.eqb (u_Email u) email) (w_users w)) as [u|] eqn:Ef.
  - pose proof (find_some_email _ _ _ Ef) as Hue.
    destruct (is_empty (u_OAuthProvider u)) eqn:El.
    + destruct (mongoUser_Update w now _) as [[user' err] w2] eqn:Eu.
      destruct err; [discriminate|].
      destruct (mongoUser_Update_quiet w w2 now _ user' Henv Eu) as [Hu' [Henv2 [_ Hus]]].
      rewrite issue_token_ok. intros H. inversion H; subst res w1. clear H.
      cbn [ar_Email ar_UserID ar_Name].
      assert (Hem : u_Email user' = email) by (rewrite Hu'; exact Hue).
      exists (set_user_fields u user').
      split.
      { rewrite Hus.
        change (u_ID (with_OAuth u (Itoa (gh_ID info)) "github" now)) with (u_ID u).
        apply find_email_replace_first; [exact Hids|].
        rewrite Hem. exact Ef. }
      rewrite Hu'. cbn.
      split; [unfold keep_if_empty;
              rewrite (proj2 (is_empty_false _) (Itoa_nonempty (gh_ID info)));
              apply Itoa_nonempty|].
      split; [reflexivity|]. split; [reflexivity|]. split; [reflexivity | exact Henv2].
    + rewrite issue_token_ok. intros H. inversion H; subst res w1. clear H.
      cbn [ar_Email ar_UserID ar_Name]. exists u. rewrite Hue.
      split; [exact Ef|]. split; [apply is_empty_false; exact El|].
      split; [reflexivity|]. split; [reflexivity|]. split; [reflexivity | exact Henv].
  - cbn [err_is_sentinel sentinel_eqb negb].
    destruct (mongoUser_Create w now _) as [[user' err] w2] eqn:Ec.
    destruct err; [discriminate|].
    assert (Hz : IsZero NilObjectID = true) by reflexivity.
    match type of Ec with
    | mongoUser_Create _ _ ?x = _ =>
        destruct (mongoUser_Create_new w w2 now x user' Henv Hz Ec) as [Hu' [Hw _]]
    end.
    rewrite issue_token_ok. intros H. inversion H; subst res w1. clear H.
    cbn [ar_Email ar_UserID ar_Name].
    assert (Hem : u_Email user' = email) by (rewrite Hu'; reflexivity).
    exists user'. rewrite Hem.
    split.
    { rewrite Hw. cbn [w_users]. apply find_none_app_last; [exact Ef|].
      cbn beta. rewrite Hem. apply String.eqb_refl. }
    split; [rewrite Hu'; cbn; apply Itoa_nonempty|].
    split; [reflexivity|]. split; [reflexivity|]. split; [reflexivity|].
    rewrite Hw. reflexivity.
Qed.

(** X12. Signing in through GitHub twice gives one account: on a
    database nobody else writes to, with ids unique, after a callback
    that succeeded, a second callback that GitHub answers with the
    same email succeeds, writes nothing and reports the same user id,
    email and name -- whether the first callback created the user,
    linked an existing one or found it linked. *)
Theorem github_sign_in_twice (P : Provider GitHubUserInfo) (o : OAuthService)
    (now1 now2 : Z) (w w1 : World) (code1 code2 tok2 : string) (info2 : GitHubUserInfo)
    (res1 : AuthResult) :
  w_env w = [] ->
  users_unique w ->
  HandleGitHubCallback J P o svc now1 w code1 = (Ok res1, w1) ->
  code2 <> EmptyString ->
  exchangeGitHubCodeForToken P o code2 = Ok tok2 ->
  getGitHubUserInfo P o tok2 = Ok info2 ->
  getGitHubUserEmail P o tok2 = Ok (ar_Email res1) ->
  exists res2,
    HandleGitHubCallback J P o svc now2 w1 code2 = (Ok res2, w1)
    /\ ar_UserID res2 = ar_UserID res1
    /\ ar_Email res2 = ar_Email res1
    /\ ar_Name res2 = ar_Name res1.
Proof.
  intros Henv Hu H1 Hc Hx Hi He.
  destruct (github_callback_leaves_linked P o now1 w w1 code1 res1 Henv Hu H1)
    as [stored [Hf [Hl [Hid [Hem [Hnm Henv1]]]]]].
  unfold HandleGitHubCallback.
  rewrite (proj2 (is_empty_false _) Hc), Hx, Hi, He.
  cbn [userRepo svc repo_FindByEmail mongoUserRepository].
  rewrite (mongoUser_FindByEmail_quiet w1 (ar_Email res1) Henv1), Hf.
  rewrite (proj2 (is_empty_false _) Hl), issue_token_ok.
  eexists. split; [reflexivity|]. cbn [ar_UserID ar_Email ar_Name]. auto.
Qed.

End GitHubTwice.

Lemma github_sign_in_twice_witness :
  exists res2,
    HandleGitHubCallback refCodec scenarioProvider scenarioOAuth mongoService 9
      (mkWorld [octocat] [] 1 []) "code-2"
    = (Ok res2, mkWorld [octocat] [] 1 [])
    /\ ar_UserID res2 = Hex (oid 1).
Proof.
  destruct (github_sign_in_twice refCodec "test-secret" (3600 * second)
              scenarioProvider scenarioOAuth 0 9 emptyWorld (mkWorld [octocat] [] 1 [])
              "code" "code-2" "gho_token" (mkGitHubUserInfo 42 "x" "X")
              (mkAuthResult
                 (token_of refCodec 0 (oid 1) "x@y.com" "test-secret" (3600 * second))
                 (Hex (oid 1)) "x@y.com" "X"))
    as [res2 [H2 [Hid _]]].
  - reflexivity.
  - split; constructor.
  - vm_compute. reflexivity.
  - discriminate.
  - reflexivity.
  - reflexivity.
  - reflexivity.
  - exists res2. split; [exact H2 | exact Hid].
Defined.

(* ================================================================ *)
(** * The state in the authorization URL and in the cookie *)

Lemma QueryUnescape_escaped_byte (c : ascii) (r : string) :
  QueryUnescape
    ((if query_unreserved c then String c EmptyString
      else if Z_of_byte c =? 32 then "+"
      else "%" ++ hex_byte true c) ++ r)
  = match QueryUnescape r with
    | Some t => Some (String c t)
    | None => None
    end.
Proof.
  destruct c as [[|] [|] [|] [|] [|] [|] [|] [|]]; reflexivity.
Qed.

Lemma QueryUnescape_QueryEscape (s : string) : QueryUnescape (QueryEscape s) = Some s.
Proof.
  induction s as [|c s IH]; [reflexivity|].
  cbn [QueryEscape]. rewrite QueryUnescape_escaped_byte, IH. reflexivity.
Qed.

Lemma QueryEscape_injective (a b : string) : QueryEscape a = QueryEscape b -> a = b.
Proof.
  intros H. pose proof (QueryUnescape_QueryEscape a) as Ha.
  rewrite H, QueryUnescape_QueryEscape in Ha. congruence.
Qed.

Lemma append_inj_l (a x y : string) : a ++ x = a ++ y -> x = y.
Proof.
  induction a as [|c a IH]; simpl; intros H; [exact H|].
  inversion H. apply IH. assumption.
Qed.

Lemma encode_pairs_last (kvs : list (string * string)) (k v1 v2 : string) :
  encode_pairs (kvs ++ [(k, v1)]) = encode_pairs (kvs ++ [(k, v2)]) -> v1 = v2.
Proof.
  induction kvs as [|[k0 v0] rest IH].
  - simpl. intros H. apply append_inj_l in H. injection H as H.
    apply QueryEscape_injective. exact H.
  - intros H. apply IH. clear IH.
    assert (Hstep : forall v,
               encode_pairs (((k0, v0) :: rest) ++ [(k, v)])
               = QueryEscape k0 ++ "=" ++ QueryEscape v0 ++ "&"
                   ++ encode_pairs (rest ++ [(k, v)])).
    { intros v. destruct rest as [|p rest]; reflexivity. }
    rewrite !Hstep in H.
    apply append_inj_l in H. apply (append_inj_l "=") in H.
    apply append_inj_l in H. apply (append_inj_l "&") in H. exact H.
Qed.

(** X13. The authorization URLs carry the state they are given: for
    one configuration, two URLs of [GetGoogleAuthURL] (and of
    [GetGitHubAuthURL]) are equal only when the states are, whatever
    bytes the states hold. *)
Theorem auth_url_carries_state (o : OAuthService) (state1 state2 : string) :
  (GetGoogleAuthURL o state1 = GetGoogleAuthURL o state2 <-> state1 = state2)
  /\ (GetGitHubAuthURL o state1 = GetGitHubAuthURL o state2 <-> state1 = state2).
Proof.
  split; (split; [|intros ->; reflexivity]).
  - unfold GetGoogleAuthURL. intros H. do 2 apply append_inj_l in H.
    apply (encode_pairs_last
             [ ("client_id", ClientID (config o));
               ("redirect_uri", RedirectURL (config o));
               ("response_type", "code");
               ("scope", "email profile") ] "state"). exact H.
  - unfold GetGitHubAuthURL. intros H. do 2 apply append_inj_l in H.
    apply (encode_pairs_last
             [ ("client_id", ClientID (config o));
               ("redirect_uri", RedirectURL (config o));
               ("scope", "user:email") ] "state"). exact H.
Qed.

Section StateCheck.
Context {DB : Type}.
Variable J : JwtCodec.
Variable h : AuthHandler DB.

(** The cookie [SetCookie] writes reads back as the value it was given. *)
Lemma SetCookie_round_trip (c : Request) (name value : string) (maxAge : Z)
    (path domain : string) (secure httpOnly : bool) :
  assoc name (rq_Cookies c)
    = Some (ck_Value (SetCookie name value maxAge path domain secure httpOnly)) ->
  Context_Cookie c name = Ok value.
Proof.
  unfold Context_Cookie, SetCookie. simpl. intros ->.
  rewrite QueryUnescape_QueryEscape. reflexivity.
Qed.

(** X14. The callback handlers go on to the provider only for a
    request whose [state] parameter equals the value that was put in
    the [oauth_state] cookie and whose [code] is not empty.  Without
    the cookie, or with another state, the answer is 400 "invalid
    state parameter"; with the right state and no code it is 400
    "authorization code is required"; in both cases nothing is asked of
    the provider or the user directory.  Otherwise the answer is 200
    with the result of the service callback, or 500 when that
    failed. *)
Theorem callback_state_check (now : Z) (db : DB) (c : Request) :
  (forall (P : Provider GoogleUserInfo),
      assoc "oauth_state" (rq_Cookies c) = None ->
      GoogleCallback J P h now db c = (bad_request "invalid state parameter", db))
  /\ (forall (P : Provider GitHubUserInfo),
      assoc "oauth_state" (rq_Cookies c) = None ->
      GitHubCallback J P h now db c = (bad_request "invalid state parameter", db))
  /\ (forall value,
      assoc "oauth_state" (rq_Cookies c)
        = Some (ck_Value (SetCookie "oauth_state" value 300 "/" EmptyString false true)) ->
      (forall (P : Provider GoogleUserInfo),
          (Query c "state" <> value ->
             GoogleCallback J P h now db c = (bad_request "invalid state parameter", db))
          /\ (Query c "state" = value -> Query c "code" = EmptyString ->
              GoogleCallback J P h now db c
              = (bad_request "authorization code is required", db))
          /\ (Query c "state" = value -> Query c "code" <> EmptyString ->
              GoogleCallback J P h now db c
              = let r := HandleGoogleCallback J P (googleOAuth h) (authService h) now db
                           (Query c "code") in
                (match fst r with
                 | Err _ => server_error "failed to authenticate with Google"
                 | Ok res => mkResponse StatusOK [] EmptyString (auth_body res)
                 end, snd r)))
      /\ (forall (P : Provider GitHubUserInfo),
          (Query c "state" <> value ->
             GitHubCallback J P h now db c = (bad_request "invalid state parameter", db))
          /\ (Query c "state" = value -> Query c "code" = EmptyString ->
              GitHubCallback J P h now db c
              = (bad_request "authorization code is required", db))
          /\ (Query c "state" = value -> Query c "code" <> EmptyString ->
              GitHubCallback J P h now db c
              = let r := HandleGitHubCallback J P (githubOAuth h) (authService h) now db
                           (Query c "code") in
                (match fst r with
                 | Err _ => server_error "failed to authenticate with GitHub"
                 | Ok res => mkResponse StatusOK [] EmptyString (auth_body res)
                 end, snd r)))).
Proof.
  split; [|split].
  - intros P Hn. unfold GoogleCallback, Context_Cookie. rewrite Hn. reflexivity.
  - intros P Hn. unfold GitHubCallback, Context_Cookie. rewrite Hn. reflexivity.
  - intros value Hck.
    pose proof (SetCookie_round_trip c "oauth_state" value 300 "/" EmptyString false true Hck)
      as Hc.
    split.
    + intros P. unfold GoogleCallback. rewrite Hc. split; [|split].
      * intros Hne. rewrite (proj2 (String.eqb_neq _ _) Hne). reflexivity.
      * intros -> Hcode. rewrite String.eqb_refl, Hcode. reflexivity.
      * intros -> Hcode. rewrite String.eqb_refl, (proj2 (is_empty_false _) Hcode).
        cbv zeta. simpl negb. cbv iota.
        destruct (HandleGoogleCallback J P (googleOAuth h) (authService h) now db
                    (Query c "code")) as [[res|e] db']; reflexivity.
    + intros P. unfold GitHubCallback. rewrite Hc. split; [|split].
      * intros Hne. rewrite (proj2 (String.eqb_neq _ _) Hne). reflexivity.
      * intros -> Hcode. rewrite String.eqb_refl, Hcode. reflexivity.
      * intros -> Hcode. rewrite String.eqb_refl, (proj2 (is_empty_false _) Hcode).
        cbv zeta. simpl negb. cbv iota.
        destruct (HandleGitHubCallback J P (githubOAuth h) (authService h) now db
                    (Query c "code")) as [[res|e] db']; reflexivity.
Qed.

End StateCheck.

Lemma callback_state_check_witness :
  GitHubCallback refCodec scenarioProvider scenarioHandler 9 emptyWorld
    (returning "forged" "code")
  = (bad_request "invalid state parameter", emptyWorld)
  /\ GitHubCallback refCodec scenarioProvider scenarioHandler 9 emptyWorld
       (returning generateRandomState EmptyString)
     = (bad_request "authorization code is required", emptyWorld).
Proof.
  split.
  - refine (proj1 (proj2 (proj2 (proj2 (callback_state_check refCodec scenarioHandler 9
                                          emptyWorld (returning "forged" "code")))
                            generateRandomState eq_refl) scenarioProvider) _).
    vm_compute. discriminate.
  - refine (proj1 (proj2 (proj2 (proj2 (proj2 (callback_state_check refCodec scenarioHandler 9
                                          emptyWorld (returning generateRandomState EmptyString)))
                            generateRandomState eq_refl) scenarioProvider)) _ _);
      reflexivity.
Defined.

(* ================================================================ *)
(** * Circles: membership and the access it gives *)

Lemma memberExists_HasMember (c : Circle) (userID : ObjectID) :
  memberExists (c_Members c) userID = HasMember c userID.
Proof.
  unfold HasMember. induction (c_Members c) as [|m l IH]; simpl; [reflexivity|].
  rewrite IH. reflexivity.
Qed.

Lemma access_loop_granted (l : list CircleMember) (userID : ObjectID) :
  snd (GetMemberAccessLevel_loop l userID) = HasMember_loop l userID.
Proof.
  induction l as [|m l IH]; simpl; [reflexivity|].
  destruct (ObjectID_eqb (cm_UserID m) userID); [reflexivity | exact IH].
Qed.

Lemma access_granted (c : Circle) (userID : ObjectID) :
  snd (GetMemberAccessLevel c userID)
  = ObjectID_eqb (c_OwnerID c) userID || HasMember c userID.
Proof.
  unfold GetMemberAccessLevel, HasMember.
  destruct (ObjectID_eqb (c_OwnerID c) userID); [reflexivity|].
  apply access_loop_granted.
Qed.

Lemma owner_or_member_access (c : Circle) (userID : ObjectID) :
  owner_or_member userID c = snd (GetMemberAccessLevel c userID).
Proof.
  rewrite access_granted. unfold owner_or_member, HasMember. f_equal.
  induction (c_Members c) as [|m l IH]; simpl; [reflexivity|].
  destruct (ObjectID_eqb (cm_UserID m) userID); [reflexivity | exact IH].
Qed.

Lemma access_loop_pull_self (l : list CircleMember) (userID : ObjectID) :
  GetMemberAccessLevel_loop
    (filter (fun m => negb (ObjectID_eqb (cm_UserID m) userID)) l) userID
  = (EmptyString, false).
Proof.
  induction l as [|m l IH]; simpl; [reflexivity|].
  destruct (ObjectID_eqb (cm_UserID m) userID) eqn:E; simpl; [exact IH|].
  rewrite E. exact IH.
Qed.

Lemma access_loop_pull_other (l : list CircleMember) (userID other : ObjectID) :
  other <> userID ->
  GetMemberAccessLevel_loop
    (filter (fun m => negb (ObjectID_eqb (cm_UserID m) userID)) l) other
  = GetMemberAccessLevel_loop l other.
Proof.
  intros Hne. induction l as [|m l IH]; simpl; [reflexivity|].
  destruct (ObjectID_eqb (cm_UserID m) userID) eqn:E; simpl.
  - apply ObjectID_eqb_eq in E.
    assert (Hx : ObjectID_eqb (cm_UserID m) other = false)
      by (apply ObjectID_eqb_neq; congruence).
    rewrite Hx. exact IH.
  - destruct (ObjectID_eqb (cm_UserID m) other); [reflexivity | exact IH].
Qed.

Lemma access_loop_set_self (l : list CircleMember) (userID : ObjectID) (lvl : AccessLevel) :
  HasMember_loop l userID = true ->
  GetMemberAccessLevel_loop
    (replace_first (fun m => ObjectID_eqb (cm_UserID m) userID)
       (fun m => with_AccessLevel m lvl) l) userID
  = (lvl, true).
Proof.
  induction l as [|m l IH]; simpl; [discriminate|].
  destruct (ObjectID_eqb (cm_UserID m) userID) eqn:E; simpl; rewrite E; auto.
Qed.

Lemma access_loop_set_other (l : list CircleMember) (userID other : ObjectID)
    (lvl : AccessLevel) :
  other <> userID ->
  GetMemberAccessLevel_loop
    (replace_first (fun m => ObjectID_eqb (cm_UserID m) userID)
       (fun m => with_AccessLevel m lvl) l) other
  = GetMemberAccessLevel_loop l other.
Proof.
  intros Hne. induction l as [|m l IH]; simpl; [reflexivity|].
  destruct (ObjectID_eqb (cm_UserID m) userID) eqn:E; simpl.
  - apply ObjectID_eqb_eq in E.
    assert (Hx : ObjectID_eqb (cm_UserID m) other = false)
      by (apply ObjectID_eqb_neq; congruence).
    rewrite Hx. reflexivity.
  - destruct (ObjectID_eqb (cm_UserID m) other); [reflexivity | exact IH].
Qed.

Lemma access_loop_push (l : list CircleMember) (m : CircleMember) (userID : ObjectID) :
  GetMemberAccessLevel_loop (l ++ [m]) userID
  = if HasMember_loop l userID then GetMemberAccessLevel_loop l userID
    else if ObjectID_eqb (cm_UserID m) userID then (cm_AccessLevel m, true)
    else (EmptyString, false).
Proof.
  induction l as [|x l IH]; simpl; [reflexivity|].
  destruct (ObjectID_eqb (cm_UserID x) userID); [reflexivity | exact IH].
Qed.

Lemma circles_UpdateOne_result (w w' : World) (p : Circle -> bool) (f : Circle -> Circle)
    (err : option error) (matched : Z) :
  circles_UpdateOne w p f = ((err, matched), w') ->
  (exists msg, err = Some (DriverError false msg) /\ w_circles w' = w_circles w)
  \/ (err = None /\ matched = 1 /\ existsb p (w_circles w) = true
      /\ w_circles w' = replace_first p f (w_circles w))
  \/ (err = None /\ matched = 0 /\ existsb p (w_circles w) = false
      /\ w_circles w' = w_circles w).
Proof.
  unfold circles_UpdateOne. pose proof (env_step_circles w) as Hc.
  destruct (env_step w) as [[msg|] w1]; simpl in Hc.
  - intros H. inversion H; subst. left. exists msg. auto.
  - rewrite Hc. destruct (existsb p (w_circles w)) eqn:E; intros H; inversion H; subst.
    + right. left. cbn [set_circles w_circles]. auto.
    + right. right. auto.
Qed.

Lemma replace_first_keeps {A} (p : A -> bool) (f : A -> A) (l : list A) (x : A) :
  In x l -> p x = false -> In x (replace_first p f l).
Proof.
  induction l as [|a l IH]; simpl; [auto|].
  intros [->|Hin] Hp.
  - rewrite Hp. left. reflexivity.
  - destruct (p a); [right; exact Hin | right; apply IH; assumption].
Qed.

Lemma replace_first_stronger {A} (p q : A -> bool) (f : A -> A) (l : list A) (c : A) :
  (forall x, q x = true -> p x = true) ->
  find p l = Some c -> q c = true ->
  replace_first q f l = replace_first p f l.
Proof.
  intros Hqp. induction l as [|a l IH]; simpl; [discriminate|].
  destruct (p a) eqn:Ep.
  - intros H Hq. inversion H; subst a. rewrite Hq. reflexivity.
  - intros H Hq. destruct (q a) eqn:Eq.
    + rewrite (Hqp a Eq) in Ep. discriminate.
    + f_equal. apply IH; assumption.
Qed.

Lemma find_existsb {A} (p : A -> bool) (l : list A) (c : A) :
  find p l = Some c -> existsb p l = true.
Proof.
  intros H. apply find_some in H. apply existsb_exists. exists c. exact H.
Qed.

(** The circle with the id after an update of its members. *)
Lemma circle_of_updated (w w' : World) (circleID : ObjectID) (c : Circle)
    (g : Circle -> list CircleMember) (now : Z) :
  circle_of w circleID = Some c ->
  w_circles w'
  = replace_first (fun c => ObjectID_eqb (c_ID c) circleID)
      (fun c => with_Members c (g c) now) (w_circles w) ->
  circle_of w' circleID = Some (with_Members c (g c) now)
  /\ (forall x, In x (w_circles w) -> c_ID x <> circleID -> In x (w_circles w')).
Proof.
  unfold circle_of. intros Hc Hw. rewrite Hw. split.
  - rewrite find_replace_first; [rewrite Hc; reflexivity|].
    intros x Hx. exact Hx.
  - intros x Hin Hne. apply replace_first_keeps; [exact Hin|].
    apply ObjectID_eqb_neq. exact Hne.
Qed.

Lemma mongoCircle_FindByID_quiet (w : World) (id : ObjectID) (c : Circle) :
  w_env w = [] -> circle_of w id = Some c -> mongoCircle_FindByID w id = (Ok c, w).
Proof.
  intros Henv Hc. unfold mongoCircle_FindByID, circles_FindOne.
  rewrite (env_step_quiet w Henv). unfold circle_of in Hc. rewrite Hc. reflexivity.
Qed.

Lemma RemoveMember_post (w w' : World) (now : Z) (circleID userID : ObjectID) :
  RemoveMember w now circleID userID = (None, w') ->
  exists c,
    circle_of w circleID = Some c
    /\ HasMember c userID = true
    /\ w_circles w'
       = replace_first (fun c => ObjectID_eqb (c_ID c) circleID)
           (fun c => with_Members c
                       (filter (fun m => negb (ObjectID_eqb (cm_UserID m) userID))
                               (c_Members c)) now) (w_circles w).
Proof.
  unfold RemoveMember.
  pose proof (mongoCircle_FindByID_spec w circleID) as Hs. cbv zeta in Hs.
  destruct Hs as [Hs [Hc Hok]].
  destruct (mongoCircle_FindByID w circleID) as [[c|e] w1] eqn:Ef; simpl in Hs, Hok;
    [|discriminate].
  specialize (Hok c eq_refl).
  destruct (memberExists (c_Members c) userID) eqn:Em; simpl; [|discriminate].
  match goal with
  | |- context [circles_UpdateOne w1 ?p ?f] =>
      destruct (circles_UpdateOne w1 p f) as [[err m] w2] eqn:Eu
  end.
  apply circles_UpdateOne_result in Eu.
  destruct Eu as [[msg [-> _]]|[[-> [-> [_ Hw]]]|[-> [-> _]]]]; simpl;
    [discriminate| |discriminate].
  intros H. inversion H; subst w'. exists c.
  split; [exact Hok|]. split; [rewrite <- memberExists_HasMember; exact Em|].
  rewrite Hw, Hs, Hc. reflexivity.
Qed.

Lemma UpdateMemberAccess_post (w w' : World) (now : Z) (circleID userID : ObjectID)
    (lvl : AccessLevel) :
  UpdateMemberAccess w now circleID userID lvl = (None, w') ->
  exists c,
    circle_of w circleID = Some c
    /\ HasMember c userID = true
    /\ w_circles w'
       = replace_first (fun c => ObjectID_eqb (c_ID c) circleID)
           (fun c => with_Members c
                       (replace_first (fun m => ObjectID_eqb (cm_UserID m) userID)
                          (fun m => with_AccessLevel m lvl) (c_Members c)) now)
           (w_circles w).
Proof.
  unfold UpdateMemberAccess.
  pose proof (mongoCircle_FindByID_spec w circleID) as Hs. cbv zeta in Hs.
  destruct Hs as [Hs [Hc Hok]].
  destruct (mongoCircle_FindByID w circleID) as [[c|e] w1] eqn:Ef; simpl in Hs, Hok;
    [|discriminate].
  specialize (Hok c eq_refl).
  destruct (memberExists (c_Members c) userID) eqn:Em; simpl; [|discriminate].
  match goal with
  | |- context [circles_UpdateOne w1 ?p ?f] =>
      destruct (circles_UpdateOne w1 p f) as [[err m] w2] eqn:Eu
  end.
  apply circles_UpdateOne_result in Eu.
  destruct Eu as [[msg [-> _]]|[[-> [-> [_ Hw]]]|[-> [-> _]]]]; simpl;
    [discriminate| |discriminate].
  intros H. inversion H; subst w'. exists c.
  assert (Hm : HasMember c userID = true) by (rewrite <- memberExists_HasMember; exact Em).
  split; [exact Hok|]. split; [exact Hm|].
  rewrite Hw, Hs, Hc.
  apply (replace_first_stronger _ _ _ _ c).
  - intros x Hx. apply andb_true_iff in Hx. apply Hx.
  - exact Hok.
  - apply andb_true_iff. split.
    + apply find_some in Hok. apply Hok.
    + unfold HasMember in Hm. clear - Hm.
      induction (c_Members c) as [|x l IH]; simpl in *; [discriminate|].
      destruct (ObjectID_eqb (cm_UserID x) userID); [reflexivity | auto].
Qed.

Lemma AddMember_post (w w' : World) (now : Z) (circleID : ObjectID) (member : CircleMember) :
  AddMember w now circleID member = (None, w') ->
  exists c,
    circle_of w circleID = Some c
    /\ w_circles w'
       = replace_first (fun c => ObjectID_eqb (c_ID c) circleID)
           (fun c => with_Members c (c_Members c ++ [member]) now) (w_circles w).
Proof.
  unfold AddMember.
  match goal with
  | |- context [circles_UpdateOne w ?p ?f] =>
      destruct (circles_UpdateOne w p f) as [[err m] w2] eqn:Eu
  end.
  apply circles_UpdateOne_result in Eu.
  destruct Eu as [[msg [-> _]]|[[-> [-> [He Hw]]]|[-> [-> _]]]]; simpl;
    [discriminate| |discriminate].
  intros H. inversion H; subst w'.
  unfold circle_of.
  destruct (find (fun c => ObjectID_eqb (c_ID c) circleID) (w_circles w)) as [c|] eqn:Ef.
  - exists c. auto.
  - exfalso. apply existsb_exists in He. destruct He as [x [Hin Hx]].
    pose proof (find_none _ _ Ef x Hin) as Hn. simpl in Hn. congruence.
Qed.

Lemma HasMember_pulled (c : Circle) (userID : ObjectID) (now : Z) :
  HasMember
    (with_Members c (filter (fun m => negb (ObjectID_eqb (cm_UserID m) userID)) (c_Members c))
       now) userID = false.
Proof.
  unfold HasMember. cbn [with_Members c_Members].
  rewrite <- access_loop_granted, access_loop_pull_self. reflexivity.
Qed.

Lemma circles_UpdateOne_quiet (w : World) (p : Circle -> bool) (f : Circle -> Circle)
    (c : Circle) :
  w_env w = [] -> In c (w_circles w) -> p c = true ->
  fst (circles_UpdateOne w p f) = (None, 1).
Proof.
  intros Henv Hin Hp. unfold circles_UpdateOne. rewrite (env_step_quiet w Henv).
  assert (He : existsb p (w_circles w) = true) by (apply existsb_exists; exists c; auto).
  rewrite He. reflexivity.
Qed.

Lemma HasMember_existsb (c : Circle) (userID : ObjectID) :
  existsb (fun m => ObjectID_eqb (cm_UserID m) userID) (c_Members c) = HasMember c userID.
Proof.
  unfold HasMember. induction (c_Members c) as [|m l IH]; simpl; [reflexivity|].
  destruct (ObjectID_eqb (cm_UserID m) userID); [reflexivity | exact IH].
Qed.

(** X15. A [RemoveMember] that succeeds was given a circle that exists
    and a user among its members.  Afterwards the stored circle has no
    entry of that user, who resolves to no access unless they own the
    circle; every other user resolves to what they did before, and no
    circle with another id has changed.  Where the database is quiet,
    it does succeed for every member of an existing circle. *)
Theorem RemoveMember_revokes (w : World) (now : Z) (circleID userID : ObjectID) :
  (forall w', RemoveMember w now circleID userID = (None, w') ->
     exists c c',
       circle_of w circleID = Some c /\ circle_of w' circleID = Some c'
       /\ HasMember c userID = true
       /\ HasMember c' userID = false
       /\ (c_OwnerID c <> userID ->
           GetMemberAccessLevel c' userID = (EmptyString, false))
       /\ (forall other, other <> userID ->
             GetMemberAccessLevel c' other = GetMemberAccessLevel c other)
       /\ (forall x, In x (w_circles w) -> c_ID x <> circleID -> In x (w_circles w')))
  /\ (w_env w = [] ->
      forall c, circle_of w circleID = Some c -> HasMember c userID = true ->
      fst (RemoveMember w now circleID userID) = None).
Proof.
  split.
  - intros w' H. destruct (RemoveMember_post w w' now circleID userID H) as [c [Hc [Hm Hw]]].
    destruct (circle_of_updated w w' circleID c _ now Hc Hw) as [Hc' Hframe].
    exists c. eexists. split; [exact Hc|]. split; [exact Hc'|]. split; [exact Hm|].
    split; [apply HasMember_pulled|].
    split; [|split; [|exact Hframe]].
    + intros Hne. unfold GetMemberAccessLevel. cbn [with_Members c_OwnerID c_Members].
      rewrite (proj2 (ObjectID_eqb_neq _ _) Hne). apply access_loop_pull_self.
    + intros other Hne. unfold GetMemberAccessLevel. cbn [with_Members c_OwnerID c_Members].
      rewrite (access_loop_pull_other _ _ _ Hne). reflexivity.
  - intros Henv c Hc Hm. unfold RemoveMember.
    rewrite (mongoCircle_FindByID_quiet w circleID c Henv Hc).
    rewrite memberExists_HasMember, Hm. cbn [negb].
    match goal with
    | |- context [circles_UpdateOne w ?p ?f] =>
        pose proof (circles_UpdateOne_quiet w p f c Henv) as Hq;
        destruct (circles_UpdateOne w p f) as [[err m] w2]
    end.
    unfold circle_of in Hc. apply find_some in Hc. destruct Hc as [Hin Hid].
    specialize (Hq Hin Hid). simpl in Hq. inversion Hq; subst. reflexivity.
Qed.

Lemma RemoveMember_revokes_witness :
  fst (RemoveMember friendsWorld 1 (oid 5) (oid 7)) = None
  /\ exists c',
       circle_of (snd (RemoveMember friendsWorld 1 (oid 5) (oid 7))) (oid 5) = Some c'
       /\ GetMemberAccessLevel c' (oid 7) = (EmptyString, false).
Proof.
  split.
  - apply (proj2 (RemoveMember_revokes friendsWorld 1 (oid 5) (oid 7)) eq_refl friends);
      reflexivity.
  - destruct (proj1 (RemoveMember_revokes friendsWorld 1 (oid 5) (oid 7))
                (snd (RemoveMember friendsWorld 1 (oid 5) (oid 7))) eq_refl)
      as [c [c' [Hc [Hc' [_ [_ [Hno _]]]]]]].
    exists c'. split; [exact Hc'|]. apply Hno.
    assert (Hf : c = friends).
    { assert (E : circle_of friendsWorld (oid 5) = Some friends) by reflexivity. congruence. }
    rewrite Hf. vm_compute. discriminate.
Defined.

(** X16. An [UpdateMemberAccess] that succeeds was given a circle that
    exists and a user among its members.  Afterwards that user resolves
    to the new level, unless they own the circle and so stay [admin];
    the member list names the same users in the same order, every
    other user resolves to what they did before, and no circle with
    another id has changed.  Where the database is quiet, it does
    succeed for every member of an existing circle. *)
Theorem UpdateMemberAccess_sets_level (w : World) (now : Z) (circleID userID : ObjectID)
    (lvl : AccessLevel) :
  (forall w', UpdateMemberAccess w now circleID userID lvl = (None, w') ->
     exists c c',
       circle_of w circleID = Some c /\ circle_of w' circleID = Some c'
       /\ HasMember c userID = true
       /\ map cm_UserID (c_Members c') = map cm_UserID (c_Members c)
       /\ (c_OwnerID c <> userID -> GetMemberAccessLevel c' userID = (lvl, true))
       /\ (c_OwnerID c = userID -> GetMemberAccessLevel c' userID = (AccessLevelAdmin, true))
       /\ (forall other, other <> userID ->
             GetMemberAccessLevel c' other = GetMemberAccessLevel c other)
       /\ (forall x, In x (w_circles w) -> c_ID x <> circleID -> In x (w_circles w')))
  /\ (w_env w = [] ->
      forall c, circle_of w circleID = Some c -> HasMember c userID = true ->
      fst (UpdateMemberAccess w now circleID userID lvl) = None).
Proof.
  split.
  - intros w' H.
    destruct (UpdateMemberAccess_post w w' now circleID userID lvl H) as [c [Hc [Hm Hw]]].
    destruct (circle_of_updated w w' circleID c _ now Hc Hw) as [Hc' Hframe].
    exists c. eexists. split; [exact Hc|]. split; [exact Hc'|]. split; [exact Hm|].
    split; [cbn [with_Members c_Members]; apply map_UserID_replace_first|].
    split; [|split; [|split; [|exact Hframe]]].
    + intros Hne. unfold GetMemberAccessLevel. cbn [with_Members c_OwnerID c_Members].
      rewrite (proj2 (ObjectID_eqb_neq _ _) Hne). apply access_loop_set_self. exact Hm.
    + intros Heq. unfold GetMemberAccessLevel. cbn [with_Members c_OwnerID].
      rewrite (proj2 (ObjectID_eqb_eq _ _) Heq). reflexivity.
    + intros other Hne. unfold GetMemberAccessLevel. cbn [with_Members c_OwnerID c_Members].
      rewrite (access_loop_set_other _ _ _ _ Hne). reflexivity.
  - intros Henv c Hc Hm. unfold UpdateMemberAccess.
    rewrite (mongoCircle_FindByID_quiet w circleID c Henv Hc).
    rewrite memberExists_HasMember, Hm. cbn [negb]. cbv zeta.
    match goal with
    | |- context [circles_UpdateOne w ?p ?f] =>
        pose proof (circles_UpdateOne_quiet w p f c Henv) as Hq;
        destruct (circles_UpdateOne w p f) as [[err m] w2]
    end.
    unfold circle_of in Hc. apply find_some in Hc. destruct Hc as [Hin Hid].
    cbv beta in Hq. rewrite Hid, HasMember_existsb, Hm in Hq.
    specialize (Hq Hin eq_refl). simpl in Hq. inversion Hq; subst. reflexivity.
Qed.

Lemma UpdateMemberAccess_sets_level_witness :
  fst (UpdateMemberAccess friendsWorld 1 (oid 5) (oid 7) AccessLevelEdit) = None
  /\ exists c',
       circle_of (snd (UpdateMemberAccess friendsWorld 1 (oid 5) (oid 7) AccessLevelEdit))
         (oid 5) = Some c'
       /\ GetMemberAccessLevel c' (oid 7) = (AccessLevelEdit, true).
Proof.
  split.
  - apply (proj2 (UpdateMemberAccess_sets_level friendsWorld 1 (oid 5) (oid 7) AccessLevelEdit)
             eq_refl friends); reflexivity.
  - destruct (proj1 (UpdateMemberAccess_sets_level friendsWorld 1 (oid 5) (oid 7)
                       AccessLevelEdit)
                (snd (UpdateMemberAccess friendsWorld 1 (oid 5) (oid 7) AccessLevelEdit))
                eq_refl)
      as [c [c' [Hc [Hc' [_ [_ [Hset _]]]]]]].
    exists c'. split; [exact Hc'|]. apply Hset.
    assert (Hf : c = friends).
    { assert (E : circle_of friendsWorld (oid 5) = Some friends) by reflexivity. congruence. }
    rewrite Hf. vm_compute. discriminate.
Defined.

Lemma members_of_circle (w : World) (circleID : ObjectID) (c : Circle) :
  circle_of w circleID = Some c -> members_of w circleID = c_Members c.
Proof. unfold circle_of, members_of. intros ->. reflexivity. Qed.

Lemma pull_pushed (l : list CircleMember) (m : CircleMember) :
  filter (fun x => negb (ObjectID_eqb (cm_UserID x) (cm_UserID m))) (l ++ [m])
  = filter (fun x => negb (ObjectID_eqb (cm_UserID x) (cm_UserID m))) l.
Proof.
  rewrite filter_app. simpl. rewrite ObjectID_eqb_refl. simpl. apply app_nil_r.
Qed.

Lemma pull_absent (l : list CircleMember) (userID : ObjectID) :
  memberExists l userID = false ->
  filter (fun x => negb (ObjectID_eqb (cm_UserID x) userID)) l = l.
Proof.
  induction l as [|x l IH]; simpl; [reflexivity|].
  destruct (ObjectID_eqb (cm_UserID x) userID); [discriminate|].
  intros H. simpl. rewrite (IH H). reflexivity.
Qed.

(** X18. [AddMember] followed by [RemoveMember] of the same user, both
    successful: the member list of the circle is the one from before
    the two calls without the entries of that user -- so exactly the
    one from before when the user was not a member, and without their
    old entry too when they were.  On a quiet database the
    [RemoveMember] after a successful [AddMember] does succeed. *)
Theorem AddMember_then_RemoveMember (w w1 : World) (now1 now2 : Z) (circleID : ObjectID)
    (member : CircleMember) :
  AddMember w now1 circleID member = (None, w1) ->
  (forall w2, RemoveMember w1 now2 circleID (cm_UserID member) = (None, w2) ->
     members_of w2 circleID
     = filter (fun m => negb (ObjectID_eqb (cm_UserID m) (cm_UserID member)))
         (members_of w circleID)
     /\ (memberExists (members_of w circleID) (cm_UserID member) = false ->
         members_of w2 circleID = members_of w circleID))
  /\ (w_env w1 = [] ->
      fst (RemoveMember w1 now2 circleID (cm_UserID member)) = None).
Proof.
  intros Ha. destruct (AddMember_post w w1 now1 circleID member Ha) as [c [Hc Hw]].
  destruct (circle_of_updated w w1 circleID c (fun c => c_Members c ++ [member])%list
              now1 Hc Hw) as [Hc1 _].
  split.
  - intros w2 Hr.
    destruct (RemoveMember_post w1 w2 now2 circleID (cm_UserID member) Hr)
      as [c1 [Hc1' [_ Hw2]]].
    destruct (circle_of_updated w1 w2 circleID c1 _ now2 Hc1' Hw2) as [Hc2 _].
    assert (Hx : c1 = with_Members c (c_Members c ++ [member]) now1) by congruence.
    subst c1.
    rewrite (members_of_circle w2 circleID _ Hc2), (members_of_circle w circleID c Hc).
    cbn [with_Members c_Members]. rewrite pull_pushed.
    split; [reflexivity|]. intros Hn. apply pull_absent. exact Hn.
  - intros Henv. unfold RemoveMember.
    rewrite (mongoCircle_FindByID_quiet w1 circleID _ Henv Hc1).
    assert (Hm : memberExists (c_Members (with_Members c (c_Members c ++ [member]) now1))
                   (cm_UserID member) = true).
    { cbn [with_Members c_Members]. clear.
      induction (c_Members c) as [|x l IH]; simpl.
      - rewrite ObjectID_eqb_refl. reflexivity.
      - destruct (ObjectID_eqb (cm_UserID x) (cm_UserID member)); [reflexivity | exact IH]. }
    rewrite Hm. cbn [negb].
    match goal with
    | |- context [circles_UpdateOne w1 ?p ?f] =>
        pose proof (circles_UpdateOne_quiet w1 p f
                      (with_Members c (c_Members c ++ [member]) now1) Henv) as Hq;
        destruct (circles_UpdateOne w1 p f) as [[err m] w2]
    end.
    unfold circle_of in Hc1. apply find_some in Hc1. destruct Hc1 as [Hin Hid].
    specialize (Hq Hin Hid). simpl in Hq. inversion Hq; subst. reflexivity.
Qed.

Lemma AddMember_then_RemoveMember_witness :
  members_of
    (snd (RemoveMember
            (snd (AddMember friendsWorld 1 (oid 5) (mkCircleMember (oid 8) AccessLevelEdit 1 None)))
            2 (oid 5) (oid 8))) (oid 5)
  = members_of friendsWorld (oid 5).
Proof.
  refine (proj2 (proj1 (AddMember_then_RemoveMember friendsWorld _ 1 2 (oid 5)
                          (mkCircleMember (oid 8) AccessLevelEdit 1 None) eq_refl) _ _) _).
  - reflexivity.
  - reflexivity.
Defined.

(** X19. [FindByUserID], when it succeeds, returns the stored circles
    in which the user resolves to some access level -- the circles they
    own or have an entry in -- each of them once and no others, in
    whatever order the server answers; it changes no circle.  On a
    quiet database it succeeds. *)
Theorem FindByUserID_lists_accessible (cursor_order : list Circle -> list Circle)
    (w : World) (userID : ObjectID) :
  (forall l, Permutation (cursor_order l) l) ->
  (forall cs w', mongoCircle_FindByUserID cursor_order w userID = (Ok cs, w') ->
     Permutation cs (filter (fun c => snd (GetMemberAccessLevel c userID)) (w_circles w))
     /\ w_circles w' = w_circles w
     /\ (forall c, In c cs <->
                   In c (w_circles w) /\ (c_OwnerID c = userID \/ HasMember c userID = true)))
  /\ (w_env w = [] ->
      exists cs, mongoCircle_FindByUserID cursor_order w userID = (Ok cs, w)).
Proof.
  intros Hperm.
  assert (Hext : forall l,
             filter (owner_or_member userID) l
             = filter (fun c => snd (GetMemberAccessLevel c userID)) l).
  { intros l. apply filter_ext. intros c. apply owner_or_member_access. }
  split.
  - intros cs w'. unfold mongoCircle_FindByUserID.
    pose proof (env_step_circles w) as H1.
    destruct (env_step w) as [[msg|] w1]; [discriminate|]. simpl in H1. cbv zeta.
    pose proof (env_step_circles w1) as H2.
    destruct (env_step w1) as [[msg|] w2]; [discriminate|]. simpl in H2.
    intros H. inversion H; subst cs w'. clear H.
    rewrite H1, Hext.
    split; [apply Hperm|]. split; [congruence|].
    intros c. split.
    + intros Hin. apply (Permutation_in _ (Hperm _)) in Hin.
      revert Hin. rewrite filter_In, access_granted, orb_true_iff, ObjectID_eqb_eq. tauto.
    + intros Hin. apply (Permutation_in _ (Permutation_sym (Hperm _))).
      rewrite filter_In, access_granted, orb_true_iff, ObjectID_eqb_eq. tauto.
  - intros Henv. unfold mongoCircle_FindByUserID.
    rewrite (env_step_quiet w Henv). cbv zeta. rewrite (env_step_quiet w Henv).
    eexists. reflexivity.
Qed.

Lemma FindByUserID_lists_accessible_witness :
  mongoCircle_FindByUserID (@rev Circle) friendsWorld (oid 7) = (Ok [friends], friendsWorld)
  /\ Permutation [friends]
       (filter (fun c => snd (GetMemberAccessLevel c (oid 7))) (w_circles friendsWorld)).
Proof.
  split; [reflexivity|].
  exact (proj1 (proj1 (FindByUserID_lists_accessible (@rev Circle) friendsWorld (oid 7)
                         (fun l => Permutation_sym (Permutation_rev l)))
                  [friends] friendsWorld eq_refl)).
Defined.

(* ================================================================ *)
(** * Create, find, delete *)

Lemma remove_first_app_last {A} (p : A -> bool) (l : list A) (x : A) :
  find p l = None -> p x = true -> remove_first p (l ++ [x]) = l.
Proof.
  intros Hn Hx. induction l as [|a l IH]; simpl in *.
  - rewrite Hx. reflexivity.
  - destruct (p a); [discriminate|]. rewrite (IH Hn). reflexivity.
Qed.

Lemma existsb_false_find {A} (p : A -> bool) (l : list A) :
  existsb p l = false -> find p l = None.
Proof.
  induction l as [|a l IH]; simpl; [reflexivity|].
  destruct (p a); simpl; [discriminate | exact IH].
Qed.

Lemma find_none_existsb {A} (p : A -> bool) (l : list A) :
  find p l = None -> existsb p l = false.
Proof.
  induction l as [|a l IH]; simpl; [reflexivity|].
  destruct (p a); simpl; [discriminate | exact IH].
Qed.

Lemma mongoCircle_Create_quiet (w w1 : World) (now : Z) (circle c' : Circle) :
  w_env w = [] ->
  mongoCircle_Create w now circle = ((c', None), w1) ->
  c' = with_Circle_times
         (if IsZero (c_ID circle) then with_Circle_ID circle (fst (NewObjectID w))
          else circle) now now
  /\ w_circles w1 = (w_circles w ++ [c'])%list
  /\ w_users w1 = w_users w
  /\ w_env w1 = []
  /\ circle_of w (c_ID c') = None.
Proof.
  intros Henv. unfold mongoCircle_Create.
  destruct (IsZero (c_ID circle)).
  - unfold NewObjectID, circles_InsertOne, env_step. cbn [w_env]. rewrite Henv.
    cbn [w_users w_circles w_oid_counter w_env].
    match goal with
    | |- context [existsb ?p (w_circles w)] => destruct (existsb p (w_circles w)) eqn:E
    end; [discriminate|].
    intros H. inversion H; subst c' w1. clear H. cbn [fst].
    repeat split. apply existsb_false_find. exact E.
  - unfold circles_InsertOne. rewrite (env_step_quiet w Henv).
    match goal with
    | |- context [existsb ?p (w_circles w)] => destruct (existsb p (w_circles w)) eqn:E
    end; [discriminate|].
    intros H. inversion H; subst c' w1. clear H.
    repeat split; [exact Henv|]. apply existsb_false_find. exact E.
Qed.

Lemma mongoCircle_Delete_quiet (w : World) (id : ObjectID) :
  w_env w = [] ->
  mongoCircle_Delete w id
  = if existsb (fun c => ObjectID_eqb (c_ID c) id) (w_circles w)
    then (None, set_circles w (remove_first (fun c => ObjectID_eqb (c_ID c) id) (w_circles w)))
    else (Some (ErrorString "circle not found"), w).
Proof.
  intros Henv. unfold mongoCircle_Delete. rewrite (env_step_quiet w Henv). reflexivity.
Qed.

Lemma mongoCircle_FindByID_missing (w : World) (id : ObjectID) :
  w_env w = [] -> circle_of w id = None ->
  mongoCircle_FindByID w id
  = (Err (Wrap "circle not found: " (Sentinel ErrNoDocuments)), w).
Proof.
  intros Henv Hc. unfold mongoCircle_FindByID, circles_FindOne.
  rewrite (env_step_quiet w Henv). unfold circle_of in Hc. rewrite Hc. reflexivity.
Qed.

Lemma AddMember_quiet (w : World) (now : Z) (circleID : ObjectID) (member : CircleMember)
    (c : Circle) :
  w_env w = [] -> circle_of w circleID = Some c ->
  fst (AddMember w now circleID member) = None.
Proof.
  intros Henv Hc. unfold AddMember.
  match goal with
  | |- context [circles_UpdateOne w ?p ?f] =>
      pose proof (circles_UpdateOne_quiet w p f c Henv) as Hq;
      destruct (circles_UpdateOne w p f) as [[err m] w2]
  end.
  unfold circle_of in Hc. apply find_some in Hc. destruct Hc as [Hin Hid].
  specialize (Hq Hin Hid). simpl in Hq. inversion Hq; subst. reflexivity.
Qed.

(** X17. An [AddMember] that succeeds was given a circle that exists.
    Afterwards a user who already resolved to some access -- the owner,
    or a user with an entry -- resolves to exactly what they did
    before, also when the new entry is theirs and names another level;
    the user of the new entry who had no access resolves to the level
    of the entry; everyone else still has none.  No circle with another
    id has changed.  Where the database is quiet, it does succeed for
    every stored circle that has a member, and for the circle a
    [Create] has just stored. *)
Theorem AddMember_access (w : World) (now : Z) (circleID : ObjectID) (member : CircleMember) :
  (forall w', AddMember w now circleID member = (None, w') ->
     exists c c',
       circle_of w circleID = Some c /\ circle_of w' circleID = Some c'
       /\ (forall x,
             GetMemberAccessLevel c' x
             = if snd (GetMemberAccessLevel c x) then GetMemberAccessLevel c x
               else if ObjectID_eqb (cm_UserID member) x then (cm_AccessLevel member, true)
               else (EmptyString, false))
       /\ (forall x, In x (w_circles w) -> c_ID x <> circleID -> In x (w_circles w')))
  /\ (w_env w = [] ->
      forall c, circle_of w circleID = Some c -> c_Members c <> [] ->
      fst (AddMember w now circleID member) = None)
  /\ (forall w0 now0 circle c,
      w_env w0 = [] ->
      mongoCircle_Create w0 now0 circle = ((c, None), w) ->
      fst (AddMember w now (c_ID c) member) = None).
Proof.
  split; [|split].
  - intros w' H. destruct (AddMember_post w w' now circleID member H) as [c [Hc Hw]].
    destruct (circle_of_updated w w' circleID c (fun c => c_Members c ++ [member])%list
                now Hc Hw) as [Hc' Hframe].
    exists c. eexists. split; [exact Hc|]. split; [exact Hc'|]. split; [|exact Hframe].
    intros x. rewrite (access_granted c x).
    unfold GetMemberAccessLevel, HasMember. cbn [with_Members c_OwnerID c_Members].
    destruct (ObjectID_eqb (c_OwnerID c) x); [reflexivity|]. cbn [orb].
    apply access_loop_push.
  - intros Henv c Hc _. apply (AddMember_quiet w now circleID member c Henv Hc).
  - intros w0 now0 circle c Henv0 Hcr.
    destruct (mongoCircle_Create_quiet w0 w now0 circle c Henv0 Hcr)
      as [_ [Hw [_ [Henv Hfresh]]]].
    apply (AddMember_quiet w now (c_ID c) member c Henv).
    unfold circle_of in *. rewrite Hw.
    apply find_none_app_last; [exact Hfresh | apply ObjectID_eqb_refl].
Qed.

Lemma AddMember_access_witness :
  fst (AddMember friendsWorld 1 (oid 5) (mkCircleMember (oid 7) AccessLevelAdmin 1 None)) = None
  /\ exists c',
       circle_of (snd (AddMember friendsWorld 1 (oid 5)
                         (mkCircleMember (oid 7) AccessLevelAdmin 1 None))) (oid 5) = Some c'
       /\ GetMemberAccessLevel c' (oid 7) = (AccessLevelView, true).
Proof.
  split.
  - apply (proj1 (proj2 (AddMember_access friendsWorld 1 (oid 5)
                    (mkCircleMember (oid 7) AccessLevelAdmin 1 None))) eq_refl friends).
    + reflexivity.
    + discriminate.
  - destruct (proj1 (AddMember_access friendsWorld 1 (oid 5)
                       (mkCircleMember (oid 7) AccessLevelAdmin 1 None))
                (snd (AddMember friendsWorld 1 (oid 5)
                        (mkCircleMember (oid 7) AccessLevelAdmin 1 None))) eq_refl)
      as [c [c' [Hc [Hc' [Hacc _]]]]].
    exists c'. split; [exact Hc'|]. rewrite (Hacc (oid 7)).
    assert (Hf : c = friends).
    { assert (E : circle_of friendsWorld (oid 5) = Some friends) by reflexivity. congruence. }
    rewrite Hf. vm_compute. reflexivity.
Defined.

(** X20. On a quiet database a [Create] that succeeded leaves its
    argument with the time of the call in both timestamps, its name,
    owner and members, and its id when it had one, an id of no stored
    circle otherwise.  The collection has one more document at its
    end, which is that circle up to the time fields; [FindByID] with
    the id returns it, [FindByUserID] of the owner lists it, and
    [Delete] with the id puts the collection back as it was before the
    [Create], after which [FindByID] answers with the error "circle
    not found: " around [mongo.ErrNoDocuments] and a second [Delete]
    with the error "circle not found".  A [Create] with the id of a
    stored circle fails and stores nothing. *)
Theorem circle_create_find_delete (w : World) (now : Z) (circle : Circle) :
  w_env w = [] ->
  (forall c' w1,
      mongoCircle_Create w now circle = ((c', None), w1) ->
      (c_Name c' = c_Name circle /\ c_OwnerID c' = c_OwnerID circle
       /\ c_Members c' = c_Members circle
       /\ c_CreatedAt c' = now /\ c_UpdatedAt c' = now
       /\ (IsZero (c_ID circle) = false -> c_ID c' = c_ID circle)
       /\ circle_of w (c_ID c') = None)
      /\ exists stored,
           same_circle stored c'
           /\ w_circles w1 = (w_circles w ++ [stored])%list
           /\ mongoCircle_FindByID w1 (c_ID c') = (Ok stored, w1)
           /\ (forall cursor_order,
                 (forall l, Permutation (cursor_order l) l) ->
                 exists cs,
                   mongoCircle_FindByUserID cursor_order w1 (c_OwnerID circle) = (Ok cs, w1)
                   /\ In stored cs)
           /\ exists w2,
                mongoCircle_Delete w1 (c_ID c') = (None, w2)
                /\ w_circles w2 = w_circles w
                /\ mongoCircle_FindByID w2 (c_ID c')
                   = (Err (Wrap "circle not found: " (Sentinel ErrNoDocuments)), w2)
                /\ mongoCircle_Delete w2 (c_ID c')
                   = (Some (ErrorString "circle not found"), w2))
  /\ (forall old,
      circle_of w (c_ID circle) = Some old -> IsZero (c_ID circle) = false ->
      exists c' e,
        mongoCircle_Create w now circle = ((c', Some (Wrap "failed to create circle: " e)), w)).
Proof.
  intros Henv. split.
  - intros c' w1 Hcr.
    destruct (mongoCircle_Create_quiet w w1 now circle c' Henv Hcr)
      as [Hc' [Hw1 [_ [Henv1 Hfresh]]]].
    assert (Hfind : circle_of w1 (c_ID c') = Some c').
    { unfold circle_of. rewrite Hw1. apply find_none_app_last; [exact Hfresh|].
      apply ObjectID_eqb_refl. }
    assert (Hown : c_OwnerID c' = c_OwnerID circle).
    { rewrite Hc'. destruct (IsZero (c_ID circle)); reflexivity. }
    split.
    { split; [rewrite Hc'; destruct (IsZero (c_ID circle)); reflexivity|].
      split; [exact Hown|].
      split; [rewrite Hc'; destruct (IsZero (c_ID circle)); reflexivity|].
      split; [rewrite Hc'; reflexivity|]. split; [rewrite Hc'; reflexivity|].
      split; [|exact Hfresh].
      intros Hz. rewrite Hc', Hz. reflexivity. }
    exists c'.
    split; [repeat split|]. split; [exact Hw1|].
    split; [apply mongoCircle_FindByID_quiet; assumption|].
    split.
    { intros cursor_order Hperm. eexists. split.
      - unfold mongoCircle_FindByUserID. rewrite (env_step_quiet w1 Henv1). cbv zeta.
        rewrite (env_step_quiet w1 Henv1). reflexivity.
      - apply (Permutation_in _ (Permutation_sym (Hperm _))).
        apply filter_In. split.
        + rewrite Hw1. apply in_or_app. right. left. reflexivity.
        + unfold owner_or_member. rewrite Hown, ObjectID_eqb_refl. reflexivity. }
    exists (set_circles w1 (w_circles w)).
    assert (Hrm : remove_first (fun c => ObjectID_eqb (c_ID c) (c_ID c')) (w_circles w1)
                  = w_circles w).
    { rewrite Hw1. apply remove_first_app_last; [exact Hfresh | apply ObjectID_eqb_refl]. }
    assert (Henv2 : w_env (set_circles w1 (w_circles w)) = []) by exact Henv1.
    assert (Hgone : circle_of (set_circles w1 (w_circles w)) (c_ID c') = None) by exact Hfresh.
    split; [|split; [reflexivity|split]].
    + rewrite (mongoCircle_Delete_quiet w1 _ Henv1).
      rewrite (find_existsb _ _ _ Hfind), Hrm. reflexivity.
    + apply mongoCircle_FindByID_missing; assumption.
    + rewrite (mongoCircle_Delete_quiet _ _ Henv2).
      cbn [set_circles w_circles]. rewrite (find_none_existsb _ _ Hfresh). reflexivity.
  - intros old Hold Hz. unfold mongoCircle_Create. rewrite Hz.
    unfold circles_InsertOne. rewrite (env_step_quiet w Henv).
    cbn [with_Circle_times c_ID]. rewrite (find_existsb _ _ _ Hold).
    eexists. eexists. reflexivity.
Qed.

Lemma circle_create_find_delete_witness :
  snd (fst (mongoCircle_Create friendsWorld 3 family)) = None
  /\ (exists stored,
        mongoCircle_FindByID (snd (mongoCircle_Create friendsWorld 3 family))
          (c_ID (fst (fst (mongoCircle_Create friendsWorld 3 family))))
        = (Ok stored, snd (mongoCircle_Create friendsWorld 3 family))
        /\ c_Name stored = "Family")
  /\ exists e, snd (fst (mongoCircle_Create friendsWorld 3 friends))
               = Some (Wrap "failed to create circle: " e).
Proof.
  split; [reflexivity|]. split.
  - destruct (circle_create_find_delete friendsWorld 3 family eq_refl) as [H _].
    destruct (H _ _ eq_refl) as [[Hn _] [stored [[_ [Hs _]] [_ [Hf _]]]]].
    exists stored. split; [exact Hf|]. rewrite Hs. exact Hn.
  - destruct (circle_create_find_delete friendsWorld 3 friends eq_refl) as [_ H].
    destruct (H friends eq_refl eq_refl) as [c' [e He]].
    exists e. rewrite He. reflexivity.
Defined.

Lemma mongoUser_Create_fresh (w w1 : World) (now : Z) (user u' : User) :
  w_env w = [] ->
  mongoUser_Create w now user = ((u', None), w1) ->
  user_conflicts (w_users w) u' = None.
Proof.
  intros Henv. unfold mongoUser_Create.
  destruct (IsZero (u_ID user)).
  - unfold NewObjectID, users_InsertOne, env_step. cbn [w_env]. rewrite Henv.
    cbn [w_users w_circles w_oid_counter w_env].
    match goal with
    | |- context [user_conflicts ?a ?b] => destruct (user_conflicts a b) eqn:Ec
    end; [discriminate|].
    intros H. inversion H; subst u' w1. exact Ec.
  - unfold users_InsertOne. rewrite (env_step_quiet w Henv).
    match goal with
    | |- context [user_conflicts ?a ?b] => destruct (user_conflicts a b) eqn:Ec
    end; [discriminate|].
    intros H. inversion H; subst u' w1. exact Ec.
Qed.

Lemma mongoUser_FindByID_quiet (w : World) (id : ObjectID) :
  w_env w = [] ->
  mongoUser_FindByID w id
  = (match find (fun u => ObjectID_eqb (u_ID u) id) (w_users w) with
     | Some u => Ok u
     | None => Err (Sentinel ErrUserNotFound)
     end, w).
Proof.
  intros Henv. unfold mongoUser_FindByID, mongoUser_FindBy, users_FindOne.
  rewrite (env_step_quiet w Henv).
  destruct (find _ (w_users w)); reflexivity.
Qed.

Lemma mongoUser_Delete_quiet (w : World) (id : ObjectID) :
  w_env w = [] ->
  mongoUser_Delete w id
  = if existsb (fun u => ObjectID_eqb (u_ID u) id) (w_users w)
    then (None, set_users w (remove_first (fun u => ObjectID_eqb (u_ID u) id) (w_users w)))
    else (Some (ErrorString "user not found"), w).
Proof.
  intros Henv. unfold mongoUser_Delete, users_DeleteOne. rewrite (env_step_quiet w Henv).
  destruct (existsb _ (w_users w)); reflexivity.
Qed.

(** X21. On a quiet database, after a [Create] that succeeded for a
    user whose email no stored user had, the collection has one more
    document at its end: the user that was given, up to the time
    fields, under the id [Create] left in its argument.  [FindByID] with that id and [FindByEmail] with the
    email both return it.  [Delete] with the id puts the collection
    back as it was before the [Create]; after that both lookups answer
    [ErrUserNotFound], and a second [Delete] fails with "user not
    found", an error that is not [ErrUserNotFound]. *)
Theorem user_create_find_delete (w w1 : World) (now : Z) (user u' : User) :
  w_env w = [] ->
  find (fun u => String.eqb (u_Email u) (u_Email user)) (w_users w) = None ->
  mongoUser_Create w now user = ((u', None), w1) ->
  same_user u' (with_ID user (u_ID u'))
  /\ exists stored,
       same_user stored u'
       /\ w_users w1 = (w_users w ++ [stored])%list
       /\ mongoUser_FindByID w1 (u_ID u') = (Ok stored, w1)
       /\ mongoUser_FindByEmail w1 (u_Email user) = (Ok stored, w1)
       /\ exists w2,
            mongoUser_Delete w1 (u_ID u') = (None, w2)
            /\ w_users w2 = w_users w
            /\ mongoUser_FindByID w2 (u_ID u') = (Err (Sentinel ErrUserNotFound), w2)
            /\ mongoUser_FindByEmail w2 (u_Email user) = (Err (Sentinel ErrUserNotFound), w2)
            /\ exists e, mongoUser_Delete w2 (u_ID u') = (Some e, w2)
                         /\ Error e = "user not found"
                         /\ errors_Is e ErrUserNotFound = false.
Proof.
  intros Henv _ Hcr.
  destruct (mongoUser_Create_quiet w w1 now user u' Henv Hcr)
    as [Hw1 [_ [Henv1 [Hem [Hph [Hop Hon]]]]]].
  pose proof (mongoUser_Create_fresh w w1 now user u' Henv Hcr) as Hfresh.
  destruct (user_conflicts_none _ _ Hfresh) as [Hne Hni].
  assert (Hfi : find (fun u => ObjectID_eqb (u_ID u) (u_ID u')) (w_users w1) = Some u').
  { rewrite Hw1. apply find_none_app_last; [exact Hni | apply ObjectID_eqb_refl]. }
  assert (Hfe : find (fun u => String.eqb (u_Email u) (u_Email user)) (w_users w1) = Some u').
  { rewrite Hw1, <- Hem. apply find_none_app_last; [exact Hne | apply String.eqb_refl]. }
  split.
  { unfold same_user. cbn [with_ID u_ID u_Email u_PasswordHash u_Name u_AvatarURL
                           u_OAuthProvider u_OAuthProviderName].
    split; [reflexivity|]. split; [exact Hem|]. split; [exact Hph|].
    revert Hcr. unfold mongoUser_Create.
    destruct (IsZero (u_ID user)).
    - destruct (NewObjectID w) as [id w0].
      destruct (users_InsertOne w0 _) as [[e|] w2]; intros H; inversion H; subst u';
        repeat split; assumption.
    - destruct (users_InsertOne w _) as [[e|] w2]; intros H; inversion H; subst u';
        repeat split; assumption. }
  exists u'.
  split; [repeat split|]. split; [exact Hw1|].
  split; [rewrite (mongoUser_FindByID_quiet w1 _ Henv1), Hfi; reflexivity|].
  split; [rewrite (mongoUser_FindByEmail_quiet w1 _ Henv1), Hfe; reflexivity|].
  exists (set_users w1 (w_users w)).
  assert (Henv2 : w_env (set_users w1 (w_users w)) = []) by exact Henv1.
  split; [|split; [reflexivity|split; [|split]]].
  - rewrite (mongoUser_Delete_quiet w1 _ Henv1), (find_existsb _ _ _ Hfi).
    rewrite Hw1 at 1. rewrite remove_first_app_last;
      [reflexivity | exact Hni | apply ObjectID_eqb_refl].
  - rewrite (mongoUser_FindByID_quiet _ _ Henv2). cbn [set_users w_users].
    rewrite Hni. reflexivity.
  - rewrite (mongoUser_FindByEmail_quiet _ _ Henv2). cbn [set_users w_users].
    rewrite <- Hem, Hne. reflexivity.
  - exists (ErrorString "user not found").
    rewrite (mongoUser_Delete_quiet _ _ Henv2). cbn [set_users w_users].
    rewrite (find_none_existsb _ _ Hni). repeat split.
Qed.

Lemma user_create_find_delete_witness :
  exists stored,
    mongoUser_FindByEmail (snd (mongoUser_Create aliceWorld 3 carol)) "c@d.com"
    = (Ok stored, snd (mongoUser_Create aliceWorld 3 carol))
    /\ u_OAuthProvider stored = "7".
Proof.
  destruct (proj2 (user_create_find_delete aliceWorld _ 3 carol _ eq_refl eq_refl eq_refl))
    as [stored [Hs [_ [_ [Hf _]]]]].
  exists stored. split; [exact Hf|].
  destruct Hs as [_ [_ [_ [_ [_ [Hp _]]]]]]. rewrite Hp. reflexivity.
Defined.

(** X22. On a quiet database an [Update] that succeeds has found a
    stored user with the id, and [FindByID] then gives that user with
    the email, password hash and name of the value it was given; the
    avatar and the two provider fields are those of the value where it
    has them and the stored ones where it leaves them empty.  So an
    [Update] never removes a provider linkage, while a value with an
    empty hash removes the stored hash.  For an id that is not stored
    it fails with "user not found" and changes nothing.  (Nothing is
    said of the two time fields.) *)
Theorem user_update_omitempty (w : World) (now : Z) (user : User) :
  w_env w = [] ->
  (forall user' w',
      mongoUser_Update w now user = ((user', None), w') ->
      exists old stored,
        find (fun u => ObjectID_eqb (u_ID u) (u_ID user)) (w_users w) = Some old
        /\ mongoUser_FindByID w' (u_ID user) = (Ok stored, w')
        /\ u_ID stored = u_ID old
        /\ u_Email stored = u_Email user
        /\ u_PasswordHash stored = u_PasswordHash user
        /\ u_Name stored = u_Name user
        /\ u_AvatarURL stored
           = (if is_empty (u_AvatarURL user) then u_AvatarURL old else u_AvatarURL user)
        /\ u_OAuthProvider stored
           = (if is_empty (u_OAuthProvider user) then u_OAuthProvider old
              else u_OAuthProvider user)
        /\ u_OAuthProviderName stored
           = (if is_empty (u_OAuthProviderName user) then u_OAuthProviderName old
              else u_OAuthProviderName user)
        /\ (u_OAuthProvider old <> EmptyString -> u_OAuthProvider stored <> EmptyString))
  /\ (find (fun u => ObjectID_eqb (u_ID u) (u_ID user)) (w_users w) = None ->
      exists user',
        mongoUser_Update w now user = ((user', Some (ErrorString "user not found")), w)).
Proof.
  intros Henv. split.
  - intros user' w' Hup.
    destruct (mongoUser_Update_quiet w w' now user user' Henv Hup) as [Hu [Henv' [_ Hw']]].
    destruct (find (fun u => ObjectID_eqb (u_ID u) (u_ID user)) (w_users w)) as [old|] eqn:Ef.
    2:{ exfalso. revert Hup. unfold mongoUser_Update, users_UpdateOne_set.
        rewrite (env_step_quiet w Henv). cbn [u_ID with_UpdatedAt with_times].
        rewrite Ef. simpl. discriminate. }
    exists old, (set_user_fields old user').
    split; [reflexivity|]. split.
    { rewrite (mongoUser_FindByID_quiet w' _ Henv'), Hw'.
      rewrite find_replace_first; [rewrite Ef; reflexivity|].
      intros x Hx. exact Hx. }
    subst user'. unfold set_user_fields, keep_if_empty.
    cbn [u_ID u_Email u_PasswordHash u_Name u_AvatarURL u_OAuthProvider u_OAuthProviderName
         u_CreatedAt u_UpdatedAt with_UpdatedAt with_times].
    repeat (split; [reflexivity|]).
    intros Hold. destruct (is_empty (u_OAuthProvider user)) eqn:E; [exact Hold|].
    apply is_empty_false. exact E.
  - intros Hn. unfold mongoUser_Update, users_UpdateOne_set.
    rewrite (env_step_quiet w Henv). cbn [u_ID with_UpdatedAt with_times].
    rewrite Hn. eexists. reflexivity.
Qed.

Lemma user_update_omitempty_witness :
  exists stored,
    fst (mongoUser_FindByID (snd (mongoUser_Update ginaWorld 9 renamed)) (oid 3)) = Ok stored
    /\ u_Email stored = "new@y.com"
    /\ u_OAuthProvider stored = "g-77".
Proof.
  destruct (proj1 (user_update_omitempty ginaWorld 9 renamed eq_refl)
              (fst (fst (mongoUser_Update ginaWorld 9 renamed)))
              (snd (mongoUser_Update ginaWorld 9 renamed)) eq_refl)
    as [old [stored [Ho [Hf [_ [He [_ [_ [_ [Hp _]]]]]]]]]].
  exists stored.
  assert (E : Some gina = Some old) by exact Ho.
  inversion E; subst old.
  split; [exact (f_equal fst Hf)|]. split; [exact He | exact Hp].
Defined.

(* ================================================================ *)
(** * From the credentials to an authenticated request *)

(** Two ids with the same hexadecimal form are the same id. *)
Lemma unhex_hex_byte (c : ascii) (r : string) :
  unhex (hex_byte false c ++ r)
  = match unhex r with
    | Some t => Some (String c t)
    | None => None
    end.
Proof.
  destruct c as [[|] [|] [|] [|] [|] [|] [|] [|]]; reflexivity.
Qed.

Lemma unhex_hex_string (s : string) : unhex (hex_string false s) = Some s.
Proof.
  induction s as [|c s IH]; [reflexivity|].
  cbn [hex_string]. rewrite unhex_hex_byte, IH. reflexivity.
Qed.

Lemma Hex_injective (a b : ObjectID) : Hex a = Hex b -> a = b.
Proof.
  unfold Hex. intros H. pose proof (unhex_hex_string a) as Ha.
  rewrite H, unhex_hex_string in Ha. congruence.
Qed.


Section Session.
Context {DB : Type}.
Variable B : Bcrypt.
Variable J : JwtCodec.
Variable s : Service DB.

Lemma Login_result (now : Z) (db db1 : DB) (email password : string) (res : AuthResult) :
  Login B J s now db email password = (Ok res, db1) ->
  exists userID,
    ar_UserID res = Hex userID
    /\ ar_Token res = token_of J now userID email (jwtSecret s) (tokenDuration s).
Proof.
  unfold Login.
  destruct (is_empty email); [discriminate|].
  destruct (is_empty password); [discriminate|].
  destruct (repo_FindByEmail (userRepo s) db email) as [[user|e] db'].
  - destruct (VerifyPassword B (u_PasswordHash user) password); [discriminate|].
    rewrite GenerateToken_ok. intros H. inversion H; subst. exists (u_ID user). auto.
  - destruct (err_is_sentinel e ErrUserNotFound); discriminate.
Qed.

Lemma Register_result (now : Z) (salt : string) (db db1 : DB) (email password name : string)
    (res : AuthResult) :
  Register B J s now salt db email password name = (Ok res, db1) ->
  exists userID,
    ar_UserID res = Hex userID
    /\ ar_Token res = token_of J now userID email (jwtSecret s) (tokenDuration s).
Proof.
  unfold Register.
  destruct (is_empty email); [discriminate|].
  destruct (is_empty password); [discriminate|].
  destruct (is_empty name); [discriminate|].
  destruct (negb (emailRegex_MatchString email)); [discriminate|].
  destruct (len password <? minPasswordLength); [discriminate|].
  destruct (repo_FindByEmail (userRepo s) db email) as [[user|e] db']; [discriminate|].
  destruct (negb (err_is_sentinel e ErrUserNotFound)); [discriminate|].
  destruct (HashPassword B salt password) as [hash|]; [|discriminate].
  match goal with
  | |- context [repo_Create ?r ?d ?n ?u] =>
      destruct (repo_Create r d n u) as [[user' err] db2]
  end.
  destruct err; [discriminate|].
  rewrite GenerateToken_ok. intros H. inversion H; subst. exists (u_ID user'). auto.
Qed.

(** X23. The token in the result of a [Register] or a [Login] that
    succeeded, sent as [Bearer <token>] to [AuthMiddleware] with the
    secret of the service, puts the reported user id and the email of
    the call in the context at every instant before the expiry (and at
    every instant when the expiry is 0, which the library reads as no
    expiry); with an expiry other than 0 it is answered 401 "invalid
    token" from the expiry on -- provided the codec reads back the
    token it wrote and writes no space.  The expiry is the instant
    [now] at which the service made the token plus its token duration,
    cut down to whole seconds. *)
Theorem session_token_authenticates (now t : Z) (salt : string) (db db1 : DB)
    (email password name : string) (res : AuthResult) :
  Register B J s now salt db email password name = (Ok res, db1)
  \/ Login B J s now db email password = (Ok res, db1) ->
  (forall userID, Hex userID = ar_UserID res ->
                  reads_back J now userID email (jwtSecret s) (tokenDuration s)) ->
  contains_char " " (ar_Token res) = false ->
  (Unix (now + tokenDuration s) = 0 \/ t < Unix (now + tokenDuration s) * second ->
     AuthMiddleware J (jwtSecret s) t ("Bearer " ++ ar_Token res)
     = Next [ ("userID", ar_UserID res); ("email", email) ])
  /\ (Unix (now + tokenDuration s) <> 0 -> Unix (now + tokenDuration s) * second <= t ->
      AuthMiddleware J (jwtSecret s) t ("Bearer " ++ ar_Token res)
      = unauthorized "invalid token").
Proof.
  intros Hres Hrb Hns.
  assert (Hx : exists userID,
             ar_UserID res = Hex userID
             /\ ar_Token res = token_of J now userID email (jwtSecret s) (tokenDuration s)).
  { destruct Hres as [H|H]; [eapply Register_result | eapply Login_result]; exact H. }
  destruct Hx as [userID [Hid Htok]].
  specialize (Hrb userID (eq_sym Hid)).
  rewrite (AuthMiddleware_bearer J (jwtSecret s) t _ Hns), Htok, Hid.
  split.
  - intros Ht.
    rewrite (ValidateToken_generated_ok J now t userID email _ _ Hrb Ht). reflexivity.
  - intros Hz Ht.
    rewrite (ValidateToken_generated_expired J now t userID email _ _ Hrb Hz Ht). reflexivity.
Qed.

End Session.

Lemma session_token_authenticates_witness :
  exists res,
    Login refBcrypt refCodec mongoService 5 aliceWorld "a@b.com" "password1"
    = (Ok res, aliceWorld)
    /\ AuthMiddleware refCodec "test-secret" 6 ("Bearer " ++ ar_Token res)
       = Next [ ("userID", ar_UserID res); ("email", "a@b.com") ].
Proof.
  exists (mkAuthResult (token_of refCodec 5 (oid 1) "a@b.com" "test-secret" (3600 * second))
            (Hex (oid 1)) "a@b.com" "A").
  assert (Hl : Login refBcrypt refCodec mongoService 5 aliceWorld "a@b.com" "password1"
               = (Ok (mkAuthResult
                        (token_of refCodec 5 (oid 1) "a@b.com" "test-secret" (3600 * second))
                        (Hex (oid 1)) "a@b.com" "A"), aliceWorld))
    by (vm_compute; reflexivity).
  split; [exact Hl|].
  refine (proj1 (session_token_authenticates refBcrypt refCodec mongoService 5 6 "salt"
                   aliceWorld aliceWorld "a@b.com" "password1" "A" _ (or_intror Hl) _ _)
            (or_intror _)).
  - intros userID Hid. cbn [ar_UserID] in Hid.
    assert (Hu : userID = oid 1) by (apply Hex_injective; exact Hid).
    subst userID. vm_compute. reflexivity.
  - vm_compute. reflexivity.
  - vm_compute. reflexivity.
Defined.

(* ================================================================ *)
(** * The provider constructors *)

Lemma default_if_empty_nonempty (s d : string) :
  d <> EmptyString -> default_if_empty s d <> EmptyString.
Proof.
  intros Hd. unfold default_if_empty. destruct (is_empty s) eqn:E; [exact Hd|].
  apply is_empty_false. exact E.
Qed.

Lemma default_if_empty_given (s d : string) :
  s <> EmptyString -> default_if_empty s d = s.
Proof.
  intros Hs. unfold default_if_empty. rewrite (proj2 (is_empty_false _) Hs). reflexivity.
Qed.

Lemma default_if_empty_twice (s d d' : string) :
  d <> EmptyString -> default_if_empty (default_if_empty s d) d' = default_if_empty s d.
Proof.
  intros Hd. apply default_if_empty_given. apply default_if_empty_nonempty. exact Hd.
Qed.

(** X24. [NewGoogleOAuthService] and [NewGitHubOAuthService] write
    their defaults into the configuration they are given, in the empty
    endpoint fields only.  The service they return has no empty
    endpoint among those its provider uses; an endpoint that was given
    stays; a second call on the configuration changes nothing more.
    A configuration that went through the Google constructor and is
    then given to the GitHub one keeps Google's token and user-info
    endpoints: the GitHub service made from it exchanges its codes at
    the token endpoint of the Google service. *)
Theorem oauth_constructor_defaults (c : OAuthConfig) :
  let google := NewGoogleOAuthService c in
  let github := NewGitHubOAuthService c in
  (TokenURL (config google) <> EmptyString /\ UserInfoURL (config google) <> EmptyString
   /\ TokenURL (config github) <> EmptyString /\ UserInfoURL (config github) <> EmptyString
   /\ UserEmailsURL (config github) <> EmptyString)
  /\ (TokenURL c = EmptyString ->
      TokenURL (config google) = googleTokenURL /\ TokenURL (config github) = githubTokenURL)
  /\ (TokenURL c <> EmptyString ->
      TokenURL (config google) = TokenURL c /\ TokenURL (config github) = TokenURL c)
  /\ (UserInfoURL c <> EmptyString ->
      UserInfoURL (config google) = UserInfoURL c /\ UserInfoURL (config github) = UserInfoURL c)
  /\ NewGoogleOAuthService (config google) = google
  /\ NewGitHubOAuthService (config github) = github
  /\ TokenURL (config (NewGitHubOAuthService (config google))) = TokenURL (config google)
  /\ UserInfoURL (config (NewGitHubOAuthService (config google))) = UserInfoURL (config google)
  /\ (forall (U : Type) (P : Provider U) (code : string),
        TokenURL c = EmptyString ->
        exchangeGitHubCodeForToken P (NewGitHubOAuthService (config google)) code
        = match post_token P googleTokenURL
                  (token_form (config (NewGitHubOAuthService (config google))) code false) with
          | HttpFailed e => Err e
          | HttpResponse status body decoded =>
              if negb (status =? StatusOK)
              then Err (ErrorString ("token exchange failed with status " ++ Itoa status
                                       ++ ": " ++ body))
              else match decoded with
                   | Err e => Err (Wrap "failed to decode token response: " e)
                   | Ok accessToken => Ok accessToken
                   end
          end).
Proof.
  cbv zeta.
  assert (G1 : googleTokenURL <> EmptyString) by discriminate.
  assert (G2 : googleUserInfoURL <> EmptyString) by discriminate.
  assert (H1 : githubTokenURL <> EmptyString) by discriminate.
  assert (H2 : githubUserURL <> EmptyString) by discriminate.
  assert (H3 : githubUserEmailURL <> EmptyString) by discriminate.
  unfold NewGoogleOAuthService, NewGitHubOAuthService.
  cbn [config TokenURL UserInfoURL UserEmailsURL ClientID ClientSecret RedirectURL].
  split.
  { repeat split; apply default_if_empty_nonempty; assumption. }
  split.
  { intros E. unfold default_if_empty. rewrite E. split; reflexivity. }
  split.
  { intros E. rewrite !(default_if_empty_given _ _ E). split; reflexivity. }
  split.
  { intros E. rewrite !(default_if_empty_given _ _ E). split; reflexivity. }
  split.
  { rewrite !default_if_empty_twice by assumption. reflexivity. }
  split.
  { rewrite !default_if_empty_twice by assumption. reflexivity. }
  split; [apply default_if_empty_twice; exact G1|].
  split; [apply default_if_empty_twice; exact G2|].
  intros U P code E. unfold exchangeGitHubCodeForToken.
  cbn [config TokenURL]. rewrite (default_if_empty_twice _ _ _ G1).
  unfold default_if_empty at 1. rewrite E. cbn [is_empty]. reflexivity.
Qed.

(* ================================================================ *)
(** * Replacing a circle *)

Lemma replace_first_length {A} (p : A -> bool) (f : A -> A) (l : list A) :
  List.length (replace_first p f l) = List.length l.
Proof.
  induction l as [|a l IH]; simpl; [reflexivity|].
  destruct (p a); simpl; [reflexivity | rewrite IH; reflexivity].
Qed.

(** X25. On a quiet database an [Update] of a circle that succeeds,
    given a value with at least one member, has found a stored circle
    with the id and has put the value in its place: the circle stored
    under the id, which [FindByID] returns, is the value up to the time
    fields, so its member entries are those of the value, whatever
    they were before.  The value itself is left with the time of the
    call as update time.  The number of circles is the same and no
    circle with another id has changed.  For an id that is not stored
    [Update] fails with "circle not found" and changes nothing. *)
Theorem circle_update_replaces (w : World) (now : Z) (circle : Circle) :
  w_env w = [] ->
  (c_Members circle <> [] ->
   forall c1 w',
      mongoCircle_Update w now circle = ((c1, None), w') ->
      c1 = with_Circle_times circle (c_CreatedAt circle) now
      /\ (exists old, circle_of w (c_ID circle) = Some old)
      /\ (exists stored,
            same_circle stored circle
            /\ circle_of w' (c_ID circle) = Some stored
            /\ mongoCircle_FindByID w' (c_ID circle) = (Ok stored, w'))
      /\ List.length (w_circles w') = List.length (w_circles w)
      /\ (forall x, In x (w_circles w) -> c_ID x <> c_ID circle -> In x (w_circles w')))
  /\ (circle_of w (c_ID circle) = None ->
      mongoCircle_Update w now circle
      = ((with_Circle_times circle (c_CreatedAt circle) now,
          Some (ErrorString "circle not found")), w)).
Proof.
  intros Henv. split.
  - intros _ c1 w'. unfold mongoCircle_Update. cbv zeta.
    match goal with
    | |- context [circles_UpdateOne w ?p ?f] =>
        destruct (circles_UpdateOne w p f) as [[err m] w2] eqn:Eu
    end.
    assert (Henv2 : w_env w2 = []).
    { revert Eu. unfold circles_UpdateOne. rewrite (env_step_quiet w Henv).
      destruct (existsb _ (w_circles w)); intros H; inversion H; subst; exact Henv. }
    apply circles_UpdateOne_result in Eu.
    destruct Eu as [[msg [-> _]]|[[-> [-> [He Hw]]]|[-> [-> _]]]]; simpl;
      [discriminate| |discriminate].
    intros H. inversion H; subst c1 w'. clear H.
    cbn [with_Circle_times c_ID] in He, Hw.
    assert (Hold : exists old, circle_of w (c_ID circle) = Some old).
    { unfold circle_of.
      destruct (find (fun c => ObjectID_eqb (c_ID c) (c_ID circle)) (w_circles w)) as [old|]
        eqn:Ef; [exists old; reflexivity|].
      rewrite (find_none_existsb _ _ Ef) in He. discriminate. }
    destruct Hold as [old Hold].
    assert (Hfind : circle_of w2 (c_ID circle)
                    = Some (with_Circle_times circle (c_CreatedAt circle) now)).
    { unfold circle_of in *. rewrite Hw.
      rewrite find_replace_first; [rewrite Hold; reflexivity|].
      intros x _. cbn [with_Circle_times c_ID]. apply ObjectID_eqb_refl. }
    split; [reflexivity|]. split; [exists old; exact Hold|].
    split.
    { exists (with_Circle_times circle (c_CreatedAt circle) now).
      split; [repeat split|]. split; [exact Hfind|].
      apply mongoCircle_FindByID_quiet; assumption. }
    split; [rewrite Hw; apply replace_first_length|].
    intros x Hin Hne. rewrite Hw. apply replace_first_keeps; [exact Hin|].
    apply ObjectID_eqb_neq. exact Hne.
  - intros Hn. unfold mongoCircle_Update, circles_UpdateOne. cbv zeta.
    rewrite (env_step_quiet w Henv). cbn [with_Circle_times c_ID].
    unfold circle_of in Hn. rewrite (find_none_existsb _ _ Hn). reflexivity.
Qed.

Lemma circle_update_replaces_witness :
  (exists stored,
     circle_of (snd (mongoCircle_Update friendsWorld 4
                       (mkCircle (oid 5) "Close friends" (oid 6)
                          [mkCircleMember (oid 8) AccessLevelEdit 4 None] 0 0))) (oid 5)
     = Some stored
     /\ map member_entry (c_Members stored) = [(oid 8, AccessLevelEdit)])
  /\ snd (fst (mongoCircle_Update friendsWorld 4 (mkCircle (oid 8) "Others" (oid 6) [] 0 0)))
     = Some (ErrorString "circle not found").
Proof.
  split.
  - destruct (circle_update_replaces friendsWorld 4
                (mkCircle (oid 5) "Close friends" (oid 6)
                   [mkCircleMember (oid 8) AccessLevelEdit 4 None] 0 0) eq_refl) as [H _].
    assert (Hne : [mkCircleMember (oid 8) AccessLevelEdit 4 None] <> []) by discriminate.
    destruct (H Hne _ _ eq_refl) as [_ [_ [[stored [[_ [_ [_ Hm]]] [Hc _]]] _]]].
    exists stored. split; [exact Hc | exact Hm].
  - destruct (circle_update_replaces friendsWorld 4 (mkCircle (oid 8) "Others" (oid 6) [] 0 0)
                eq_refl) as [_ H].
    rewrite (H eq_refl). reflexivity.
Defined.
